(** * Custom slash commands of the Gemini CLI: loader, registry and watcher

    A shallow embedding of [packages/cli/src/services/CustomCommandLoader.ts]
    and of [CommandService], with the properties of the command registry and
    of its views, of the per-format parsers and of the actions they build, of
    the two validators, of the name sanitization and of the debounced hot
    reload.

    Conventions of the embedding:
    - a JavaScript string is the list of its UTF-16 code units;
    - a JavaScript value read from a JSON file or exported by a module is a
      [JSValue]; numbers are integers (the loader only looks at their type,
      their truthiness and their decimal rendering);
    - a JavaScript [Map] is an insertion-ordered association list whose keys
      are compared with SameValueZero;
    - console output and the suspension points of [await] on I/O are recorded
      as events; exceptions are explicit results. *)

From Stdlib Require Import String Ascii.
From Stdlib Require Import NArith ZArith Bool Arith Lia List Permutation.
Import ListNotations.

Set Implicit Arguments.
Set Warnings "-register-all".

(* ===================================================================== *)
(** * JavaScript strings *)
(* ===================================================================== *)

Module JS.

Definition jsstring := list N.

(** ASCII literals: each character of a Rocq string is one code unit. *)
Definition js (s : string) : jsstring :=
  map N_of_ascii (list_ascii_of_string s).

Fixpoint str_eqb (a b : jsstring) : bool :=
  match a, b with
  | [], [] => true
  | x :: a', y :: b' => N.eqb x y && str_eqb a' b'
  | _, _ => false
  end.

Definition is_empty (s : jsstring) : bool :=
  match s with [] => true | _ => false end.

Definition in_range (lo hi c : N) : bool := N.leb lo c && N.leb c hi.

Definition is_upper (c : N) : bool := in_range 65 90 c.
Definition is_lower (c : N) : bool := in_range 97 122 c.
Definition is_digit (c : N) : bool := in_range 48 57 c.
Definition is_letter (c : N) : bool := is_upper c || is_lower c.
Definition is_ascii (c : N) : bool := N.leb c 127.
Definition hyphen : N := 45.
Definition is_hyphen (c : N) : bool := N.eqb c hyphen.

(** WhiteSpace and LineTerminator code units: what [\s] matches and what
    [String.prototype.trim] removes. *)
Definition is_whitespace (c : N) : bool :=
  in_range 9 13 c || N.eqb c 32 || N.eqb c 160 || N.eqb c 5760
  || in_range 8192 8202 c || N.eqb c 8232 || N.eqb c 8233
  || N.eqb c 8239 || N.eqb c 8287 || N.eqb c 12288 || N.eqb c 65279.

Fixpoint dropWhile (p : N -> bool) (s : jsstring) : jsstring :=
  match s with
  | [] => []
  | c :: s' => if p c then dropWhile p s' else s
  end.

Definition dropWhileEnd (p : N -> bool) (s : jsstring) : jsstring :=
  rev (dropWhile p (rev s)).

(** [s.trim()] *)
Definition trim (s : jsstring) : jsstring :=
  dropWhileEnd is_whitespace (dropWhile is_whitespace s).

(** [s.startsWith(p)] *)
Fixpoint startsWith (p s : jsstring) : bool :=
  match p, s with
  | [], _ => true
  | x :: p', y :: s' => N.eqb x y && startsWith p' s'
  | _ :: _, [] => false
  end.

(** [s.substring(n)] and [s.substring(0, n)] *)
Definition substring_from (n : nat) (s : jsstring) : jsstring := skipn n s.
Definition substring_to (n : nat) (s : jsstring) : jsstring := firstn n s.

(** [s.toLowerCase()], which the loader applies to a name already reduced
    to ASCII and to a file extension before comparing it with ASCII
    literals: the ASCII letters, and the Kelvin sign, the one code unit
    outside ASCII whose lower case is an ASCII letter. The other code units
    stand for their lower case, which is outside ASCII as they are. *)
Definition kelvin_sign : N := 8490.
Definition lower_char (c : N) : N :=
  if is_upper c then (c + 32)%N
  else if N.eqb c kelvin_sign then 107%N
  else c.
Definition toLowerCase (s : jsstring) : jsstring := map lower_char s.

(** [s.split('\n')]: never empty, the empty string gives one empty line. *)
Fixpoint split_lines (s : jsstring) : list jsstring :=
  match s with
  | [] => [[]]
  | c :: s' =>
      if N.eqb c 10 then [] :: split_lines s'
      else match split_lines s' with
           | [] => [[c]]
           | l :: ls => (c :: l) :: ls
           end
  end.

(** [s.replace(/[class]/g, '')] *)
Definition remove_chars (p : N -> bool) (s : jsstring) : jsstring :=
  filter (fun c => negb (p c)) s.

(** [s.replace(/[class]+/g, r)] for a replacement [r] without [$]: every
    maximal run of characters of the class becomes one [r]. [in_run] tells
    that the previous character belonged to the run being replaced. *)
Fixpoint replace_runs_from (p : N -> bool) (r : jsstring) (in_run : bool)
    (s : jsstring) : jsstring :=
  match s with
  | [] => []
  | c :: s' =>
      if p c
      then (if in_run then [] else r) ++ replace_runs_from p r true s'
      else c :: replace_runs_from p r false s'
  end.

Definition replace_runs (p : N -> bool) (r : jsstring) (s : jsstring) : jsstring :=
  replace_runs_from p r false s.

(** GetSubstitution for a match without capture groups: in the replacement
    text [$$] stands for a dollar sign, [$&] for the matched text, [$`] for
    the text before the match and [$'] for the text after it; every other
    character, a lone [$] included, stands for itself. *)
Fixpoint expand_replacement (matched before after repl : jsstring) : jsstring :=
  match repl with
  | [] => []
  | c :: r =>
      if N.eqb c 36 then
        match r with
        | d :: r' =>
            if N.eqb d 36 then 36%N :: expand_replacement matched before after r'
            else if N.eqb d 38 then matched ++ expand_replacement matched before after r'
            else if N.eqb d 96 then before ++ expand_replacement matched before after r'
            else if N.eqb d 39 then after ++ expand_replacement matched before after r'
            else c :: expand_replacement matched before after r
        | [] => [c]
        end
      else c :: expand_replacement matched before after r
  end.

(** The first occurrence of [pat] in [s]: the text before it and the text
    after it. [before_rev] holds, reversed, what was already scanned. *)
Fixpoint find_first (pat before_rev s : jsstring) : option (jsstring * jsstring) :=
  if startsWith pat s then Some (rev before_rev, skipn (length pat) s)
  else match s with
       | [] => None
       | c :: s' => find_first pat (c :: before_rev) s'
       end.

(** [s.replace(pat, repl)] with a string pattern: only the first occurrence
    is replaced, and [repl] goes through GetSubstitution. *)
Definition replace_first (pat repl s : jsstring) : jsstring :=
  match find_first pat [] s with
  | None => s
  | Some (before, after) =>
      before ++ expand_replacement pat before after repl ++ after
  end.

(** [s.replace(/pat/g, repl)] for a regular expression that matches the
    literal, non-empty text [pat]: all occurrences, left to right and not
    overlapping. [skip] counts the characters of the current match still to
    be passed over. *)
Fixpoint replace_all_from (pat repl before_rev : jsstring) (skip : nat)
    (s : jsstring) : jsstring :=
  match s with
  | [] => []
  | c :: s' =>
      match skip with
      | S k => replace_all_from pat repl (c :: before_rev) k s'
      | O =>
          if startsWith pat s
          then expand_replacement pat (rev before_rev) (skipn (length pat) s) repl
               ++ replace_all_from pat repl (c :: before_rev) (length pat - 1) s'
          else c :: replace_all_from pat repl (c :: before_rev) 0 s'
      end
  end.

Definition replace_all (pat repl s : jsstring) : jsstring :=
  replace_all_from pat repl [] 0 s.

(** Decimal rendering of a natural number. *)
Fixpoint digits_of_uint (d : Decimal.uint) : jsstring :=
  match d with
  | Decimal.Nil => []
  | Decimal.D0 d' => 48%N :: digits_of_uint d'
  | Decimal.D1 d' => 49%N :: digits_of_uint d'
  | Decimal.D2 d' => 50%N :: digits_of_uint d'
  | Decimal.D3 d' => 51%N :: digits_of_uint d'
  | Decimal.D4 d' => 52%N :: digits_of_uint d'
  | Decimal.D5 d' => 53%N :: digits_of_uint d'
  | Decimal.D6 d' => 54%N :: digits_of_uint d'
  | Decimal.D7 d' => 55%N :: digits_of_uint d'
  | Decimal.D8 d' => 56%N :: digits_of_uint d'
  | Decimal.D9 d' => 57%N :: digits_of_uint d'
  end.

Definition N_to_string (n : N) : jsstring :=
  match digits_of_uint (N.to_uint n) with
  | [] => [48%N]
  | ds => ds
  end.

Definition Z_to_string (z : Z) : jsstring :=
  match z with
  | Z0 => [48%N]
  | Zpos p => N_to_string (Npos p)
  | Zneg p => hyphen :: N_to_string (Npos p)
  end.

End JS.

Import JS.


(* ===================================================================== *)
(** * JavaScript values *)
(* ===================================================================== *)

(** What [JSON.parse] returns and what a command module exports: plain data
    and function values. A function value is known by its [name] and
    [length] properties only. *)
Inductive JSValue : Type :=
| JUndefined
| JNull
| JBool (b : bool)
| JNum (n : Z)
| JStr (s : jsstring)
| JArr (elems : list JSValue)
| JObj (props : list (jsstring * JSValue))
| JFun (fname : jsstring) (arity : N).

Inductive JSType : Type :=
| TUndefined | TObject | TBoolean | TNumber | TString | TFunction.

(** [typeof v] *)
Definition typeof (v : JSValue) : JSType :=
  match v with
  | JUndefined => TUndefined
  | JNull => TObject
  | JBool _ => TBoolean
  | JNum _ => TNumber
  | JStr _ => TString
  | JArr _ => TObject
  | JObj _ => TObject
  | JFun _ _ => TFunction
  end.

Definition is_string (v : JSValue) : bool :=
  match v with JStr _ => true | _ => false end.
Definition is_function (v : JSValue) : bool :=
  match v with JFun _ _ => true | _ => false end.
Definition is_boolean (v : JSValue) : bool :=
  match v with JBool _ => true | _ => false end.
Definition is_object (v : JSValue) : bool :=
  match typeof v with TObject => true | _ => false end.
(** [Array.isArray(v)] *)
Definition isArray (v : JSValue) : bool :=
  match v with JArr _ => true | _ => false end.

(** ToBoolean: what [if (v)], [!v], [v && ...] and [v || ...] test. *)
Definition truthy (v : JSValue) : bool :=
  match v with
  | JUndefined | JNull => false
  | JBool b => b
  | JNum n => negb (Z.eqb n 0)
  | JStr s => negb (is_empty s)
  | JArr _ | JObj _ | JFun _ _ => true
  end.

(** [a || b] on values *)
Definition js_or (a b : JSValue) : JSValue := if truthy a then a else b.

(** ToString. An array joins its elements with commas, [null] and
    [undefined] elements giving the empty string. The text of a function is
    its source, of which only the shape matters here. *)
Fixpoint ToString (v : JSValue) : jsstring :=
  match v with
  | JUndefined => js "undefined"
  | JNull => js "null"
  | JBool true => js "true"
  | JBool false => js "false"
  | JNum n => Z_to_string n
  | JStr s => s
  | JArr l =>
      (fix join (first : bool) (l : list JSValue) : jsstring :=
         match l with
         | [] => []
         | x :: l' =>
             (if first then [] else [44%N])
             ++ match x with
                | JUndefined | JNull => []
                | _ => ToString x
                end
             ++ join false l'
         end) true l
  | JObj _ => js "[object Object]"
  | JFun nm _ => js "function " ++ nm ++ js "() { }"
  end.

(** Own property of an object literal. *)
Fixpoint lookup_prop (k : jsstring) (props : list (jsstring * JSValue)) : option JSValue :=
  match props with
  | [] => None
  | (k', v) :: rest => if str_eqb k k' then Some v else lookup_prop k rest
  end.

(** [v.k] for a value [v] that is neither [null] nor [undefined]. Strings,
    arrays and functions answer [length], functions answer [name]; the
    loader reads no other inherited property. *)
Definition prop (v : JSValue) (k : jsstring) : JSValue :=
  match v with
  | JObj props =>
      match lookup_prop k props with Some x => x | None => JUndefined end
  | JStr s =>
      if str_eqb k (js "length") then JNum (Z.of_nat (length s)) else JUndefined
  | JArr l =>
      if str_eqb k (js "length") then JNum (Z.of_nat (length l)) else JUndefined
  | JFun nm ar =>
      if str_eqb k (js "name") then JStr nm
      else if str_eqb k (js "length") then JNum (Z.of_N ar)
      else JUndefined
  | _ => JUndefined
  end.

(** Writing [o.k = v] into a property list: an existing key keeps its place,
    a new key goes last. *)
Fixpoint set_prop (k : jsstring) (v : JSValue) (props : list (jsstring * JSValue))
    : list (jsstring * JSValue) :=
  match props with
  | [] => [(k, v)]
  | (k', v') :: rest =>
      if str_eqb k k' then (k', v) :: rest else (k', v') :: set_prop k v rest
  end.

(** The own enumerable properties that [...v] copies in an object literal. *)
Definition spread_props (v : JSValue) : list (jsstring * JSValue) :=
  match v with
  | JObj props => props
  | JArr l => combine (map (fun i => N_to_string (N.of_nat i)) (seq 0 (length l))) l
  | JStr s => combine (map (fun i => N_to_string (N.of_nat i)) (seq 0 (length s)))
                      (map (fun c => JStr [c]) s)
  | _ => []
  end.

(** [{ ...base, ...v }]: the properties of [v] are written over [base]. *)
Definition spread_over (base : list (jsstring * JSValue)) (v : JSValue)
    : list (jsstring * JSValue) :=
  fold_left (fun acc kv => set_prop (fst kv) (snd kv) acc) (spread_props v) base.

(** SameValueZero, the key equality of [Map]. Objects, arrays and functions
    are compared by reference; every parsed or exported one is a fresh
    reference, equal to no other key. *)
Definition same_value_zero (a b : JSValue) : bool :=
  match a, b with
  | JUndefined, JUndefined => true
  | JNull, JNull => true
  | JBool x, JBool y => Bool.eqb x y
  | JNum x, JNum y => Z.eqb x y
  | JStr x, JStr y => str_eqb x y
  | _, _ => false
  end.

(** [v?.k]: [undefined] when [v] is [null] or [undefined] *)
Definition optional_prop (v : JSValue) (k : jsstring) : JSValue :=
  match v with
  | JUndefined | JNull => JUndefined
  | _ => prop v k
  end.

(** [a === s] for a string [s] *)
Definition strict_equals_string (a : JSValue) (s : jsstring) : bool :=
  match a with
  | JStr t => str_eqb t s
  | _ => false
  end.

(** ** Map *)

Module JSMap.
Section WithValues.
Variable V : Type.

Definition t := list (JSValue * V).

Definition empty : t := [].

(** [m.get(k)] *)
Fixpoint get (k : JSValue) (m : t) : option V :=
  match m with
  | [] => None
  | (k', v) :: rest => if same_value_zero k k' then Some v else get k rest
  end.

(** [m.set(k, v)] *)
Fixpoint set (k : JSValue) (v : V) (m : t) : t :=
  match m with
  | [] => [(k, v)]
  | (k', v') :: rest =>
      if same_value_zero k k' then (k', v) :: rest
      else (k', v') :: set k v rest
  end.

(** [Array.from(m.values())] *)
Definition values (m : t) : list V := map snd m.
Definition keys (m : t) : list JSValue := map fst m.

(** [m.has(k)] *)
Definition has (k : JSValue) (m : t) : bool :=
  match get k m with Some _ => true | None => false end.
End WithValues.
End JSMap.


(* ===================================================================== *)
(** * Effects: exceptions, console output, suspension points *)
(* ===================================================================== *)

Inductive Exception : Type :=
| SyntaxError
| TypeError
| OtherError (code : jsstring).

Inductive Result (A : Type) : Type :=
| Ok (a : A)
| Throw (e : Exception).
Arguments Ok {A} a.
Arguments Throw {A} e.

(** Defects reported by the validators. *)
Inductive Defect : Type :=
| MissingName
| BadNamePattern
| BadAltNamePattern
| AltNameNotString
| NotString (field : jsstring)
| NotFunction (field : jsstring)
| TagsNotArray
| TagNotString
| SubCommandsNotArray
| InvalidSubCommand (index : nat)
| MetadataNotObject
| CanExecuteShellNotBoolean.

Inductive Level : Type := LDebug | LWarn | LError.

(** The console messages of the loader, by the statement that prints them. *)
Inductive Message : Type :=
| MsgDirectoryMissing (dirPath : jsstring)
| MsgFailedDirectory (dirPath : jsstring) (e : Exception)
| MsgErrorDirectory (dirPath : jsstring) (e : Exception)
| MsgUnsupportedType (filePath : jsstring)
| MsgLoaded (name : JSValue) (filePath : jsstring)
| MsgFailedFile (filePath : jsstring) (e : Exception)
| MsgNoExport (filePath : jsstring)
| MsgTypeScriptError (filePath : jsstring) (e : Exception)
| MsgInvalidJson (filePath : jsstring)
| MsgJsonError (filePath : jsstring) (e : Exception)
| MsgYamlNotImplemented (filePath : jsstring)
| MsgYamlError (filePath : jsstring) (e : Exception)
| MsgMarkdownError (filePath : jsstring) (e : Exception)
| MsgNoCommandName (filePath : jsstring)
| MsgSimpleValidationFailed (name : JSValue) (errors : list Defect)
| MsgValidationFailed (name : JSValue) (errors : list Defect)
| MsgActionAndSubCommands (name : JSValue)
| MsgExecuting (fullCommand : jsstring)
| MsgFileChanged (filename : JSValue)
| MsgCustomLoaded (count : nat)
| MsgCustomLoadFailed (e : Exception)
| MsgReloaded
| MsgReloadFailed (e : Exception)
| MsgWatchFailed (dirPath : jsstring) (e : Exception).

Inductive Event : Type :=
| Console (lvl : Level) (msg : Message)
| Suspend.  (** an [await] on an I/O operation: other tasks may run here *)

(** ** Computations that log, suspend and may throw *)

Module Eff.
Definition t (A : Type) : Type := list Event * Result A.

Definition ret {A} (a : A) : t A := ([], Ok a).

Definition bind {A B} (m : t A) (k : A -> t B) : t B :=
  match m with
  | (ev, Ok a) => let (ev', r) := k a in (ev ++ ev', r)
  | (ev, Throw e) => (ev, Throw e)
  end.

Definition throw {A} (e : Exception) : t A := ([], Throw e).

(** [try { body } catch (e) { handler e }] *)
Definition try_catch {A} (body : t A) (handler : Exception -> t A) : t A :=
  match body with
  | (ev, Ok a) => (ev, Ok a)
  | (ev, Throw e) => let (ev', r) := handler e in (ev ++ ev', r)
  end.

Definition log (lvl : Level) (msg : Message) : t unit :=
  ([Console lvl msg], Ok tt).

(** [await] of an I/O operation whose outcome is [r] *)
Definition await {A} (r : Result A) : t A := ([Suspend], r).

(** a synchronous operation whose outcome is [r] *)
Definition lift {A} (r : Result A) : t A := ([], r).

Definition when (b : bool) (m : t unit) : t unit := if b then m else ret tt.

Definition events {A} (m : t A) : list Event := fst m.
Definition result {A} (m : t A) : Result A := snd m.
End Eff.

Declare Scope eff_scope.
Delimit Scope eff_scope with eff.
Notation "x <- c ;; k" := (Eff.bind c (fun x => k))
  (at level 61, c at next level, right associativity) : eff_scope.
Notation "c ;;; k" := (Eff.bind c (fun _ => k))
  (at level 61, right associativity) : eff_scope.
Open Scope eff_scope.

(* ===================================================================== *)
(** * The platform *)
(* ===================================================================== *)

(** The pure functions of Node that the loader calls. *)
Class NodeApi : Type := {
  path_join : list jsstring -> jsstring;
  path_extname : jsstring -> jsstring;
  path_basename : jsstring -> jsstring -> jsstring;
  (** [JSON.parse]; [None] stands for a [SyntaxError] *)
  JSON_parse : jsstring -> option JSValue;
  os_homedir : jsstring;
  process_cwd : jsstring
}.

Record Dirent : Type := {
  dirent_name : jsstring;
  dirent_isFile : bool
}.

(** The answers of the file system and of the module loader during one load
    cycle. *)
Record FileSystem : Type := {
  (** [(await fs.stat(p)).isDirectory()] *)
  fs_stat_isDirectory : jsstring -> Result bool;
  (** [fs.readdir(p, { withFileTypes: true })] *)
  fs_readdir : jsstring -> Result (list Dirent);
  (** [fs.readFile(p, 'utf-8')] *)
  fs_readFile : jsstring -> Result jsstring;
  (** [import(url)] of the file at [p]: the exports [default] and [command] *)
  import_module : jsstring -> Result (JSValue * JSValue);
  (** [watch(p, ...)]: the handle of the new watcher *)
  fs_watch : jsstring -> Result nat
}.

(* ===================================================================== *)
(** * Commands ([ui/commands/types.ts]) *)
(* ===================================================================== *)

Inductive CommandScope : Type := builtin | project | personal.

Definition scope_name (s : CommandScope) : jsstring :=
  match s with
  | builtin => js "builtin"
  | project => js "project"
  | personal => js "personal"
  end.

Inductive CommandSourceFormat : Type := typescript | json | yaml | markdown.

Definition format_name (f : CommandSourceFormat) : jsstring :=
  match f with
  | typescript => js "typescript"
  | json => js "json"
  | yaml => js "yaml"
  | markdown => js "markdown"
  end.

Record Config : Type := {
  getDebugMode : bool;
  getProjectRoot : JSValue
}.

(** The part of [CommandContext] that the generated actions read. *)
Record CommandContext : Type := {
  services_config : option Config
}.

Inductive MessageType : Type := msg_info | msg_error.

Inductive MessageContent : Type :=
| FailedToExecute (e : Exception).

Inductive SlashCommandActionReturn : Type :=
| ToolActionReturn (toolName : jsstring) (toolArgs_command : jsstring)
    (toolArgs_cwd : JSValue)
| MessageActionReturn (messageType : MessageType) (content : MessageContent)
| OpenDialogActionReturn (dialog : jsstring)
| AiPromptActionReturn (content : jsstring).

(** The [action] of a command: one of the closures that the loader builds,
    with the variables it captures, or the value a module exported. *)
Inductive ActionFn : Type :=
| SimpleCommandAction (debugMode : bool) (shellCommand args cwd : JSValue)
| MarkdownShellAction (shellCommand : jsstring)
| MarkdownPromptAction (content : jsstring)
| ExportedAction (f : JSValue).

Record SlashCommand : Type := {
  name : JSValue;
  altName : JSValue;
  description : JSValue;
  action : option ActionFn;
  completion : JSValue;
  subCommands : JSValue;
  metadata : JSValue
}.

(** [command.metadata = m] *)
Definition set_metadata (command : SlashCommand) (m : JSValue) : SlashCommand :=
  {| name := name command; altName := altName command;
     description := description command; action := action command;
     completion := completion command; subCommands := subCommands command;
     metadata := m |}.

Record CommandDirectoryConfig : Type := {
  dir_path : jsstring;
  dir_scope : CommandScope;
  dir_enabled : bool
}.

(** The fields of a [CustomCommandLoader] that are set by its constructor
    and never written afterwards. *)
Record CustomCommandLoader : Type := {
  debugMode : bool;
  projectRoot : jsstring;
  directories : list CommandDirectoryConfig
}.

(** The registry and what the host has seen of a load cycle: [commands] is
    [this.commands]; [console] is what was printed; [observed] holds the
    registry as it stood at every suspension point, where a consumer such as
    [getCommand] may run. *)
Record LoadState : Type := {
  commands : JSMap.t SlashCommand;
  console : list (Level * Message);
  observed : list (JSMap.t SlashCommand)
}.

Definition with_commands (m : JSMap.t SlashCommand) (st : LoadState) : LoadState :=
  {| commands := m; console := console st; observed := observed st |}.

Definition record_event (st : LoadState) (ev : Event) : LoadState :=
  match ev with
  | Console lvl msg =>
      {| commands := commands st; console := console st ++ [(lvl, msg)];
         observed := observed st |}
  | Suspend =>
      {| commands := commands st; console := console st;
         observed := observed st ++ [commands st] |}
  end.

Definition record_events (evs : list Event) (st : LoadState) : LoadState :=
  fold_left record_event evs st.

(* ===================================================================== *)
(** * CustomCommandLoader *)
(* ===================================================================== *)

(** [/^[a-zA-Z][a-zA-Z0-9-]*$/.test(s)] *)
Definition name_pattern (s : jsstring) : bool :=
  match s with
  | [] => false
  | c :: rest =>
      is_letter c && forallb (fun d => is_letter d || is_digit d || is_hyphen d) rest
  end.

(** [sanitizeCommandName] *)
Definition sanitizeCommandName (name : jsstring) : jsstring :=
  let ascii := remove_chars (fun c => negb (is_ascii c)) name in
  if Nat.eqb (length (trim ascii)) 0 then []
  else
    let s1 := toLowerCase ascii in
    let s2 := remove_chars
                (fun c => negb (is_letter c || is_digit c || is_whitespace c
                                || is_hyphen c)) s1 in
    let s3 := replace_runs is_whitespace [hyphen] s2 in
    let s4 := dropWhile (fun c => negb (is_letter c)) s3 in
    let s5 := replace_runs is_hyphen [hyphen] s4 in
    let s6 := dropWhileEnd is_hyphen (dropWhile is_hyphen s5) in
    substring_to 50 s6.

(** [getSourceFormat] *)
Definition getSourceFormat (ext : jsstring) : option CommandSourceFormat :=
  if str_eqb ext (js ".ts") || str_eqb ext (js ".js") then Some typescript
  else if str_eqb ext (js ".json") then Some json
  else if str_eqb ext (js ".yaml") || str_eqb ext (js ".yml") then Some yaml
  else if str_eqb ext (js ".md") || str_eqb ext (js ".markdown") then Some markdown
  else None.

(** [v.k] where [v] may be [null] or [undefined] *)
Definition get_prop (v : JSValue) (k : jsstring) : Result JSValue :=
  match v with
  | JUndefined | JNull => Throw TypeError
  | _ => Ok (prop v k)
  end.

(** [if (v && typeof v !== 'string') errors.push(...)] *)
Definition string_defect (field : jsstring) (v : JSValue) : list Defect :=
  if truthy v && negb (is_string v) then [NotString field] else [].

(** The check of [tags] shared by the two validators: one defect for a value
    that is not an array, one (the loop breaks) for a tag that is not a
    string. *)
Definition tags_defects (tags : JSValue) : list Defect :=
  if truthy tags && negb (isArray tags) then [TagsNotArray]
  else if truthy tags then
    match tags with
    | JArr l => if forallb is_string l then [] else [TagNotString]
    | _ => []
    end
  else [].

(** [config.k] for a property name written as a literal *)
Definition field (config : JSValue) (k : string) : JSValue := prop config (js k).

(** The defects that [validateSimpleCommand] pushes, in the order of its
    checks. *)
Definition simple_defects (config : JSValue) : list Defect :=
  (if negb (truthy (field config "name")) || negb (is_string (field config "name"))
   then [MissingName]
   else if negb (name_pattern (ToString (field config "name")))
        then [BadNamePattern] else [])
  ++ (if truthy (field config "altName")
         && negb (name_pattern (ToString (field config "altName")))
      then [BadAltNamePattern] else [])
  ++ string_defect (js "command") (field config "command")
  ++ string_defect (js "args") (field config "args")
  ++ string_defect (js "cwd") (field config "cwd")
  ++ string_defect (js "category") (field config "category")
  ++ tags_defects (field config "tags")
  ++ string_defect (js "author") (field config "author")
  ++ string_defect (js "version") (field config "version").

(** [validateSimpleCommand]: reading a property of [null] or [undefined]
    throws. *)
Definition validateSimpleCommand (config : JSValue) : Result (list Defect) :=
  match get_prop config (js "name") with
  | Throw e => Throw e
  | Ok _ => Ok (simple_defects config)
  end.

Section Loader.
Context {api : NodeApi}.

(** Running the [action] that [createSimpleCommand] builds. The call
    [args.replace(...)] throws when [args] is not a string, which the
    closure catches. *)
Definition simpleCommandAction (debug : bool) (shellCommand args cwd : JSValue)
    (context : CommandContext) (userArgs : jsstring)
    : Eff.t SlashCommandActionReturn :=
  Eff.try_catch
    (finalArgs <- Eff.lift (match args with
                            | JStr a => Ok (replace_first (js "{{args}}") userArgs a)
                            | _ => Throw TypeError
                            end) ;;
     let fullCommand := trim (ToString shellCommand ++ [32%N] ++ finalArgs) in
     Eff.when debug (Eff.log LDebug (MsgExecuting fullCommand)) ;;;
     Eff.ret (ToolActionReturn (js "run_shell_command") fullCommand
                (js_or cwd
                   (js_or (match services_config context with
                           | Some c => getProjectRoot c
                           | None => JUndefined
                           end)
                          (JStr process_cwd)))))
    (fun e => Eff.ret (MessageActionReturn msg_error (FailedToExecute e))).

(** The two actions that [loadMarkdownCommand] builds. *)
Definition markdownShellAction (shellCommand : jsstring)
    (context : CommandContext) (args : jsstring)
    : Eff.t SlashCommandActionReturn :=
  let finalCommand := replace_all (js "{{args}}") args shellCommand in
  Eff.ret (ToolActionReturn (js "run_shell_command") finalCommand
             (js_or (match services_config context with
                     | Some c => getProjectRoot c
                     | None => JUndefined
                     end)
                    (JStr process_cwd))).

Definition markdownPromptAction (content : jsstring)
    (context : CommandContext) (args : jsstring)
    : Eff.t SlashCommandActionReturn :=
  Eff.ret (AiPromptActionReturn
             (if negb (is_empty args) && negb (is_empty (trim args))
              then trim content ++ [10%N; 10%N] ++ trim args
              else trim content)).

(** [createSimpleCommand] *)
Definition createSimpleCommand (self : CustomCommandLoader) (config : JSValue)
    : Eff.t (option SlashCommand) :=
  errors <- Eff.lift (validateSimpleCommand config) ;;
  if Nat.ltb 0 (length errors) then
    Eff.log LError
      (MsgSimpleValidationFailed
         (js_or (prop config (js "name")) (JStr (js "unknown"))) errors) ;;;
    Eff.ret None
  else
    let shellCommand := field config "command" in
    let args := match field config "args" with JUndefined => JStr [] | a => a end in
    Eff.ret (Some
      {| name := field config "name";
         altName := field config "altName";
         description := field config "description";
         action := if truthy shellCommand
                   then Some (SimpleCommandAction (debugMode self) shellCommand
                                args (field config "cwd"))
                   else None;
         completion := JUndefined;
         subCommands := JUndefined;
         metadata := JObj [ (js "scope", JStr (js "project"));
                            (js "sourceFormat", JStr (js "json"));
                            (js "category", field config "category");
                            (js "tags", field config "tags");
                            (js "author", field config "author");
                            (js "version", field config "version");
                            (js "canExecuteShell", JBool (truthy shellCommand)) ]
      |}).

(** [loadJsonCommand] *)
Definition loadJsonCommand (self : CustomCommandLoader) (fs : FileSystem)
    (filePath : jsstring) : Eff.t (option SlashCommand) :=
  Eff.try_catch
    (content <- Eff.await (fs_readFile fs filePath) ;;
     config <- Eff.lift (match JSON_parse content with
                         | Some v => Ok v
                         | None => Throw SyntaxError
                         end) ;;
     command <- createSimpleCommand self config ;;
     match command with
     | None => Eff.ret None
     | Some c => Eff.ret (Some c)
     end)
    (fun e =>
       match e with
       | SyntaxError => Eff.log LError (MsgInvalidJson filePath)
       | _ => Eff.log LError (MsgJsonError filePath e)
       end ;;;
       Eff.ret None).

(** [loadYamlCommand] *)
Definition loadYamlCommand (filePath : jsstring) : Eff.t (option SlashCommand) :=
  Eff.try_catch
    (Eff.log LWarn (MsgYamlNotImplemented filePath) ;;;
     Eff.ret None)
    (fun e =>
       Eff.log LError (MsgYamlError filePath e) ;;;
       Eff.ret None).

(** The first loop of [loadMarkdownCommand]: the text of the first line
    that starts with [# ]. *)
Fixpoint extractTitle (lines : list jsstring) : jsstring :=
  match lines with
  | [] => []
  | line :: rest =>
      let trimmed := trim line in
      if startsWith (js "# ") trimmed
      then trim (substring_from 2 trimmed)
      else extractTitle rest
  end.

Definition fence : jsstring := [96; 96; 96]%N.

(** The second loop of [loadMarkdownCommand], from the state of its three
    variables; the result is [(description, shellCommand)]. Closing a
    shell block that is not empty leaves the loop. *)
Fixpoint scanLines (lines : list jsstring) (inCodeBlock : bool)
    (codeBlockContent description : jsstring) : jsstring * jsstring :=
  match lines with
  | [] => (description, [])
  | line :: rest =>
      let trimmed := trim line in
      if startsWith (fence ++ js "bash") trimmed
         || startsWith (fence ++ js "sh") trimmed
         || startsWith (fence ++ js "shell") trimmed
      then scanLines rest true codeBlockContent description
      else if str_eqb trimmed fence && inCodeBlock then
        if negb (is_empty (trim codeBlockContent))
        then (description, trim codeBlockContent)
        else scanLines rest false [] description
      else
        let codeBlockContent' :=
          if inCodeBlock then codeBlockContent ++ line ++ [10%N]
          else codeBlockContent in
        let description' :=
          if is_empty description && startsWith (js "## ") trimmed
          then trim (substring_from 3 trimmed)
          else if is_empty description && Nat.ltb 0 (length trimmed)
                  && negb (startsWith (js "#") trimmed)
                  && negb (startsWith fence trimmed)
          then trimmed
          else description in
        scanLines rest inCodeBlock codeBlockContent' description'
  end.

(** The description and the shell command that [loadMarkdownCommand]
    extracts from the text of a file. *)
Definition extractDescription (content : jsstring) : jsstring :=
  fst (scanLines (split_lines content) false [] []).
Definition extractShellCommand (content : jsstring) : jsstring :=
  snd (scanLines (split_lines content) false [] []).

(** [a || b] on strings *)
Definition str_or (a b : jsstring) : jsstring := if is_empty a then b else a.

(** [loadMarkdownCommand] *)
Definition loadMarkdownCommand (fs : FileSystem) (filePath : jsstring)
    : Eff.t (option SlashCommand) :=
  Eff.try_catch
    (content <- Eff.await (fs_readFile fs filePath) ;;
     let filename := path_basename filePath (path_extname filePath) in
     let lines := split_lines content in
     let title := extractTitle lines in
     let '(description, shellCommand) := scanLines lines false [] [] in
     let commandName := str_or (sanitizeCommandName title)
                               (sanitizeCommandName filename) in
     if is_empty commandName then
       Eff.log LWarn (MsgNoCommandName filePath) ;;;
       Eff.ret None
     else
       let base_metadata :=
         [ (js "scope", JStr (js "personal"));
           (js "sourceFormat", JStr (js "markdown"));
           (js "category", JStr (js "markdown"));
           (js "tags", JArr [JStr (js "markdown"); JStr (js "custom")]) ] in
       Eff.ret (Some
         {| name := JStr commandName;
            altName := JUndefined;
            description :=
              JStr (str_or description
                      (str_or title (js "Command from " ++ filename)));
            action := if negb (is_empty shellCommand)
                      then Some (MarkdownShellAction shellCommand)
                      else Some (MarkdownPromptAction content);
            completion := JUndefined;
            subCommands := JUndefined;
            metadata := if negb (is_empty shellCommand)
                        then JObj (set_prop (js "canExecuteShell") (JBool true)
                                     base_metadata)
                        else JObj base_metadata
         |}))
    (fun e =>
       Eff.log LError (MsgMarkdownError filePath e) ;;;
       Eff.ret None).

(** The defects of a [metadata] object, in the order [validateCommand]
    reports them. *)
Definition metadata_defects (meta : JSValue) : list Defect :=
  string_defect (js "category") (field meta "category")
  ++ tags_defects (field meta "tags")
  ++ string_defect (js "author") (field meta "author")
  ++ string_defect (js "version") (field meta "version")
  ++ (if truthy (field meta "canExecuteShell")
         && negb (is_boolean (field meta "canExecuteShell"))
      then [CanExecuteShellNotBoolean] else []).

(** [command.subCommands.length > 0], for a length that is a number *)
Definition has_subCommands (subs : JSValue) : bool :=
  match prop subs (js "length") with
  | JNum n => Z.ltb 0 n
  | _ => false
  end.

(** The loop of [validateCommand] over the sub-commands, each already
    given with its own validation: a sub-command that is rejected adds a
    defect, one whose validation throws ends the loop. *)
Fixpoint subCommand_defects (i : nat) (subs : list (Eff.t (option JSValue)))
    : Eff.t (list Defect) :=
  match subs with
  | [] => Eff.ret []
  | sub :: rest =>
      r <- sub ;;
      ds <- subCommand_defects (S i) rest ;;
      Eff.ret (match r with
               | None => InvalidSubCommand i :: ds
               | Some _ => ds
               end)
  end.

(** The body of [validateCommand], given the validations of the elements
    of [command.subCommands]. *)
Definition validateCommand_body (command : JSValue)
    (subs : list (Eff.t (option JSValue))) : Eff.t (option JSValue) :=
  match get_prop command (js "name") with
  | Throw e => Eff.throw e
  | Ok _ =>
      let name_defects :=
        if negb (truthy (field command "name"))
           || negb (is_string (field command "name"))
        then [MissingName]
        else if negb (name_pattern (ToString (field command "name")))
             then [BadNamePattern] else [] in
      let altName_defects :=
        if truthy (field command "altName") then
          if negb (is_string (field command "altName")) then [AltNameNotString]
          else if negb (name_pattern (ToString (field command "altName")))
               then [BadAltNamePattern] else []
        else [] in
      let function_defect (k : jsstring) (v : JSValue) :=
        if truthy v && negb (is_function v) then [NotFunction k] else [] in
      sub_defects <-
        (if truthy (field command "subCommands") then
           if negb (isArray (field command "subCommands"))
           then Eff.ret [SubCommandsNotArray]
           else subCommand_defects 0 subs
         else Eff.ret []) ;;
      let meta_defects :=
        if truthy (field command "metadata") then
          if negb (is_object (field command "metadata")) then [MetadataNotObject]
          else metadata_defects (field command "metadata")
        else [] in
      let errors :=
        name_defects
        ++ string_defect (js "description") (field command "description")
        ++ altName_defects
        ++ function_defect (js "action") (field command "action")
        ++ function_defect (js "completion") (field command "completion")
        ++ sub_defects
        ++ meta_defects in
      Eff.when (truthy (field command "action")
                && truthy (field command "subCommands")
                && has_subCommands (field command "subCommands"))
        (Eff.log LWarn (MsgActionAndSubCommands (field command "name"))) ;;;
      if Nat.ltb 0 (length errors) then
        Eff.log LError
          (MsgValidationFailed
             (js_or (field command "name") (JStr (js "unknown"))) errors) ;;;
        Eff.ret None
      else Eff.ret (Some command)
  end.

(** [validateCommand]. The recursion follows [command.subCommands], the
    first property of that name of an object. *)
Fixpoint validateCommand (command : JSValue) : Eff.t (option JSValue) :=
  validateCommand_body command
    (match command with
     | JObj props =>
         (fix find (ps : list (jsstring * JSValue)) : list (Eff.t (option JSValue)) :=
            match ps with
            | [] => []
            | (k, v) :: rest =>
                if str_eqb (js "subCommands") k then
                  match v with
                  | JArr l =>
                      (fix each (l : list JSValue) : list (Eff.t (option JSValue)) :=
                         match l with
                         | [] => []
                         | x :: l' => validateCommand x :: each l'
                         end) l
                  | _ => []
                  end
                else find rest
            end) props
     | _ => []
     end).

(** A validated export read through the [SlashCommand] interface. *)
Definition as_SlashCommand (v : JSValue) : SlashCommand :=
  {| name := field v "name";
     altName := field v "altName";
     description := field v "description";
     action := match field v "action" with
               | JUndefined => None
               | a => Some (ExportedAction a)
               end;
     completion := field v "completion";
     subCommands := field v "subCommands";
     metadata := field v "metadata" |}.

(** [loadTypeScriptCommand] *)
Definition loadTypeScriptCommand (fs : FileSystem) (filePath : jsstring)
    : Eff.t (option SlashCommand) :=
  Eff.try_catch
    (module <- Eff.await (import_module fs filePath) ;;
     let command := js_or (fst module) (snd module) in
     if negb (truthy command) || negb (is_object command) then
       Eff.log LWarn (MsgNoExport filePath) ;;;
       Eff.ret None
     else
       r <- validateCommand command ;;
       Eff.ret (option_map as_SlashCommand r))
    (fun e =>
       Eff.log LError (MsgTypeScriptError filePath e) ;;;
       Eff.ret None).

(** [loadCommandFromFile] *)
Definition loadCommandFromFile (self : CustomCommandLoader) (fs : FileSystem)
    (filePath : jsstring) (scope : CommandScope) : Eff.t (option SlashCommand) :=
  let ext := toLowerCase (path_extname filePath) in
  match getSourceFormat ext with
  | None =>
      Eff.when (debugMode self) (Eff.log LDebug (MsgUnsupportedType filePath)) ;;;
      Eff.ret None
  | Some sourceFormat =>
      Eff.try_catch
        (command <- match sourceFormat with
                    | typescript => loadTypeScriptCommand fs filePath
                    | json => loadJsonCommand self fs filePath
                    | yaml => loadYamlCommand filePath
                    | markdown => loadMarkdownCommand fs filePath
                    end ;;
         match command with
         | Some c =>
             let c' :=
               set_metadata c
                 (JObj (spread_over
                          [ (js "scope", JStr (scope_name scope));
                            (js "sourceFormat", JStr (format_name sourceFormat));
                            (js "sourcePath", JStr filePath) ]
                          (metadata c))) in
             Eff.when (debugMode self)
               (Eff.log LDebug (MsgLoaded (name c') filePath)) ;;;
             Eff.ret (Some c')
         | None => Eff.ret None
         end)
        (fun e =>
           Eff.log LError (MsgFailedFile filePath e) ;;;
           Eff.ret None)
  end.

(** [directoryExists] *)
Definition directoryExists (fs : FileSystem) (dirPath : jsstring) : Eff.t bool :=
  Eff.try_catch
    (Eff.await (fs_stat_isDirectory fs dirPath))
    (fun _ => Eff.ret false).

(** [this.commands.set(command.name, command)] and, for a command with an
    [altName], [this.commands.set(command.altName, command)] *)
Definition setCommand (command : SlashCommand) (m : JSMap.t SlashCommand)
    : JSMap.t SlashCommand :=
  let m1 := JSMap.set (name command) command m in
  if truthy (altName command) then JSMap.set (altName command) command m1
  else m1.

(** The loop of [loadCommandsFromDirectory] over the entries, from the
    local array [commands] and the state of the loader. An exception
    leaves the loop with what was accumulated. *)
Fixpoint loadEntries (self : CustomCommandLoader) (fs : FileSystem)
    (dirPath : jsstring) (scope : CommandScope) (entries : list Dirent)
    (acc : list SlashCommand) (st : LoadState)
    : option Exception * list SlashCommand * LoadState :=
  match entries with
  | [] => (None, acc, st)
  | entry :: rest =>
      if negb (dirent_isFile entry)
      then loadEntries self fs dirPath scope rest acc st
      else
        let filePath := path_join [dirPath; dirent_name entry] in
        let run := loadCommandFromFile self fs filePath scope in
        let st1 := record_events (Eff.events run) st in
        match Eff.result run with
        | Throw e => (Some e, acc, st1)
        | Ok None => loadEntries self fs dirPath scope rest acc st1
        | Ok (Some command) =>
            loadEntries self fs dirPath scope rest (acc ++ [command])
              (with_commands (setCommand command (commands st1)) st1)
        end
  end.

(** [loadCommandsFromDirectory]: the whole body is a [try] whose handler
    logs; the local array is returned in both cases. *)
Definition loadCommandsFromDirectory (self : CustomCommandLoader)
    (fs : FileSystem) (dirConfig : CommandDirectoryConfig) (st : LoadState)
    : Result (list SlashCommand) * LoadState :=
  let dirPath := dir_path dirConfig in
  let scope := dir_scope dirConfig in
  let ex := directoryExists fs dirPath in
  let st1 := record_events (Eff.events ex) st in
  let '(thrown, acc, st2) :=
    match Eff.result ex with
    | Throw e => (Some e, [], st1)
    | Ok false =>
        (None, [],
         record_events
           (Eff.events (Eff.when (debugMode self)
                          (Eff.log LDebug (MsgDirectoryMissing dirPath))))
           st1)
    | Ok true =>
        let rd := Eff.await (fs_readdir fs dirPath) in
        let st2 := record_events (Eff.events rd) st1 in
        match Eff.result rd with
        | Throw e => (Some e, [], st2)
        | Ok entries => loadEntries self fs dirPath scope entries [] st2
        end
    end in
  match thrown with
  | Some e =>
      (Ok acc, record_event st2 (Console LError (MsgErrorDirectory dirPath e)))
  | None => (Ok acc, st2)
  end.

(** The loop of [loadCustomCommands] over the configured directories. *)
Fixpoint loadDirectories (self : CustomCommandLoader) (fs : FileSystem)
    (dirs : list CommandDirectoryConfig) (loadedCommands : list SlashCommand)
    (st : LoadState) : list SlashCommand * LoadState :=
  match dirs with
  | [] => (loadedCommands, st)
  | dirConfig :: rest =>
      if negb (dir_enabled dirConfig)
      then loadDirectories self fs rest loadedCommands st
      else
        match loadCommandsFromDirectory self fs dirConfig st with
        | (Ok cmds, st1) =>
            loadDirectories self fs rest (loadedCommands ++ cmds) st1
        | (Throw e, st1) =>
            loadDirectories self fs rest loadedCommands
              (record_event st1
                 (Console LWarn (MsgFailedDirectory (dir_path dirConfig) e)))
        end
  end.

(** [loadCustomCommands] *)
Definition loadCustomCommands (self : CustomCommandLoader) (fs : FileSystem)
    (st : LoadState) : Result (list SlashCommand) * LoadState :=
  let st0 := with_commands (JSMap.empty SlashCommand) st in
  let '(loadedCommands, st1) := loadDirectories self fs (directories self) [] st0 in
  (Ok loadedCommands, st1).

(** The constructor with [setupDirectories]. *)
Definition new_CustomCommandLoader (config : option Config)
    (projectRoot : option jsstring) : CustomCommandLoader :=
  let root := match projectRoot with Some r => r | None => process_cwd end in
  {| debugMode := match config with Some c => getDebugMode c | None => false end;
     projectRoot := root;
     directories :=
       [ {| dir_path := path_join [root; js ".gemini"; js "commands"];
            dir_scope := project; dir_enabled := true |};
         {| dir_path := path_join [os_homedir; js ".gemini"; js "commands"];
            dir_scope := personal; dir_enabled := true |} ] |}.

Definition getAllCommands (st : LoadState) : list SlashCommand :=
  JSMap.values (commands st).

(** [getCommandsByScope] and [getCommandsByCategory] *)
Definition getCommandsByScope (st : LoadState) (scope : CommandScope)
    : list SlashCommand :=
  filter (fun cmd =>
            strict_equals_string (optional_prop (metadata cmd) (js "scope"))
              (scope_name scope))
    (getAllCommands st).
Definition getCommandsByCategory (st : LoadState) (category : jsstring)
    : list SlashCommand :=
  filter (fun cmd =>
            strict_equals_string (optional_prop (metadata cmd) (js "category"))
              category)
    (getAllCommands st).

(** ** CommandService *)

Record CommandService : Type := {
  service_commands : list SlashCommand;
  customCommandLoader : option CustomCommandLoader;
  service_config : option Config
}.

(** The constructor. *)
Definition new_CommandService (config : option Config)
    (projectRoot : option jsstring) : CommandService :=
  {| service_commands := [];
     customCommandLoader :=
       match config with
       | Some _ => Some (new_CustomCommandLoader config projectRoot)
       | None => None
       end;
     service_config := config |}.

(** The local [commandMap] of [loadCommands]: the built-in commands are
    set first, then the custom ones. *)
Definition buildCommandMap (builtInCommands customCommands : list SlashCommand)
    : JSMap.t SlashCommand :=
  fold_left (fun m c => setCommand c m) customCommands
    (fold_left (fun m c => setCommand c m) builtInCommands
       (JSMap.empty SlashCommand)).

(** [CommandService.loadCommands]. [commandLoader] is the outcome of the
    call that loads the built-in commands. An exception of that call
    leaves the service as it was. *)
Definition loadCommands (service : CommandService)
    (commandLoader : Result (list SlashCommand)) (fs : FileSystem)
    (st : LoadState) : Result unit * CommandService * LoadState :=
  match commandLoader with
  | Throw e => (Throw e, service, st)
  | Ok builtInCommands =>
      let '(customCommands, st1) :=
        match customCommandLoader service with
        | None => ([], st)
        | Some loader =>
            match loadCustomCommands loader fs st with
            | (Ok cmds, st') =>
                (cmds,
                 record_events
                   (Eff.events
                      (Eff.when
                         (match service_config service with
                          | Some c => getDebugMode c
                          | None => false
                          end)
                         (Eff.log LDebug (MsgCustomLoaded (length cmds)))))
                   st')
            | (Throw e, st') =>
                ([], record_event st' (Console LError (MsgCustomLoadFailed e)))
            end
        end in
      let commandMap := buildCommandMap builtInCommands customCommands in
      (Ok tt,
       {| service_commands := JSMap.values commandMap;
          customCommandLoader := customCommandLoader service;
          service_config := service_config service |},
       st1)
  end.

(** [getCommands], [getCustomCommandLoader] and [reloadCommands] *)
Definition getCommands (service : CommandService) : list SlashCommand :=
  service_commands service.
Definition getCustomCommandLoader (service : CommandService)
    : option CustomCommandLoader :=
  customCommandLoader service.
Definition reloadCommands (service : CommandService)
    (commandLoader : Result (list SlashCommand)) (fs : FileSystem)
    (st : LoadState) : Result unit * CommandService * LoadState :=
  loadCommands service commandLoader fs st.

(** [CommandService.getCommandsByScope]: a command without a scope counts
    as built-in. *)
Definition service_getCommandsByScope (service : CommandService)
    (scope : CommandScope) : list SlashCommand :=
  filter (fun cmd =>
            let cmdScope := js_or (optional_prop (metadata cmd) (js "scope"))
                                  (JStr (js "builtin")) in
            strict_equals_string cmdScope (scope_name scope))
    (service_commands service).

(** [CommandService.getCommandsByCategory] *)
Definition service_getCommandsByCategory (service : CommandService)
    (category : jsstring) : list SlashCommand :=
  filter (fun cmd =>
            strict_equals_string (optional_prop (metadata cmd) (js "category"))
              category)
    (service_commands service).

(** ** Hot reload *)

Inductive WatchEventType : Type := ev_rename | ev_change.

(** The loader with its watchers and the timers of the event loop.
    [timers] holds the pending [setTimeout] callbacks, each with its
    handle and the time from which it may run; [reloads] records the times
    at which the debounce callback ran. *)
Record Runtime : Type := {
  load : LoadState;
  watchers : list nat;
  isWatching : bool;
  reloadTimer : option nat;
  timers : list (nat * Z);
  next_timer : nat;
  clock : Z;
  reloads : list Z
}.

Definition with_load (st : LoadState) (rt : Runtime) : Runtime :=
  {| load := st; watchers := watchers rt; isWatching := isWatching rt;
     reloadTimer := reloadTimer rt; timers := timers rt;
     next_timer := next_timer rt; clock := clock rt; reloads := reloads rt |}.

Definition at_time (t : Z) (rt : Runtime) : Runtime :=
  {| load := load rt; watchers := watchers rt; isWatching := isWatching rt;
     reloadTimer := reloadTimer rt; timers := timers rt;
     next_timer := next_timer rt; clock := t; reloads := reloads rt |}.

(** [clearTimeout(h)]: nothing happens for a timer that already ran. *)
Definition clearTimeout (h : nat) (ts : list (nat * Z)) : list (nat * Z) :=
  filter (fun t => negb (Nat.eqb (fst t) h)) ts.

Definition debounce_delay : Z := 500.

(** [scheduleReload] *)
Definition scheduleReload (rt : Runtime) : Runtime :=
  let ts := match reloadTimer rt with
            | Some h => clearTimeout h (timers rt)
            | None => timers rt
            end in
  {| load := load rt; watchers := watchers rt; isWatching := isWatching rt;
     reloadTimer := Some (next_timer rt);
     timers := ts ++ [(next_timer rt, clock rt + debounce_delay)%Z];
     next_timer := S (next_timer rt); clock := clock rt; reloads := reloads rt |}.

(** The listener that [startWatching] gives to [watch]. *)
Definition onWatchEvent (self : CustomCommandLoader) (eventType : WatchEventType)
    (filename : JSValue) (rt : Runtime) : Runtime :=
  match eventType with
  | ev_change =>
      if truthy filename then
        scheduleReload
          (with_load
             (record_events
                (Eff.events (Eff.when (debugMode self)
                               (Eff.log LDebug (MsgFileChanged filename))))
                (load rt))
             rt)
      else rt
  | ev_rename => rt
  end.

(** The callback that [scheduleReload] gives to [setTimeout], run at time
    [t] for the timer [h]. *)
Definition reloadCallback (self : CustomCommandLoader) (fs : FileSystem)
    (t : Z) (h : nat) (rt : Runtime) : Runtime :=
  let '(r, st1) := loadCustomCommands self fs (load rt) in
  let st2 :=
    match r with
    | Ok _ =>
        record_events
          (Eff.events (Eff.when (debugMode self) (Eff.log LDebug MsgReloaded)))
          st1
    | Throw e => record_event st1 (Console LError (MsgReloadFailed e))
    end in
  {| load := st2; watchers := watchers rt; isWatching := isWatching rt;
     reloadTimer := reloadTimer rt; timers := clearTimeout h (timers rt);
     next_timer := next_timer rt; clock := t; reloads := reloads rt ++ [t] |}.

(** The loop of [startWatching] over the configured directories. *)
Fixpoint watchDirectories (fs : FileSystem) (dirs : list CommandDirectoryConfig)
    (ws : list nat) (st : LoadState) : list nat * LoadState :=
  match dirs with
  | [] => (ws, st)
  | dirConfig :: rest =>
      if negb (dir_enabled dirConfig) then watchDirectories fs rest ws st
      else
        let ex := directoryExists fs (dir_path dirConfig) in
        let st1 := record_events (Eff.events ex) st in
        match Eff.result ex with
        | Throw e =>
            watchDirectories fs rest ws
              (record_event st1
                 (Console LWarn (MsgWatchFailed (dir_path dirConfig) e)))
        | Ok false => watchDirectories fs rest ws st1
        | Ok true =>
            match fs_watch fs (dir_path dirConfig) with
            | Ok w => watchDirectories fs rest (ws ++ [w]) st1
            | Throw e =>
                watchDirectories fs rest ws
                  (record_event st1
                     (Console LWarn (MsgWatchFailed (dir_path dirConfig) e)))
            end
        end
  end.

(** [startWatching] *)
Definition startWatching (self : CustomCommandLoader) (fs : FileSystem)
    (rt : Runtime) : Runtime :=
  if isWatching rt then rt
  else
    let '(ws, st) := watchDirectories fs (directories self) (watchers rt) (load rt) in
    {| load := st; watchers := ws; isWatching := true;
       reloadTimer := reloadTimer rt; timers := timers rt;
       next_timer := next_timer rt; clock := clock rt; reloads := reloads rt |}.

(** [stopWatching] *)
Definition stopWatching (rt : Runtime) : Runtime :=
  {| load := load rt; watchers := []; isWatching := false;
     reloadTimer := None;
     timers := match reloadTimer rt with
               | Some h => clearTimeout h (timers rt)
               | None => timers rt
               end;
     next_timer := next_timer rt; clock := clock rt; reloads := reloads rt |}.

(** [dispose] *)
Definition dispose (rt : Runtime) : Runtime :=
  let rt1 := stopWatching rt in
  with_load (with_commands (JSMap.empty SlashCommand) (load rt1)) rt1.

(** [CommandService.startWatching], [stopWatching] and [dispose], on the
    runtime of the custom command loader; a service without a loader has
    nothing to do. *)
Definition service_startWatching (service : CommandService) (fs : FileSystem)
    (rt : Runtime) : Runtime :=
  match customCommandLoader service with
  | Some loader => startWatching loader fs rt
  | None => rt
  end.
Definition service_stopWatching (service : CommandService) (rt : Runtime)
    : Runtime :=
  match customCommandLoader service with
  | Some _ => stopWatching rt
  | None => rt
  end.
Definition service_dispose (service : CommandService) (rt : Runtime) : Runtime :=
  let rt1 := service_stopWatching service rt in
  match customCommandLoader service with
  | Some _ => dispose rt1
  | None => rt1
  end.

(** What the event loop may do next: deliver a notification of one of the
    open watchers, or run a timer that is due. Time never goes back. *)
Inductive Label : Type :=
| Notify (t : Z) (watcher : nat) (eventType : WatchEventType) (filename : JSValue)
| Fire (t : Z) (h : nat) (fs : FileSystem).

Inductive step (self : CustomCommandLoader) : Runtime -> Label -> Runtime -> Prop :=
| step_notify : forall rt t w eventType filename,
    (clock rt <= t)%Z ->
    In w (watchers rt) ->
    step self rt (Notify t w eventType filename)
      (onWatchEvent self eventType filename (at_time t rt))
| step_fire : forall rt t h due fs,
    (clock rt <= t)%Z ->
    In (h, due) (timers rt) ->
    (due <= t)%Z ->
    step self rt (Fire t h fs) (reloadCallback self fs t h rt).

Inductive run (self : CustomCommandLoader) : Runtime -> list Label -> Runtime -> Prop :=
| run_nil : forall rt, run self rt [] rt
| run_cons : forall rt l rt1 ls rt2,
    step self rt l rt1 -> run self rt1 ls rt2 -> run self rt (l :: ls) rt2.
End Loader.

(* ===================================================================== *)
(** * Vocabulary of the properties *)
(* ===================================================================== *)

(** [k] is a key under which [setCommand] stores [c]: its name, or its
    [altName] when that is truthy. *)
Definition has_key (k : JSValue) (c : SlashCommand) : bool :=
  same_value_zero k (name c)
  || (truthy (altName c) && same_value_zero k (altName c)).

(** The record inserted last, among those of [cs] stored under [k]. *)
Definition last_with_key (k : JSValue) (cs : list SlashCommand) : option SlashCommand :=
  find (has_key k) (rev cs).

(** Personal overrides project overrides built-in. *)
Definition override_resolution (k : JSValue)
    (builtIn projectScope personalScope : list SlashCommand) : option SlashCommand :=
  match last_with_key k personalScope with
  | Some c => Some c
  | None =>
      match last_with_key k projectScope with
      | Some c => Some c
      | None => last_with_key k builtIn
      end
  end.

(** The registry after the records [cs] were set in that order. *)
Definition registry_of (cs : list SlashCommand) : JSMap.t SlashCommand :=
  fold_left (fun m c => setCommand c m) cs (JSMap.empty SlashCommand).

(** No two entries of a map have the same key. *)
Fixpoint keys_distinct (V : Type) (m : JSMap.t V) : Prop :=
  match m with
  | [] => True
  | (k, _) :: rest =>
      (forall k', In k' (JSMap.keys rest) -> same_value_zero k k' = false)
      /\ keys_distinct rest
  end.

(** A value that is compared by content when it is a key. *)
Definition is_primitive (v : JSValue) : bool :=
  match v with
  | JArr _ | JObj _ | JFun _ _ => false
  | _ => true
  end.

(** The invariant of the registry as the specification words it: every
    record that can be reached and has an [altName] is the one found under
    its name and under its [altName]. *)
Definition alias_invariant (m : JSMap.t SlashCommand) : Prop :=
  forall k c,
    JSMap.get k m = Some c ->
    truthy (altName c) = true ->
    JSMap.get (name c) m = Some c /\ JSMap.get (altName c) m = Some c.

Section Records.
Context {api : NodeApi}.

(** What one file contributes to a load cycle. *)
Definition file_record (self : CustomCommandLoader) (fs : FileSystem)
    (filePath : jsstring) (scope : CommandScope) : option SlashCommand :=
  match Eff.result (loadCommandFromFile self fs filePath scope) with
  | Ok r => r
  | Throw _ => None
  end.

Definition entry_records (self : CustomCommandLoader) (fs : FileSystem)
    (dirPath : jsstring) (scope : CommandScope) (entry : Dirent) : list SlashCommand :=
  if dirent_isFile entry then
    match file_record self fs (path_join [dirPath; dirent_name entry]) scope with
    | Some c => [c]
    | None => []
    end
  else [].

(** What one directory contributes: nothing when it is missing or cannot be
    listed, else the records of its files, in the order of the listing. *)
Definition directory_records (self : CustomCommandLoader) (fs : FileSystem)
    (dirConfig : CommandDirectoryConfig) : list SlashCommand :=
  match Eff.result (directoryExists fs (dir_path dirConfig)) with
  | Ok true =>
      match fs_readdir fs (dir_path dirConfig) with
      | Ok entries =>
          flat_map (entry_records self fs (dir_path dirConfig) (dir_scope dirConfig))
            entries
      | Throw _ => []
      end
  | _ => []
  end.

Definition cycle_records (self : CustomCommandLoader) (fs : FileSystem)
    : list SlashCommand :=
  flat_map (directory_records self fs) (filter dir_enabled (directories self)).

(** The two scope directories that the constructor configures. *)
Definition project_directory (root : jsstring) : CommandDirectoryConfig :=
  {| dir_path := path_join [root; js ".gemini"; js "commands"];
     dir_scope := project; dir_enabled := true |}.
Definition personal_directory : CommandDirectoryConfig :=
  {| dir_path := path_join [os_homedir; js ".gemini"; js "commands"];
     dir_scope := personal; dir_enabled := true |}.
(** The failures of one file that the loader meets: an I/O error, a text
    that is not JSON, a JSON value that is no object or that the validator
    rejects, a prose file without a usable name, a module that cannot be
    imported, that exports no command object or whose export the validator
    rejects. *)
Inductive load_failure (fs : FileSystem) (filePath : jsstring) : Prop :=
| json_read_error : forall e,
    getSourceFormat (toLowerCase (path_extname filePath)) = Some json ->
    fs_readFile fs filePath = Throw e ->
    load_failure fs filePath
| json_syntax_error : forall content,
    getSourceFormat (toLowerCase (path_extname filePath)) = Some json ->
    fs_readFile fs filePath = Ok content ->
    JSON_parse content = None ->
    load_failure fs filePath
| json_type_error : forall content config e,
    getSourceFormat (toLowerCase (path_extname filePath)) = Some json ->
    fs_readFile fs filePath = Ok content ->
    JSON_parse content = Some config ->
    validateSimpleCommand config = Throw e ->
    load_failure fs filePath
| json_validation_failure : forall content config errors,
    getSourceFormat (toLowerCase (path_extname filePath)) = Some json ->
    fs_readFile fs filePath = Ok content ->
    JSON_parse content = Some config ->
    validateSimpleCommand config = Ok errors ->
    errors <> [] ->
    load_failure fs filePath
| markdown_read_error : forall e,
    getSourceFormat (toLowerCase (path_extname filePath)) = Some markdown ->
    fs_readFile fs filePath = Throw e ->
    load_failure fs filePath
| markdown_without_name : forall content,
    getSourceFormat (toLowerCase (path_extname filePath)) = Some markdown ->
    fs_readFile fs filePath = Ok content ->
    sanitizeCommandName (extractTitle (split_lines content)) = [] ->
    sanitizeCommandName (path_basename filePath (path_extname filePath)) = [] ->
    load_failure fs filePath
| module_import_error : forall e,
    getSourceFormat (toLowerCase (path_extname filePath)) = Some typescript ->
    import_module fs filePath = Throw e ->
    load_failure fs filePath
| module_without_export : forall exports,
    getSourceFormat (toLowerCase (path_extname filePath)) = Some typescript ->
    import_module fs filePath = Ok exports ->
    truthy (js_or (fst exports) (snd exports))
    && is_object (js_or (fst exports) (snd exports)) = false ->
    load_failure fs filePath
| module_validation_failure : forall exports,
    getSourceFormat (toLowerCase (path_extname filePath)) = Some typescript ->
    import_module fs filePath = Ok exports ->
    (forall v, Eff.result (validateCommand (js_or (fst exports) (snd exports)))
               <> Ok (Some v)) ->
    load_failure fs filePath.

End Records.

(** ** The name sanitization as the specification words it *)

Definition is_space (c : N) : bool := N.eqb c 32.

(** Drop the non-ASCII code units; nothing left gives no name; otherwise
    lower-case, keep only [a-z], [0-9], the blanks of [blank] and the hyphen,
    turn whitespace runs into one hyphen, drop what precedes the first
    letter, collapse hyphens, trim hyphens, keep 50 characters. *)
Definition sanitize_in_words (blank : N -> bool) (name : jsstring) : jsstring :=
  let ascii := filter is_ascii name in
  if is_empty ascii then []
  else
    let lowered := toLowerCase ascii in
    let kept := filter (fun c => is_lower c || is_digit c || blank c || is_hyphen c)
                  lowered in
    let hyphenated := replace_runs is_whitespace [hyphen] kept in
    let from_letter := dropWhile (fun c => negb (is_letter c)) hyphenated in
    let collapsed := replace_runs is_hyphen [hyphen] from_letter in
    let trimmed := dropWhileEnd is_hyphen (dropWhile is_hyphen collapsed) in
    firstn 50 trimmed.

(** With the character class of the specification, [[a-z0-9 -]]. *)
Definition spec_sanitizeCommandName : jsstring -> jsstring :=
  sanitize_in_words is_space.

(** With every whitespace character kept until the runs are replaced. *)
Definition amended_sanitizeCommandName : jsstring -> jsstring :=
  sanitize_in_words is_whitespace.

(** ** The description of a prose file as the specification words it *)

Definition heading2_text (line : jsstring) : option jsstring :=
  let trimmed := trim line in
  if startsWith (js "## ") trimmed then Some (trim (substring_from 3 trimmed))
  else None.

Definition is_heading (line : jsstring) : bool := startsWith (js "#") (trim line).
Definition is_fence_line (line : jsstring) : bool := startsWith fence (trim line).

Fixpoint first_heading2 (lines : list jsstring) : option jsstring :=
  match lines with
  | [] => None
  | line :: rest =>
      match heading2_text line with
      | Some d => Some d
      | None => first_heading2 rest
      end
  end.

(** The first line with text that is no heading and stands outside the
    fenced blocks; a fence line opens or closes a block. *)
Fixpoint first_plain_line (lines : list jsstring) (inFence : bool) : jsstring :=
  match lines with
  | [] => []
  | line :: rest =>
      if is_fence_line line then first_plain_line rest (negb inFence)
      else if negb inFence && negb (is_empty (trim line)) && negb (is_heading line)
      then trim line
      else first_plain_line rest inFence
  end.

Definition spec_description (content : jsstring) : jsstring :=
  match first_heading2 (split_lines content) with
  | Some d => d
  | None => first_plain_line (split_lines content) false
  end.

(** What one line offers as a description to [scanLines]: the text of a
    second-level heading, or the line itself when it has text and starts
    neither with [#] nor with a fence. *)
Definition description_candidate (line : jsstring) : option jsstring :=
  let trimmed := trim line in
  if startsWith (js "## ") trimmed then Some (trim (substring_from 3 trimmed))
  else if Nat.ltb 0 (length trimmed) && negb (startsWith (js "#") trimmed)
          && negb (startsWith fence trimmed)
  then Some trimmed
  else None.

(** The line opens a fenced block tagged [bash], [sh] or [shell]. *)
Definition opens_shell_block (line : jsstring) : bool :=
  let trimmed := trim line in
  startsWith (fence ++ js "bash") trimmed
  || startsWith (fence ++ js "sh") trimmed
  || startsWith (fence ++ js "shell") trimmed.

(** [st'] is [st] after the records [recs] were set, in that order and one
    by one: its registry is the registry of [st] with [recs] added, and
    every registry that was observed on the way holds a prefix of [recs]. *)
Definition grows (st : LoadState) (recs : list SlashCommand) (st' : LoadState) : Prop :=
  commands st' = fold_left (fun m c => setCommand c m) recs (commands st)
  /\ exists obs,
       observed st' = observed st ++ obs
       /\ Forall (fun m => exists n,
                    m = fold_left (fun m c => setCommand c m) (firstn n recs)
                          (commands st)) obs.

(* ===================================================================== *)
(** * A sample platform, file system and loader *)
(* ===================================================================== *)

(** What follows the last occurrence of [sep] in [s]. *)
Fixpoint after_last (sep : N) (s : jsstring) : option jsstring :=
  match s with
  | [] => None
  | c :: r =>
      match after_last sep r with
      | Some x => Some x
      | None => if N.eqb c sep then Some r else None
      end
  end.

Fixpoint sample_path_join (parts : list jsstring) : jsstring :=
  match parts with
  | [] => []
  | [p] => p
  | p :: rest => p ++ [47%N] ++ sample_path_join rest
  end.

Definition sample_path_extname (p : jsstring) : jsstring :=
  match after_last 46 p with
  | Some e => 46%N :: e
  | None => []
  end.

Definition sample_path_basename (p ext : jsstring) : jsstring :=
  let b := match after_last 47 p with Some x => x | None => p end in
  if startsWith (rev ext) (rev b) then firstn (length b - length ext) b else b.

Fixpoint lookup_text (A : Type) (k : jsstring) (table : list (jsstring * A)) : option A :=
  match table with
  | [] => None
  | (k', v) :: rest => if str_eqb k k' then Some v else lookup_text k rest
  end.

(** The text of a JSON file, written with an apostrophe for each double
    quote. *)
Definition json_text (s : string) : jsstring :=
  map (fun c => if N.eqb c 39 then 34%N else c) (js s).

Definition build_json_text : jsstring :=
  json_text "{'name': 'build', 'altName': 'b', 'command': 'npm run build'}".
Definition build_json_value : JSValue :=
  JObj [ (js "name", JStr (js "build"));
         (js "altName", JStr (js "b"));
         (js "command", JStr (js "npm run build")) ].

Definition b_json_text : jsstring :=
  json_text "{'name': 'b', 'description': 'mine'}".
Definition b_json_value : JSValue :=
  JObj [ (js "name", JStr (js "b")); (js "description", JStr (js "mine")) ].

Definition broken_json_text : jsstring := json_text "{'name': ".

(** [JSON.parse] on the texts of the sample files; the text of
    [broken.json] is not JSON. *)
Definition sample_JSON_parse (text : jsstring) : option JSValue :=
  lookup_text text
    [ (build_json_text, build_json_value); (b_json_text, b_json_value) ].

Definition sample_api : NodeApi :=
  {| path_join := sample_path_join;
     path_extname := sample_path_extname;
     path_basename := sample_path_basename;
     JSON_parse := sample_JSON_parse;
     os_homedir := js "/home/u";
     process_cwd := js "/work" |}.

Definition enoent : Exception := OtherError (js "ENOENT").

(** A file system given by the listing of its directories and the text of
    its files; no module can be imported. *)
Definition table_fs (dirs : list (jsstring * list Dirent))
    (files : list (jsstring * jsstring)) : FileSystem :=
  {| fs_stat_isDirectory := fun p =>
       match lookup_text p dirs with
       | Some _ => Ok true
       | None => match lookup_text p files with
                 | Some _ => Ok false
                 | None => Throw enoent
                 end
       end;
     fs_readdir := fun p =>
       match lookup_text p dirs with
       | Some entries => Ok entries
       | None => Throw enoent
       end;
     fs_readFile := fun p =>
       match lookup_text p files with
       | Some text => Ok text
       | None => Throw enoent
       end;
     import_module := fun _ => Throw enoent;
     fs_watch := fun _ => Ok 0 |}.

Definition file_entry (n : string) : Dirent :=
  {| dirent_name := js n; dirent_isFile := true |}.

Definition project_dir : jsstring := js "/work/.gemini/commands".
Definition personal_dir : jsstring := js "/home/u/.gemini/commands".

(** The project directory holds [build.json], a file that is not JSON and a
    file of no supported type; the personal directory holds [b.json], whose
    name is the alias of the project's command. *)
Definition sample_fs : FileSystem :=
  table_fs
    [ (project_dir, [file_entry "build.json"; file_entry "broken.json";
                     file_entry "notes.txt"]);
      (personal_dir, [file_entry "b.json"]) ]
    [ (js "/work/.gemini/commands/build.json", build_json_text);
      (js "/work/.gemini/commands/broken.json", broken_json_text);
      (js "/work/.gemini/commands/notes.txt", js "remember");
      (js "/home/u/.gemini/commands/b.json", b_json_text) ].

(** The same project directory without the file that is not JSON. *)
Definition sample_fs_without_broken : FileSystem :=
  table_fs
    [ (project_dir, [file_entry "build.json"; file_entry "notes.txt"]);
      (personal_dir, [file_entry "b.json"]) ]
    [ (js "/work/.gemini/commands/build.json", build_json_text);
      (js "/work/.gemini/commands/notes.txt", js "remember");
      (js "/home/u/.gemini/commands/b.json", b_json_text) ].

Definition sample_config : Config :=
  {| getDebugMode := false; getProjectRoot := JStr (js "/work") |}.

Definition sample_loader : CustomCommandLoader :=
  @new_CustomCommandLoader sample_api (Some sample_config) (Some (js "/work")).

Definition plain_command (n : string) : SlashCommand :=
  {| name := JStr (js n); altName := JUndefined; description := JUndefined;
     action := None; completion := JUndefined; subCommands := JUndefined;
     metadata := JUndefined |}.

(** A registry left by an earlier load. *)
Definition old_state : LoadState :=
  {| commands := [(JStr (js "old"), plain_command "old")];
     console := []; observed := [] |}.

Definition empty_state : LoadState :=
  {| commands := []; console := []; observed := [] |}.

(** The records that the sample files give. *)
Definition sample_build_record : SlashCommand :=
  {| name := JStr (js "build"); altName := JStr (js "b");
     description := JUndefined;
     action := Some (SimpleCommandAction false (JStr (js "npm run build"))
                       (JStr []) JUndefined);
     completion := JUndefined; subCommands := JUndefined;
     metadata := JObj [ (js "scope", JStr (js "project"));
                        (js "sourceFormat", JStr (js "json"));
                        (js "sourcePath", JStr (js "/work/.gemini/commands/build.json"));
                        (js "category", JUndefined);
                        (js "tags", JUndefined);
                        (js "author", JUndefined);
                        (js "version", JUndefined);
                        (js "canExecuteShell", JBool true) ] |}.

Definition sample_b_record : SlashCommand :=
  {| name := JStr (js "b"); altName := JUndefined;
     description := JStr (js "mine");
     action := None;
     completion := JUndefined; subCommands := JUndefined;
     metadata := JObj [ (js "scope", JStr (js "project"));
                        (js "sourceFormat", JStr (js "json"));
                        (js "sourcePath", JStr (js "/home/u/.gemini/commands/b.json"));
                        (js "category", JUndefined);
                        (js "tags", JUndefined);
                        (js "author", JUndefined);
                        (js "version", JUndefined);
                        (js "canExecuteShell", JBool false) ] |}.

(** The command file of the round trip of the specification. *)
Definition echo_config : JSValue :=
  JObj [ (js "name", JStr (js "hi"));
         (js "command", JStr (js "echo hi"));
         (js "args", JStr (js "{{args}}")) ].

Definition sample_context : CommandContext :=
  {| services_config := Some sample_config |}.

(** Running the action of a command, when the loader built it. *)
Definition run_action {api : NodeApi} (c : SlashCommand) (context : CommandContext)
    (userArgs : jsstring) : option (Eff.t SlashCommandActionReturn) :=
  match action c with
  | Some (SimpleCommandAction debug shellCommand args cwd) =>
      Some (simpleCommandAction debug shellCommand args cwd context userArgs)
  | Some (MarkdownShellAction shellCommand) =>
      Some (markdownShellAction shellCommand context userArgs)
  | Some (MarkdownPromptAction content) =>
      Some (markdownPromptAction content context userArgs)
  | _ => None
  end.

(** The shell request that the action of the JSON command [config] makes
    for the user argument [userArgs]. *)
Definition shell_request {api : NodeApi} (self : CustomCommandLoader)
    (config : JSValue) (context : CommandContext) (userArgs : jsstring)
    : option SlashCommandActionReturn :=
  match Eff.result (createSimpleCommand self config) with
  | Ok (Some c) =>
      match run_action c context userArgs with
      | Some run => match Eff.result run with
                    | Ok r => Some r
                    | Throw _ => None
                    end
      | None => None
      end
  | _ => None
  end.

(** JSON command files for the validator: one whose optional fields hold
    falsy values that are not strings, one with two fields of the wrong
    type and no name, one whose description is a number. *)
Definition falsy_config : JSValue :=
  JObj [ (js "name", JStr (js "x"));
         (js "version", JNum 0);
         (js "cwd", JBool false);
         (js "command", JNull) ].

Definition two_defects_config : JSValue :=
  JObj [ (js "command", JNum 5); (js "author", JBool true) ].

Definition number_description_config : JSValue :=
  JObj [ (js "name", JStr (js "x")); (js "description", JNum 5) ].

(** The text whose lines are [ls]. *)
Fixpoint text_of_lines (ls : list string) : jsstring :=
  match ls with
  | [] => []
  | [l] => js l
  | l :: rest => js l ++ [10%N] ++ text_of_lines rest
  end.

(** A prose command file whose first paragraph stands before its first
    second-level heading, and one whose only text besides the title is a
    shell block. *)
Definition database_reset_md : jsstring :=
  text_of_lines
    [ "# Database Reset";
      EmptyString;
      "Reset the development database and run migrations.";
      EmptyString;
      "## Usage";
      "- /db-reset - Reset with sample data" ]%string.

Definition build_md : jsstring :=
  text_of_lines [ "# Build"; "```bash"; "npm run build"; "```" ]%string.

(** ** The debounce of the watcher *)

(** The times of the notifications of kind [change], with or without a file
    name. *)
Fixpoint change_times (ls : list Label) : list Z :=
  match ls with
  | [] => []
  | Notify t _ ev_change _ :: rest => t :: change_times rest
  | _ :: rest => change_times rest
  end.

(** [ls] is a burst: its notifications are of kind [change] and name a
    file, and each comes less than the delay after the one before, [last]
    being the time of the notification that preceded [ls]; timer callbacks
    may run in between. *)
Fixpoint burst (last : option Z) (ls : list Label) : Prop :=
  match ls with
  | [] => True
  | Fire _ _ _ :: rest => burst last rest
  | Notify t _ eventType filename :: rest =>
      eventType = ev_change
      /\ truthy filename = true
      /\ match last with
         | Some t0 => (t - t0 < debounce_delay)%Z
         | None => True
         end
      /\ burst (Some t) rest
  end.

Fixpoint last_notification (last : option Z) (ls : list Label) : option Z :=
  match ls with
  | [] => last
  | Fire _ _ _ :: rest => last_notification last rest
  | Notify t _ _ _ :: rest => last_notification (Some t) rest
  end.

(** After the notification of time [t]: the one debounce timer is pending
    and due one delay after [t], and nothing was reloaded. *)
Definition armed (t : Z) (rt : Runtime) : Prop :=
  exists h,
    reloads rt = []
    /\ timers rt = [(h, t + debounce_delay)%Z]
    /\ reloadTimer rt = Some h
    /\ (t <= clock rt)%Z.

(** One reload ran, no earlier than one delay after [t], and no timer is
    pending. *)
Definition reloaded_once (t : Z) (rt : Runtime) : Prop :=
  exists r,
    reloads rt = [r]
    /\ (t + debounce_delay <= r)%Z
    /\ timers rt = []
    /\ (r <= clock rt)%Z.

Definition idle (rt : Runtime) : Prop := reloads rt = [] /\ timers rt = [].

Definition phase (last : option Z) (rt : Runtime) : Prop :=
  match last with
  | None => idle rt
  | Some t => armed t rt \/ reloaded_once t rt
  end.

Definition initial_runtime : Runtime :=
  {| load := empty_state; watchers := []; isWatching := false;
     reloadTimer := None; timers := []; next_timer := 0; clock := 0;
     reloads := [] |}.

Definition watching_runtime : Runtime :=
  startWatching sample_loader sample_fs initial_runtime.

(** Two changes of [build.json], 100 apart, then the timer. *)
Definition sample_burst : list Label :=
  [ Notify 0 0 ev_change (JStr (js "build.json"));
    Notify 100 0 ev_change (JStr (js "build.json"));
    Fire 650 1 sample_fs ].

Definition after_sample_burst : Runtime :=
  @reloadCallback sample_api sample_loader sample_fs 650 1
    (onWatchEvent sample_loader ev_change (JStr (js "build.json"))
       (at_time 100
          (onWatchEvent sample_loader ev_change (JStr (js "build.json"))
             (at_time 0 watching_runtime)))).

(** A change of [build.json], then a change notification without a file
    name 100 later, then the timer. *)
Definition unnamed_burst : list Label :=
  [ Notify 0 0 ev_change (JStr (js "build.json"));
    Notify 100 0 ev_change JNull;
    Fire 500 0 sample_fs ].

Definition after_unnamed_burst : Runtime :=
  @reloadCallback sample_api sample_loader sample_fs 500 0
    (onWatchEvent sample_loader ev_change JNull
       (at_time 100
          (onWatchEvent sample_loader ev_change (JStr (js "build.json"))
             (at_time 0 watching_runtime)))).

(** Prose command files: [build.md] with a shell block; [deploy.md] whose
    title has no ASCII character; a file whose title and base name both
    have none. *)
Definition cjk_word : jsstring := [27169; 22359]%N.

Definition deploy_md : jsstring := js "# " ++ cjk_word ++ [10%N] ++ js "Ship it".

Definition prose_fs : FileSystem :=
  table_fs
    [ (project_dir, [file_entry "build.md"; file_entry "deploy.md";
                     {| dirent_name := cjk_word ++ js ".md"; dirent_isFile := true |}]) ]
    [ (js "/work/.gemini/commands/build.md", build_md);
      (js "/work/.gemini/commands/deploy.md", deploy_md);
      (js "/work/.gemini/commands/" ++ cjk_word ++ js ".md", js "# " ++ cjk_word) ].

(** The characters of a command name, and a string that is empty or starts
    with a letter. *)
Definition name_char (c : N) : bool := is_letter c || is_digit c || is_hyphen c.

Definition starts_with_letter (s : jsstring) : Prop :=
  match s with
  | [] => True
  | c :: _ => is_letter c = true
  end.


(** ** Names in kebab case *)

Definition is_kebab_char (c : N) : bool := is_lower c || is_digit c || is_hyphen c.

(** No hyphen follows a hyphen. *)
Fixpoint no_double_hyphen (s : jsstring) : bool :=
  match s with
  | a :: r =>
      match r with
      | b :: _ => negb (is_hyphen a && is_hyphen b)
      | [] => true
      end && no_double_hyphen r
  | [] => true
  end.

Definition ends_with_hyphen (s : jsstring) : bool :=
  match rev s with
  | c :: _ => is_hyphen c
  | [] => false
  end.

(** Lower-case letters, digits and single hyphens, after a first letter. *)
Definition is_kebab (s : jsstring) : bool :=
  match s with
  | c :: _ => is_lower c
  | [] => false
  end
  && forallb is_kebab_char s
  && no_double_hyphen s.

(** The record of a prose file, with the metadata that
    [loadMarkdownCommand] writes. *)
Definition prose_record (n d : string) (a : ActionFn) (shell : bool) : SlashCommand :=
  {| name := JStr (js n); altName := JUndefined; description := JStr (js d);
     action := Some a; completion := JUndefined; subCommands := JUndefined;
     metadata :=
       JObj ([ (js "scope", JStr (js "personal"));
               (js "sourceFormat", JStr (js "markdown"));
               (js "category", JStr (js "markdown"));
               (js "tags", JArr [JStr (js "markdown"); JStr (js "custom")]) ]
             ++ if shell then [(js "canExecuteShell", JBool true)] else []) |}.

Definition build_md_record : SlashCommand :=
  prose_record "build" "npm run build" (MarkdownShellAction (js "npm run build")) true.

Definition deploy_md_record : SlashCommand :=
  prose_record "deploy" "Ship it" (MarkdownPromptAction deploy_md) false.

(** A module that exports a command with an action, an alias and one
    sub-command, and no metadata; and a file system in which it can be
    imported from the personal directory. *)
Definition deploy_export : JSValue :=
  JObj [ (js "name", JStr (js "deploy"));
         (js "altName", JStr (js "d"));
         (js "description", JStr (js "Deploy the project"));
         (js "action", JFun (js "action") 2);
         (js "subCommands",
          JArr [ JObj [ (js "name", JStr (js "status"));
                        (js "action", JFun (js "status") 2) ] ]) ].

Definition module_fs : FileSystem :=
  {| fs_stat_isDirectory := fun p => Ok (str_eqb p personal_dir);
     fs_readdir := fun p =>
       if str_eqb p personal_dir then Ok [file_entry "deploy.ts"]
       else Throw enoent;
     fs_readFile := fun _ => Throw enoent;
     import_module := fun p =>
       if str_eqb p (js "/home/u/.gemini/commands/deploy.ts")
       then Ok (deploy_export, JUndefined)
       else Throw enoent;
     fs_watch := fun _ => Ok 0 |}.

Definition deploy_record : SlashCommand :=
  {| name := JStr (js "deploy"); altName := JStr (js "d");
     description := JStr (js "Deploy the project");
     action := Some (ExportedAction (JFun (js "action") 2));
     completion := JUndefined;
     subCommands := JArr [ JObj [ (js "name", JStr (js "status"));
                                  (js "action", JFun (js "status") 2) ] ];
     metadata := JObj [ (js "scope", JStr (js "personal"));
                        (js "sourceFormat", JStr (js "typescript"));
                        (js "sourcePath",
                         JStr (js "/home/u/.gemini/commands/deploy.ts")) ] |}.

(** The records of the actions above: the metadata that
    [createSimpleCommand] writes for a file that gives no category, tags,
    author or version. *)
Definition simple_metadata (shell : bool) : JSValue :=
  JObj [ (js "scope", JStr (js "project"));
         (js "sourceFormat", JStr (js "json"));
         (js "category", JUndefined);
         (js "tags", JUndefined);
         (js "author", JUndefined);
         (js "version", JUndefined);
         (js "canExecuteShell", JBool shell) ].

(** A JSON command whose argument template is [null]. *)
Definition null_args_config : JSValue :=
  JObj [ (js "name", JStr (js "x"));
         (js "command", JStr (js "echo"));
         (js "args", JNull) ].

Definition null_args_record : SlashCommand :=
  {| name := JStr (js "x"); altName := JUndefined; description := JUndefined;
     action := Some (SimpleCommandAction false (JStr (js "echo")) JNull JUndefined);
     completion := JUndefined; subCommands := JUndefined;
     metadata := simple_metadata true |}.

(** The watcher that [startWatching] opens for a directory: none when the
    directory does not exist or cannot be watched. *)
Definition watch_handles (fs : FileSystem) (d : CommandDirectoryConfig) : list nat :=
  match Eff.result (directoryExists fs (dir_path d)) with
  | Ok true =>
      match fs_watch fs (dir_path d) with
      | Ok w => [w]
      | Throw _ => []
      end
  | _ => []
  end.

(** The notifications that the listener of [startWatching] lets pass
    without scheduling a reload: those of kind [rename], which report that a
    file was created, removed or renamed, and those without a file name. *)
Definition is_ignored (l : Label) : bool :=
  match l with
  | Notify _ _ ev_rename _ => true
  | Notify _ _ ev_change filename => negb (truthy filename)
  | Fire _ _ _ => false
  end.

(** A file system with the project directory only. *)
Definition project_only_fs : FileSystem :=
  table_fs
    [ (project_dir, [file_entry "build.json"]) ]
    [ (js "/work/.gemini/commands/build.json", build_json_text) ].

(** A command service that lists a built-in command, the project's [build]
    and the module's [deploy]. *)
Definition listing_service : CommandService :=
  {| service_commands := [plain_command "help"; sample_build_record; deploy_record];
     customCommandLoader := Some sample_loader;
     service_config := Some sample_config |}.

(** Two files are created in the project directory. *)
Definition creations : list Label :=
  [ Notify 0 0 ev_rename (JStr (js "new.json"));
    Notify 10 0 ev_rename (JStr (js "other.md")) ].

(** The time of the last notification of [ls] that reports a change and
    names a file, [last] being that of the notifications before [ls]. *)
Fixpoint last_named_change (last : option Z) (ls : list Label) : option Z :=
  match ls with
  | [] => last
  | Notify t _ ev_change filename :: rest =>
      if truthy filename then last_named_change (Some t) rest
      else last_named_change last rest
  | _ :: rest => last_named_change last rest
  end.

(** No timer is pending, or the one debounce timer is, due one delay after
    the last change that named a file. *)
Definition pending (last : option Z) (rt : Runtime) : Prop :=
  timers rt = []
  \/ exists h t,
       last = Some t
       /\ timers rt = [(h, (t + debounce_delay)%Z)]
       /\ reloadTimer rt = Some h.

(** A warning or an error on the console. *)
Definition reported (evs : list Event) : Prop :=
  exists msg, In (Console LError msg) evs \/ In (Console LWarn msg) evs.

(* ===================================================================== *)
(** * Properties *)
(* ===================================================================== *)

(** ** Strings, values and maps *)

Example js_literal : js "a-b" = [97; 45; 98]%N.
Proof. reflexivity. Qed.

Example trim_sample : trim (js "  # Build ") = js "# Build".
Proof. reflexivity. Qed.

Example split_sample :
  split_lines (js "a" ++ [10%N] ++ js "b") = [js "a"; js "b"].
Proof. reflexivity. Qed.

Example replace_first_sample :
  replace_first (js "{{args}}") (js "world") (js "x {{args}} {{args}}")
  = js "x world {{args}}".
Proof. reflexivity. Qed.

Example replace_first_dollar :
  replace_first (js "{{args}}") (js "a$$b$&") (js "<{{args}}>")
  = js "<a$b{{args}}>".
Proof. reflexivity. Qed.

Example replace_all_sample :
  replace_all (js "{{args}}") (js "w") (js "x {{args}} {{args}}{{args}}")
  = js "x w ww".
Proof. reflexivity. Qed.

Example Z_to_string_sample : Z_to_string (-120) = js "-120".
Proof. reflexivity. Qed.

Example ToString_array :
  ToString (JArr [JStr (js "a"); JNull; JNum 3]) = js "a,,3".
Proof. reflexivity. Qed.

Example sanitize_sample :
  sanitizeCommandName (js "  Build THE-thing!! 2 ") = js "build-the-thing-2".
Proof. reflexivity. Qed.

Example name_pattern_samples :
  name_pattern (js "test-watch") = true
  /\ name_pattern (js "123bad") = false
  /\ name_pattern (js "has space") = false
  /\ name_pattern (ToString (JBool true)) = true.
Proof. repeat split. Qed.


Lemma str_eqb_eq (a b : jsstring) : str_eqb a b = true <-> a = b.
Proof.
  revert b; induction a as [|x a IH]; intros [|y b]; simpl; split;
    try congruence; try reflexivity.
  - intros H. apply andb_true_iff in H as [Hxy Hab].
    apply N.eqb_eq in Hxy. apply IH in Hab. congruence.
  - intros H; injection H as -> ->.
    rewrite N.eqb_refl. simpl. now apply IH.
Qed.

Lemma str_eqb_refl (a : jsstring) : str_eqb a a = true.
Proof. now apply str_eqb_eq. Qed.

Lemma str_eqb_sym (a b : jsstring) : str_eqb a b = str_eqb b a.
Proof.
  destruct (str_eqb a b) eqn:E.
  - apply str_eqb_eq in E; subst. symmetry. apply str_eqb_refl.
  - destruct (str_eqb b a) eqn:E'; [|reflexivity].
    apply str_eqb_eq in E'; subst. now rewrite str_eqb_refl in E.
Qed.

Lemma same_value_zero_eq (a b : JSValue) : same_value_zero a b = true -> a = b.
Proof.
  destruct a, b; simpl; try discriminate; try reflexivity; intros H.
  - apply Bool.eqb_prop in H. now subst.
  - apply Z.eqb_eq in H. now subst.
  - apply str_eqb_eq in H. now subst.
Qed.

Lemma same_value_zero_sym (a b : JSValue) :
  same_value_zero a b = same_value_zero b a.
Proof.
  destruct a, b; simpl; try reflexivity.
  - now destruct b, b0.
  - apply Z.eqb_sym.
  - apply str_eqb_sym.
Qed.

Lemma same_value_zero_refl (a : JSValue) :
  is_primitive a = true -> same_value_zero a a = true.
Proof.
  destruct a; simpl; try discriminate; try reflexivity; intros _.
  - now destruct b.
  - apply Z.eqb_refl.
  - apply str_eqb_refl.
Qed.

(** A key that differs from the key just set sees the map as it was. *)
Lemma get_set (V : Type) (k k' : JSValue) (v : V) (m : JSMap.t V) :
  JSMap.get k (JSMap.set k' v m)
  = if same_value_zero k k' then Some v else JSMap.get k m.
Proof.
  induction m as [|[k'' v''] m IH]; simpl.
  - reflexivity.
  - destruct (same_value_zero k' k'') eqn:E; simpl.
    + apply same_value_zero_eq in E; subst k''.
      now destruct (same_value_zero k k').
    + rewrite IH.
      destruct (same_value_zero k k'') eqn:E2; [|reflexivity].
      apply same_value_zero_eq in E2; subst k''.
      rewrite same_value_zero_sym in E. now rewrite E.
Qed.

Lemma keys_set (V : Type) (k k0 : JSValue) (v : V) (m : JSMap.t V) :
  In k0 (JSMap.keys (JSMap.set k v m)) -> k0 = k \/ In k0 (JSMap.keys m).
Proof.
  induction m as [|[k' v'] m IH]; simpl.
  - intros [H|[]]; auto.
  - destruct (same_value_zero k k'); simpl.
    + intros [H|H]; auto.
    + intros [H|H]; auto. destruct (IH H); auto.
Qed.

Lemma keys_distinct_set (V : Type) (k : JSValue) (v : V) (m : JSMap.t V) :
  keys_distinct m -> keys_distinct (JSMap.set k v m).
Proof.
  induction m as [|[k' v'] m IH]; simpl.
  - intros _. split; [intros ? []|exact I].
  - intros [Hk' Hm]. destruct (same_value_zero k k') eqn:E; simpl.
    + split; assumption.
    + split; [|now apply IH].
      intros k0 H0. apply keys_set in H0 as [->|H0].
      * now rewrite same_value_zero_sym.
      * now apply Hk'.
Qed.

Lemma get_Some_key (V : Type) (k : JSValue) (v : V) (m : JSMap.t V) :
  JSMap.get k m = Some v -> In k (JSMap.keys m).
Proof.
  induction m as [|[k' v'] m IH]; simpl; [discriminate|].
  destruct (same_value_zero k k') eqn:E.
  - intros _. left. symmetry. now apply same_value_zero_eq.
  - intros H. right. now apply IH.
Qed.

(** ** The registry *)

Lemma get_setCommand (k : JSValue) (c : SlashCommand) (m : JSMap.t SlashCommand) :
  JSMap.get k (setCommand c m) = if has_key k c then Some c else JSMap.get k m.
Proof.
  unfold setCommand, has_key.
  destruct (truthy (altName c)); simpl; rewrite ?get_set.
  - destruct (same_value_zero k (name c)), (same_value_zero k (altName c));
      reflexivity.
  - now rewrite orb_false_r.
Qed.

Lemma keys_distinct_setCommand (c : SlashCommand) (m : JSMap.t SlashCommand) :
  keys_distinct m -> keys_distinct (setCommand c m).
Proof.
  intros H. unfold setCommand.
  destruct (truthy (altName c)); auto using keys_distinct_set.
Qed.

Lemma fold_setCommand_snoc (cs : list SlashCommand) (c : SlashCommand)
    (m : JSMap.t SlashCommand) :
  fold_left (fun m c => setCommand c m) (cs ++ [c]) m
  = setCommand c (fold_left (fun m c => setCommand c m) cs m).
Proof. now rewrite fold_left_app. Qed.

(** Looking a key up after a sequence of insertions finds the last record
    stored under it, else what the map held before. *)
Lemma get_fold_setCommand (k : JSValue) (cs : list SlashCommand)
    (m : JSMap.t SlashCommand) :
  JSMap.get k (fold_left (fun m c => setCommand c m) cs m)
  = match last_with_key k cs with
    | Some c => Some c
    | None => JSMap.get k m
    end.
Proof.
  induction cs as [|c cs IH] using rev_ind; [reflexivity|].
  rewrite fold_setCommand_snoc, get_setCommand.
  unfold last_with_key in *. rewrite rev_app_distr. simpl.
  destruct (has_key k c); [reflexivity|exact IH].
Qed.

Lemma get_registry_of (k : JSValue) (cs : list SlashCommand) :
  JSMap.get k (registry_of cs) = last_with_key k cs.
Proof.
  unfold registry_of. rewrite get_fold_setCommand.
  now destruct (last_with_key k cs).
Qed.

Lemma keys_distinct_fold (cs : list SlashCommand) (m : JSMap.t SlashCommand) :
  keys_distinct m ->
  keys_distinct (fold_left (fun m c => setCommand c m) cs m).
Proof.
  revert m; induction cs as [|c cs IH]; simpl; intros m H; [assumption|].
  apply IH. now apply keys_distinct_setCommand.
Qed.

Lemma last_with_key_app (k : JSValue) (xs ys : list SlashCommand) :
  last_with_key k (xs ++ ys)
  = match last_with_key k ys with
    | Some c => Some c
    | None => last_with_key k xs
    end.
Proof.
  unfold last_with_key. rewrite rev_app_distr.
  induction (rev ys) as [|y l IH]; simpl; [reflexivity|].
  destruct (has_key k y); [reflexivity|exact IH].
Qed.

Lemma last_with_key_Some (k : JSValue) (cs : list SlashCommand) (c : SlashCommand) :
  last_with_key k cs = Some c -> In c cs /\ has_key k c = true.
Proof.
  unfold last_with_key. intros H. apply find_some in H as [Hin Hk].
  split; [now apply in_rev|assumption].
Qed.

Lemma last_with_key_None (k : JSValue) (cs : list SlashCommand) :
  (forall c, In c cs -> has_key k c = false) -> last_with_key k cs = None.
Proof.
  intros H. unfold last_with_key.
  destruct (find (has_key k) (rev cs)) eqn:E; [|reflexivity].
  apply find_some in E as [Hin Hk]. apply in_rev in Hin.
  rewrite (H _ Hin) in Hk. discriminate.
Qed.

Lemma buildCommandMap_registry_of (builtIn custom : list SlashCommand) :
  buildCommandMap builtIn custom = registry_of (builtIn ++ custom).
Proof. unfold buildCommandMap, registry_of. now rewrite fold_left_app. Qed.

(** ** Effects of loading one file *)

Lemma try_catch_total (A : Type) (body : Eff.t A) (handler : Exception -> Eff.t A) :
  (forall e, exists r, Eff.result (handler e) = Ok r) ->
  exists r, Eff.result (Eff.try_catch body handler) = Ok r.
Proof.
  intros H. destruct body as [ev [a|e]]; simpl.
  - now exists a.
  - destruct (H e) as [r Hr]. exists r.
    destruct (handler e) as [ev' r']. simpl in *. assumption.
Qed.

Lemma record_event_commands (st : LoadState) (ev : Event) :
  commands (record_event st ev) = commands st.
Proof. now destruct ev. Qed.

Lemma record_events_commands (evs : list Event) (st : LoadState) :
  commands (record_events evs st) = commands st.
Proof.
  unfold record_events. revert st.
  induction evs as [|ev evs IH]; intros st; simpl; [reflexivity|].
  now rewrite IH, record_event_commands.
Qed.

(** Logging and suspending leave the registry alone; what is observed at a
    suspension is the registry as it stands. *)
Lemma record_events_observed (evs : list Event) (st : LoadState) :
  exists n, observed (record_events evs st) = observed st ++ repeat (commands st) n.
Proof.
  unfold record_events. revert st.
  induction evs as [|ev evs IH]; intros st; simpl.
  - exists 0. simpl. now rewrite app_nil_r.
  - destruct (IH (record_event st ev)) as [n Hn]. rewrite Hn.
    rewrite record_event_commands. destruct ev; simpl.
    + now exists n.
    + exists (S n). now rewrite <- app_assoc.
Qed.

Section LoaderProperties.
Context {api : NodeApi}.
Variable self : CustomCommandLoader.
Variable fs : FileSystem.

Lemma loadJsonCommand_total (filePath : jsstring) :
  exists r, Eff.result (loadJsonCommand self fs filePath) = Ok r.
Proof.
  apply try_catch_total. intros e. exists None. now destruct e.
Qed.

Lemma loadYamlCommand_total (filePath : jsstring) :
  exists r, Eff.result (loadYamlCommand filePath) = Ok r.
Proof. apply try_catch_total. intros e. now exists None. Qed.

Lemma loadMarkdownCommand_total (filePath : jsstring) :
  exists r, Eff.result (loadMarkdownCommand fs filePath) = Ok r.
Proof. apply try_catch_total. intros e. now exists None. Qed.

Lemma loadTypeScriptCommand_total (filePath : jsstring) :
  exists r, Eff.result (loadTypeScriptCommand fs filePath) = Ok r.
Proof. apply try_catch_total. intros e. now exists None. Qed.

(** No exception leaves [loadCommandFromFile]. *)
Lemma loadCommandFromFile_total (filePath : jsstring) (scope : CommandScope) :
  exists r, Eff.result (loadCommandFromFile self fs filePath scope) = Ok r.
Proof.
  unfold loadCommandFromFile.
  destruct (getSourceFormat (toLowerCase (path_extname filePath))).
  - apply try_catch_total. intros e. now exists None.
  - exists None. now destruct (debugMode self).
Qed.

Lemma file_record_result (filePath : jsstring) (scope : CommandScope) :
  Eff.result (loadCommandFromFile self fs filePath scope)
  = Ok (file_record self fs filePath scope).
Proof.
  unfold file_record.
  destruct (loadCommandFromFile_total filePath scope) as [r Hr].
  now rewrite Hr.
Qed.

(** ** The registry during a load cycle *)

Lemma grows_events (st : LoadState) (evs : list Event) :
  grows st [] (record_events evs st).
Proof.
  split.
  - now rewrite record_events_commands.
  - destruct (record_events_observed evs st) as [n Hn].
    exists (repeat (commands st) n). split; [assumption|].
    apply Forall_forall. intros m Hm. apply repeat_spec in Hm. subst m.
    now exists 0.
Qed.

Lemma grows_event (st : LoadState) (ev : Event) :
  grows st [] (record_event st ev).
Proof. exact (grows_events st [ev]). Qed.

Lemma grows_refl (st : LoadState) : grows st [] st.
Proof. exact (grows_events st []). Qed.

Lemma grows_setCommand (st : LoadState) (c : SlashCommand) :
  grows st [c] (with_commands (setCommand c (commands st)) st).
Proof.
  split; [reflexivity|]. exists []. split; [|constructor].
  simpl. now rewrite app_nil_r.
Qed.

Lemma grows_trans (st st1 st2 : LoadState) (r1 r2 : list SlashCommand) :
  grows st r1 st1 -> grows st1 r2 st2 -> grows st (r1 ++ r2) st2.
Proof.
  intros [Hc1 (obs1 & Ho1 & Hf1)] [Hc2 (obs2 & Ho2 & Hf2)]. split.
  - now rewrite fold_left_app, <- Hc1.
  - exists (obs1 ++ obs2). split.
    + now rewrite Ho2, Ho1, app_assoc.
    + apply Forall_app. split.
      * eapply Forall_impl; [|exact Hf1]. intros m [n ->].
        exists (Nat.min n (length r1)).
        rewrite firstn_app.
        replace (Nat.min n (length r1) - length r1) with 0 by lia.
        simpl. rewrite app_nil_r.
        destruct (Nat.le_ge_cases n (length r1)) as [Hle|Hge].
        -- now rewrite Nat.min_l.
        -- rewrite Nat.min_r by assumption.
           now rewrite !firstn_all2 by lia.
      * eapply Forall_impl; [|exact Hf2]. intros m [n ->].
        exists (length r1 + n).
        now rewrite firstn_app_2, fold_left_app, <- Hc1.
Qed.

Lemma loadEntries_spec (dirPath : jsstring) (scope : CommandScope)
    (entries : list Dirent) (acc : list SlashCommand) (st : LoadState) :
  exists st',
    loadEntries self fs dirPath scope entries acc st
    = (None, acc ++ flat_map (entry_records self fs dirPath scope) entries, st')
    /\ grows st (flat_map (entry_records self fs dirPath scope) entries) st'.
Proof.
  revert acc st. induction entries as [|entry rest IH]; intros acc st; simpl.
  - exists st. rewrite app_nil_r. split; [reflexivity|apply grows_refl].
  - unfold entry_records at 1 3. destruct (dirent_isFile entry); simpl.
    + rewrite file_record_result.
      set (p := path_join [dirPath; dirent_name entry]).
      set (st1 := record_events (Eff.events (loadCommandFromFile self fs p scope)) st).
      assert (G1 : grows st [] st1) by apply grows_events.
      destruct (file_record self fs p scope) as [c|].
      * destruct (IH (acc ++ [c]) (with_commands (setCommand c (commands st1)) st1))
          as (st' & -> & G).
        exists st'. split; [now rewrite <- app_assoc|].
        change ([c] ++ flat_map (entry_records self fs dirPath scope) rest)
          with (([] ++ [c]) ++ flat_map (entry_records self fs dirPath scope) rest).
        eapply grows_trans; [|exact G].
        eapply grows_trans; [exact G1|apply grows_setCommand].
      * destruct (IH acc st1) as (st' & -> & G).
        exists st'. split; [reflexivity|].
        change (flat_map (entry_records self fs dirPath scope) rest)
          with ([] ++ flat_map (entry_records self fs dirPath scope) rest).
        eapply grows_trans; [exact G1|exact G].
    + apply IH.
Qed.

Lemma loadCommandsFromDirectory_spec (dirConfig : CommandDirectoryConfig)
    (st : LoadState) :
  exists st',
    loadCommandsFromDirectory self fs dirConfig st
    = (Ok (directory_records self fs dirConfig), st')
    /\ grows st (directory_records self fs dirConfig) st'.
Proof.
  unfold loadCommandsFromDirectory, directory_records.
  set (ex := directoryExists fs (dir_path dirConfig)).
  set (st1 := record_events (Eff.events ex) st).
  assert (G1 : grows st [] st1) by apply grows_events.
  destruct (Eff.result ex) as [[|]|e].
  - unfold Eff.await at 1 2. cbn [Eff.result Eff.events snd fst].
    set (st2 := record_events [Suspend] st1).
    assert (G2 : grows st [] st2).
    { change (@nil SlashCommand) with (@nil SlashCommand ++ []).
      eapply grows_trans; [exact G1|apply grows_events]. }
    destruct (fs_readdir fs (dir_path dirConfig)) as [entries|e].
    + destruct (loadEntries_spec (dir_path dirConfig) (dir_scope dirConfig)
                  entries [] st2) as (st' & -> & G).
      exists st'. split; [reflexivity|].
      change (flat_map (entry_records self fs (dir_path dirConfig) (dir_scope dirConfig))
                entries)
        with ([] ++ flat_map (entry_records self fs (dir_path dirConfig)
                                (dir_scope dirConfig)) entries).
      eapply grows_trans; [exact G2|exact G].
    + eexists. split; [reflexivity|].
      change (@nil SlashCommand) with (@nil SlashCommand ++ []).
      eapply grows_trans; [exact G2|apply grows_event].
  - eexists. split; [reflexivity|].
    change (@nil SlashCommand) with (@nil SlashCommand ++ []).
    eapply grows_trans; [exact G1|apply grows_events].
  - eexists. split; [reflexivity|].
    change (@nil SlashCommand) with (@nil SlashCommand ++ []).
    eapply grows_trans; [exact G1|apply grows_event].
Qed.

Lemma loadDirectories_spec (dirs : list CommandDirectoryConfig)
    (loadedCommands : list SlashCommand) (st : LoadState) :
  exists st',
    loadDirectories self fs dirs loadedCommands st
    = (loadedCommands
       ++ flat_map (directory_records self fs) (filter dir_enabled dirs), st')
    /\ grows st (flat_map (directory_records self fs) (filter dir_enabled dirs)) st'.
Proof.
  revert loadedCommands st.
  induction dirs as [|d rest IH]; intros loaded st; simpl.
  - exists st. rewrite app_nil_r. split; [reflexivity|apply grows_refl].
  - destruct (dir_enabled d); simpl; [|apply IH].
    destruct (loadCommandsFromDirectory_spec d st) as (st1 & -> & G1).
    destruct (IH (loaded ++ directory_records self fs d) st1) as (st' & -> & G).
    exists st'. split; [now rewrite <- app_assoc|].
    eapply grows_trans; [exact G1|exact G].
Qed.

(** A load cycle returns the records of its files, directory after
    directory, and leaves them in the registry, built from the empty map. *)
Lemma loadCustomCommands_spec (st : LoadState) :
  exists st',
    loadCustomCommands self fs st = (Ok (cycle_records self fs), st')
    /\ grows (with_commands (JSMap.empty SlashCommand) st) (cycle_records self fs) st'.
Proof.
  unfold loadCustomCommands, cycle_records.
  destruct (loadDirectories_spec (directories self) []
              (with_commands (JSMap.empty SlashCommand) st)) as (st' & -> & G).
  exists st'. split; [reflexivity|exact G].
Qed.
End LoaderProperties.

(** ** C1: override precedence *)

Section Registry.
Context {api : NodeApi}.

Lemma cycle_records_two_scopes (config : option Config) (root : option jsstring)
    (fs : FileSystem) :
  let self := new_CustomCommandLoader config root in
  cycle_records self fs
  = directory_records self fs
      (project_directory (match root with Some r => r | None => process_cwd end))
    ++ directory_records self fs personal_directory.
Proof.
  unfold cycle_records, new_CustomCommandLoader. simpl.
  now rewrite app_nil_r.
Qed.

(** C1. In a load cycle of [CommandService], the built-in records are set
    first, then the records of the project directory, then those of the
    personal directory; the cycle raises nothing, and the map it builds sends
    every key, name or alias alike, to the last personal record stored under
    it, else to the last project record, else to the last built-in one. *)
Theorem override_law (config : Config) (root : option jsstring)
    (builtIn : list SlashCommand) (fs : FileSystem) (st : LoadState) (k : JSValue) :
  let service := new_CommandService (Some config) root in
  let self := new_CustomCommandLoader (Some config) root in
  let projectScope :=
    directory_records self fs
      (project_directory (match root with Some r => r | None => process_cwd end)) in
  let personalScope := directory_records self fs personal_directory in
  let commandMap := buildCommandMap builtIn (projectScope ++ personalScope) in
  (exists st',
     loadCommands service (Ok builtIn) fs st
     = (Ok tt,
        {| service_commands := JSMap.values commandMap;
           customCommandLoader := Some self;
           service_config := Some config |},
        st'))
  /\ JSMap.get k commandMap
     = override_resolution k builtIn projectScope personalScope.
Proof.
  intros service self projectScope personalScope commandMap. split.
  - unfold loadCommands, service, new_CommandService. simpl.
    fold self.
    destruct (loadCustomCommands_spec self fs st) as (st1 & -> & _).
    pose proof (cycle_records_two_scopes (Some config) root fs) as H.
    cbv zeta in H. fold self in H. rewrite H.
    fold projectScope personalScope commandMap.
    eexists. reflexivity.
  - unfold commandMap, override_resolution.
    rewrite buildCommandMap_registry_of, get_registry_of.
    rewrite !last_with_key_app.
    destruct (last_with_key k personalScope); [reflexivity|].
    now destruct (last_with_key k projectScope).
Qed.
End Registry.

(** ** C2: what a reload does to the live registry *)

Section Reload.
Context {api : NodeApi}.

(** C2, amended. A reload empties the live registry and then sets each
    record in place as its file loads. It always completes; afterwards the
    registry holds exactly the records that loaded in this cycle, whatever
    it held before and whether or not some file failed; and every registry
    that a consumer can observe at a suspension point of the reload holds a
    prefix of these records, starting from the empty map. *)
Theorem reload_rebuilds_in_place (self : CustomCommandLoader) (fs : FileSystem)
    (st : LoadState) :
  exists st' obs,
    loadCustomCommands self fs st = (Ok (cycle_records self fs), st')
    /\ commands st' = registry_of (cycle_records self fs)
    /\ observed st' = observed st ++ obs
    /\ Forall (fun m => exists n, m = registry_of (firstn n (cycle_records self fs)))
         obs.
Proof.
  destruct (loadCustomCommands_spec self fs st) as (st' & E & Hc & obs & Ho & Hf).
  exists st', obs. repeat split; assumption.
Qed.
End Reload.

(** C2, counterexample. The sample project directory holds a file that is
    not JSON, so the reload logs a failure. The registry held [old] before
    and no longer holds it afterwards; at the fourth suspension point the
    alias [b] leads to the project's [build] record, which is neither what
    the old registry answered nor what the new one answers. *)
Lemma reload_not_atomic :
  let final := snd (@loadCustomCommands sample_api sample_loader sample_fs old_state) in
  console final
  = [(LError, MsgInvalidJson (js "/work/.gemini/commands/broken.json"))]
  /\ JSMap.get (JStr (js "old")) (commands old_state) = Some (plain_command "old")
  /\ JSMap.get (JStr (js "old")) (commands final) = None
  /\ JSMap.get (JStr (js "b")) (commands old_state) = None
  /\ option_map (JSMap.get (JStr (js "b"))) (nth_error (observed final) 3)
     = Some (Some sample_build_record)
  /\ JSMap.get (JStr (js "b")) (commands final) = Some sample_b_record.
Proof. vm_compute. repeat split. Qed.

(** ** C8: a file that fails is the only one to give no record *)

Section Isolation.
Context {api : NodeApi}.
Variable self : CustomCommandLoader.
Variable fs : FileSystem.

Lemma bind_result_throw (A B : Type) (m : Eff.t A) (k : A -> Eff.t B) (e : Exception) :
  Eff.result m = Throw e -> Eff.result (Eff.bind m k) = Throw e.
Proof. destruct m as [ev [a|e']]; simpl; congruence. Qed.

Lemma bind_result_ok (A B : Type) (m : Eff.t A) (k : A -> Eff.t B) (a : A) :
  Eff.result m = Ok a -> Eff.result (Eff.bind m k) = Eff.result (k a).
Proof.
  destruct m as [ev [a'|e']]; simpl; [|discriminate].
  intros H. injection H as ->. now destruct (k a).
Qed.

Lemma try_catch_result_ok (A : Type) (body : Eff.t A) (handler : Exception -> Eff.t A)
    (a : A) :
  Eff.result body = Ok a -> Eff.result (Eff.try_catch body handler) = Ok a.
Proof. destruct body as [ev [a'|e']]; simpl; congruence. Qed.

Lemma try_catch_result_throw (A : Type) (body : Eff.t A)
    (handler : Exception -> Eff.t A) (e : Exception) :
  Eff.result body = Throw e ->
  Eff.result (Eff.try_catch body handler) = Eff.result (handler e).
Proof.
  destruct body as [ev [a'|e']]; simpl; [discriminate|].
  intros H. injection H as ->. now destruct (handler e).
Qed.

(** Each of these failures makes the parser of the file return [null]. *)
Lemma load_failure_parser_null (filePath : jsstring) :
  load_failure fs filePath ->
  match getSourceFormat (toLowerCase (path_extname filePath)) with
  | Some typescript => Eff.result (loadTypeScriptCommand fs filePath) = Ok None
  | Some json => Eff.result (loadJsonCommand self fs filePath) = Ok None
  | Some yaml => True
  | Some markdown => Eff.result (loadMarkdownCommand fs filePath) = Ok None
  | None => True
  end.
Proof.
  intros F.
  destruct F as [e Hf Hr|content Hf Hr Hp|content config e Hf Hr Hp Hv
                |content config errors Hf Hr Hp Hv Hne
                |e Hf Hr|content Hf Hr Ht Hb
                |e Hf Hi|exports Hf Hi He|exports Hf Hi Hv]; rewrite Hf.
  - unfold loadJsonCommand, Eff.await. rewrite Hr. now destruct e.
  - unfold loadJsonCommand, Eff.await. rewrite Hr. simpl. now rewrite Hp.
  - unfold loadJsonCommand, Eff.await, createSimpleCommand. rewrite Hr. simpl.
    rewrite Hp. simpl. rewrite Hv. now destruct e.
  - unfold loadJsonCommand, Eff.await, createSimpleCommand. rewrite Hr. simpl.
    rewrite Hp. simpl. rewrite Hv. simpl.
    destruct errors as [|d errors]; [congruence|reflexivity].
  - unfold loadMarkdownCommand, Eff.await. now rewrite Hr.
  - unfold loadMarkdownCommand, Eff.await. rewrite Hr. simpl.
    destruct (scanLines (split_lines content) false [] []) as [d sh].
    now rewrite Ht, Hb.
  - unfold loadTypeScriptCommand, Eff.await. now rewrite Hi.
  - unfold loadTypeScriptCommand, Eff.await. rewrite Hi. simpl.
    destruct (truthy (js_or (fst exports) (snd exports))); simpl in *;
      [|reflexivity].
    now rewrite He.
  - unfold loadTypeScriptCommand.
    set (command := js_or (fst exports) (snd exports)) in *.
    set (handler := fun e : Exception => _).
    assert (Hh : forall e, Eff.result (handler e) = Ok None) by reflexivity.
    match goal with
    | |- Eff.result (Eff.try_catch ?b _) = _ => set (body := b)
    end.
    assert (Hb : Eff.result body = Ok None \/ exists e, Eff.result body = Throw e).
    { unfold body. rewrite (@bind_result_ok _ _ _ _ exports)
        by (now rewrite Hi).
      fold command.
      destruct (negb (truthy command) || negb (is_object command));
        [now left|].
      destruct (Eff.result (validateCommand command)) as [[v|]|e] eqn:Ev.
      - now destruct (Hv v).
      - left. now rewrite (bind_result_ok _ _ Ev).
      - right. exists e. now apply bind_result_throw. }
    destruct Hb as [Hb|[e Hb]].
    + now apply try_catch_result_ok.
    + rewrite (try_catch_result_throw _ _ Hb). apply Hh.
Qed.

Lemma load_failure_no_record (filePath : jsstring) (scope : CommandScope) :
  load_failure fs filePath ->
  Eff.result (loadCommandFromFile self fs filePath scope) = Ok None.
Proof.
  intros F. pose proof (load_failure_parser_null F) as H.
  assert (Hfmt : exists f, getSourceFormat (toLowerCase (path_extname filePath))
                           = Some f) by (destruct F; eauto).
  destruct Hfmt as [f Hf]. unfold loadCommandFromFile. rewrite Hf in *.
  apply try_catch_result_ok.
  destruct f.
  - now rewrite (bind_result_ok _ _ H).
  - now rewrite (bind_result_ok _ _ H).
  - reflexivity.
  - now rewrite (bind_result_ok _ _ H).
Qed.

Lemma flat_map_without (A B : Type) (f : A -> list B) (before after : list A) (x : A) :
  f x = [] -> flat_map f (before ++ x :: after) = flat_map f before ++ flat_map f after.
Proof. intros H. rewrite flat_map_app. simpl. now rewrite H. Qed.

(** C8. When a file of a scope directory fails to load, by an I/O error, a
    syntax error, a validation failure, a missing name or export, or an
    import error, its loader returns no record and raises nothing; the load cycle completes with the
    records of every configured directory; and the directory of the failed
    file contributes the records of the files listed before it and after
    it, as if the failed file was not there. *)
Theorem failure_isolation (st : LoadState) (dirConfig : CommandDirectoryConfig)
    (before after : list Dirent) (bad : Dirent) :
  Eff.result (directoryExists fs (dir_path dirConfig)) = Ok true ->
  fs_readdir fs (dir_path dirConfig) = Ok (before ++ bad :: after) ->
  load_failure fs (path_join [dir_path dirConfig; dirent_name bad]) ->
  Eff.result
    (loadCommandFromFile self fs (path_join [dir_path dirConfig; dirent_name bad])
       (dir_scope dirConfig)) = Ok None
  /\ (exists st', loadCustomCommands self fs st = (Ok (cycle_records self fs), st'))
  /\ directory_records self fs dirConfig
     = flat_map (entry_records self fs (dir_path dirConfig) (dir_scope dirConfig)) before
       ++ flat_map (entry_records self fs (dir_path dirConfig) (dir_scope dirConfig))
            after.
Proof.
  intros Hex Hrd F.
  pose proof (load_failure_no_record (dir_scope dirConfig) F) as Hnone.
  split; [exact Hnone|]. split.
  - destruct (loadCustomCommands_spec self fs st) as (st' & E & _). now exists st'.
  - unfold directory_records. rewrite Hex, Hrd.
    apply flat_map_without.
    unfold entry_records, file_record. rewrite Hnone.
    now destruct (dirent_isFile bad).
Qed.
End Isolation.

(** C8, witness: the sample project directory, whose second file is not
    JSON. *)
Lemma failure_isolation_witness :
  Eff.result
    (@loadCommandFromFile sample_api sample_loader sample_fs
       (js "/work/.gemini/commands/broken.json") project) = Ok None
  /\ (exists st',
        @loadCustomCommands sample_api sample_loader sample_fs old_state
        = (Ok (@cycle_records sample_api sample_loader sample_fs), st'))
  /\ @directory_records sample_api sample_loader sample_fs
       (@project_directory sample_api (js "/work"))
     = [sample_build_record] ++ [].
Proof.
  exact (@failure_isolation sample_api sample_loader sample_fs old_state
           (@project_directory sample_api (js "/work"))
           [file_entry "build.json"] [file_entry "notes.txt"]
           (file_entry "broken.json")
           eq_refl eq_refl
           (@json_syntax_error sample_api sample_fs
              (js "/work/.gemini/commands/broken.json") broken_json_text
              eq_refl eq_refl eq_refl)).
Defined.

(** ** C4: names and aliases in the registry *)

Lemma registry_entries (cs : list SlashCommand) (k : JSValue) (r : SlashCommand) :
  JSMap.get k (registry_of cs) = Some r -> In r cs /\ has_key k r = true.
Proof. rewrite get_registry_of. apply last_with_key_Some. Qed.

Lemma keys_distinct_registry (cs : list SlashCommand) : keys_distinct (registry_of cs).
Proof. apply keys_distinct_fold. exact I. Qed.

Lemma last_with_key_unshadowed (k : JSValue) (before after : list SlashCommand)
    (c : SlashCommand) :
  has_key k c = true ->
  (forall c', In c' after -> has_key k c' = false) ->
  last_with_key k (before ++ c :: after) = Some c.
Proof.
  intros Hk Hafter.
  change (before ++ c :: after) with (before ++ [c] ++ after).
  rewrite app_assoc, last_with_key_app, (last_with_key_None _ _ Hafter).
  rewrite last_with_key_app. unfold last_with_key at 1. simpl.
  now rewrite Hk.
Qed.

(** C4, amended. In the registry that a sequence of insertions builds, no
    key occurs twice, and the record found under a key is one of the
    inserted records and carries that key as its name or as its alias. A
    record with a name and an alias is found under both as long as no record
    inserted after it carries either of the two keys. *)
Theorem alias_resolution (before after : list SlashCommand) (c : SlashCommand) :
  is_primitive (name c) = true ->
  is_primitive (altName c) = true ->
  truthy (altName c) = true ->
  (forall c', In c' after ->
     has_key (name c) c' = false /\ has_key (altName c) c' = false) ->
  let m := registry_of (before ++ c :: after) in
  keys_distinct m
  /\ (forall k r, JSMap.get k m = Some r ->
        In r (before ++ c :: after) /\ has_key k r = true)
  /\ JSMap.get (name c) m = Some c
  /\ JSMap.get (altName c) m = Some c.
Proof.
  intros Hn Ha Ht Hafter m. subst m.
  split; [apply keys_distinct_registry|].
  split; [intros k r; apply registry_entries|].
  rewrite !get_registry_of.
  split; apply last_with_key_unshadowed.
  - unfold has_key. now rewrite (same_value_zero_refl _ Hn).
  - intros c' Hc'. now apply Hafter.
  - unfold has_key. rewrite (same_value_zero_refl _ Ha), Ht. apply orb_true_r.
  - intros c' Hc'. now apply Hafter.
Qed.

(** C4, witness: the record of [build.json] between two other records. *)
Lemma alias_resolution_witness :
  let m := registry_of ([plain_command "x"] ++ sample_build_record
                          :: [plain_command "y"]) in
  keys_distinct m
  /\ (forall k r, JSMap.get k m = Some r ->
        In r ([plain_command "x"] ++ sample_build_record :: [plain_command "y"])
        /\ has_key k r = true)
  /\ JSMap.get (JStr (js "build")) m = Some sample_build_record
  /\ JSMap.get (JStr (js "b")) m = Some sample_build_record.
Proof.
  apply (@alias_resolution [plain_command "x"] [plain_command "y"]
           sample_build_record eq_refl eq_refl eq_refl).
  intros c' [<-|[]]. split; reflexivity.
Defined.

(** C4, counterexample. After the sample load cycle the project's [build]
    record, which has the alias [b], is reached under its name; under its
    alias the registry answers the personal record named [b]. *)
Lemma alias_leads_elsewhere :
  let final := snd (@loadCustomCommands sample_api sample_loader sample_fs old_state) in
  JSMap.get (JStr (js "build")) (commands final) = Some sample_build_record
  /\ name sample_build_record = JStr (js "build")
  /\ altName sample_build_record = JStr (js "b")
  /\ JSMap.get (JStr (js "b")) (commands final) = Some sample_b_record
  /\ name sample_b_record = JStr (js "b").
Proof. vm_compute. repeat split. Qed.

Lemma sample_breaks_alias_invariant :
  ~ alias_invariant
      (commands (snd (@loadCustomCommands sample_api sample_loader sample_fs
                        old_state))).
Proof.
  intros H.
  destruct (H (JStr (js "build")) sample_build_record) as [_ Hb];
    [vm_compute; reflexivity|reflexivity|].
  vm_compute in Hb. discriminate.
Qed.

(** ** C3: the metadata stamped on a loaded record *)

Section Stamp.
Context {api : NodeApi}.

(** Whatever the scope of the directory, a record loaded from a JSON file
    says that its scope is [project]. *)
Lemma json_scope_is_project (self : CustomCommandLoader) (fs : FileSystem)
    (filePath : jsstring) (scope : CommandScope) (c : SlashCommand) :
  getSourceFormat (toLowerCase (path_extname filePath)) = Some json ->
  file_record self fs filePath scope = Some c ->
  field (metadata c) "scope" = JStr (js "project").
Proof.
  intros Hf. unfold file_record, loadCommandFromFile. rewrite Hf.
  unfold loadJsonCommand, Eff.await.
  destruct (fs_readFile fs filePath) as [content|e]; [|now destruct e].
  simpl. destruct (JSON_parse content) as [config|]; [|discriminate].
  simpl. unfold createSimpleCommand.
  destruct (validateSimpleCommand config) as [errors|e]; [|now destruct e].
  simpl. destruct errors as [|d errors]; [|discriminate].
  simpl. destruct (debugMode self); simpl; intros H; injection H as <-;
    reflexivity.
Qed.
End Stamp.

(** C3, on the code. [b.json] is loaded from the personal directory; the
    record it gives carries the path of the file, and as scope the default
    [project] that [createSimpleCommand] wrote, not [personal]. *)
Lemma personal_file_keeps_parser_scope :
  @file_record sample_api sample_loader sample_fs
    (js "/home/u/.gemini/commands/b.json") personal = Some sample_b_record
  /\ field (metadata sample_b_record) "scope" = JStr (js "project")
  /\ field (metadata sample_b_record) "sourcePath"
     = JStr (js "/home/u/.gemini/commands/b.json")
  /\ scope_name personal = js "personal".
Proof. vm_compute. repeat split. Qed.

(** ** C5: the action of a JSON command *)

Section Action.
Context {api : NodeApi}.

Lemma expand_replacement_literal (matched before after repl : jsstring) :
  forallb (fun c => negb (N.eqb c 36)) repl = true ->
  expand_replacement matched before after repl = repl.
Proof.
  induction repl as [|c r IH]; simpl; [reflexivity|].
  intros H. apply andb_true_iff in H as [Hc Hr].
  apply negb_true_iff in Hc. rewrite Hc. now rewrite IH.
Qed.

(** For a user argument without a dollar sign, the first placeholder of
    [args] is replaced by the argument as it is. *)
Lemma simple_action_substitutes (debug : bool) (shellCommand before after : jsstring)
    (cwd : JSValue) (context : CommandContext) (userArgs : jsstring) :
  forallb (fun c => negb (N.eqb c 36)) userArgs = true ->
  find_first (js "{{args}}") [] (before ++ js "{{args}}" ++ after)
  = Some (before, after) ->
  Eff.result
    (simpleCommandAction debug (JStr shellCommand)
       (JStr (before ++ js "{{args}}" ++ after)) cwd context userArgs)
  = Ok (ToolActionReturn (js "run_shell_command")
          (trim (shellCommand ++ [32%N] ++ before ++ userArgs ++ after))
          (js_or cwd
             (js_or (match services_config context with
                     | Some c => getProjectRoot c
                     | None => JUndefined
                     end)
                    (JStr process_cwd)))).
Proof.
  intros Hd Hf. unfold simpleCommandAction, replace_first. rewrite Hf.
  rewrite expand_replacement_literal by assumption.
  now destruct debug.
Qed.
End Action.

(** The round trip of the specification: [echo hi] with the argument
    [world]. *)
Lemma echo_hi_world :
  @shell_request sample_api sample_loader echo_config sample_context (js "world")
  = Some (ToolActionReturn (js "run_shell_command") (js "echo hi world")
            (JStr (js "/work"))).
Proof. vm_compute. reflexivity. Qed.

(** C5, on the code. The same command run with the user argument [$$]
    requests [echo hi $]: [String.prototype.replace] reads [$$] in the
    replacement text as one dollar sign; with [$&] it puts the placeholder
    back. *)
Lemma dollar_in_user_argument :
  @shell_request sample_api sample_loader echo_config sample_context (js "$$")
  = Some (ToolActionReturn (js "run_shell_command") (js "echo hi $")
            (JStr (js "/work")))
  /\ @shell_request sample_api sample_loader echo_config sample_context (js "$&")
     = Some (ToolActionReturn (js "run_shell_command") (js "echo hi {{args}}")
               (JStr (js "/work"))).
Proof. vm_compute. split; reflexivity. Qed.

(** ** C7: the validator of JSON command files *)

Lemma string_defect_In (f : jsstring) (v : JSValue) :
  truthy v = true -> is_string v = false -> In (NotString f) (string_defect f v).
Proof. intros Ht Hs. unfold string_defect. rewrite Ht, Hs. now left. Qed.

(** [createSimpleCommand] returns [null] exactly when the validator found a
    defect. *)
Lemma createSimpleCommand_rejects (self : CustomCommandLoader) (config : JSValue)
    (errors : list Defect) :
  validateSimpleCommand config = Ok errors ->
  Eff.result (createSimpleCommand self config) = Ok None <-> errors <> [].
Proof.
  intros Hv. unfold createSimpleCommand. rewrite Hv. simpl.
  destruct errors as [|d errors]; simpl; split; congruence.
Qed.

(** C7, amended. The validator of JSON command files runs every check
    whatever the other checks found: each of [category], [author],
    [version], [command], [args] and [cwd] that holds a truthy value which
    is not a string has its defect in the list; and the candidate is
    rejected exactly when the list is not empty. *)
Theorem validator_collects_all (self : CustomCommandLoader) (config : JSValue)
    (errors : list Defect) :
  validateSimpleCommand config = Ok errors ->
  (forall f : jsstring,
     In f [js "category"; js "author"; js "version"; js "command"; js "args";
           js "cwd"] ->
     truthy (prop config f) = true ->
     is_string (prop config f) = false ->
     In (NotString f) errors)
  /\ (Eff.result (createSimpleCommand self config) = Ok None <-> errors <> []).
Proof.
  intros Hv. split; [|now apply createSimpleCommand_rejects].
  assert (E : errors = simple_defects config).
  { unfold validateSimpleCommand, get_prop in Hv. destruct config; congruence. }
  subst errors. clear Hv. intros f Hf Ht Hs.
  unfold simple_defects, field. rewrite !in_app_iff.
  simpl in Hf.
  destruct Hf as [<-|[<-|[<-|[<-|[<-|[<-|[]]]]]]];
    auto 12 using string_defect_In.
Qed.

(** C7, witness: a candidate without a name whose [command] is a number and
    whose [author] is a boolean gets both defects and is rejected. *)
Lemma validator_collects_all_witness :
  In (NotString (js "command")) (simple_defects two_defects_config)
  /\ In (NotString (js "author")) (simple_defects two_defects_config)
  /\ Eff.result (createSimpleCommand sample_loader two_defects_config)
     = Ok None.
Proof.
  destruct (@validator_collects_all sample_loader two_defects_config
              (simple_defects two_defects_config) eq_refl) as [Hfields Hreject].
  split; [|split].
  - apply Hfields; [right; right; right; left; reflexivity| |]; reflexivity.
  - apply Hfields; [right; left; reflexivity| |]; reflexivity.
  - apply Hreject. discriminate.
Defined.

(** C7, counterexample. [version] is the number 0, [cwd] is [false] and
    [command] is [null]: three of the listed fields are present with a value
    that is not a string, the validator reports nothing and the command is
    created. *)
Lemma falsy_values_pass :
  field falsy_config "version" = JNum 0
  /\ field falsy_config "cwd" = JBool false
  /\ field falsy_config "command" = JNull
  /\ validateSimpleCommand falsy_config = Ok []
  /\ option_map name
       (match Eff.result (createSimpleCommand sample_loader falsy_config) with
        | Ok r => r
        | Throw _ => None
        end) = Some (JStr (js "x")).
Proof. vm_compute. repeat split. Qed.

(** The description is not examined by [validateSimpleCommand], while
    [validateCommand] reports the same value in a module's export. *)
Lemma description_is_not_checked :
  validateSimpleCommand number_description_config = Ok []
  /\ Eff.events (validateCommand number_description_config)
     = [Console LError
          (MsgValidationFailed (JStr (js "x")) [NotString (js "description")])].
Proof. vm_compute. split; reflexivity. Qed.

(** ** C6: name sanitization *)

Lemma dropWhile_nil (p : N -> bool) (s : jsstring) :
  dropWhile p s = [] -> forallb p s = true.
Proof.
  induction s as [|c s IH]; simpl; [reflexivity|].
  destruct (p c); [exact IH|discriminate].
Qed.

Lemma dropWhile_head (p : N -> bool) (s r : jsstring) (c : N) :
  dropWhile p s = c :: r -> p c = false.
Proof.
  induction s as [|x s IH]; simpl; [discriminate|].
  destruct (p x) eqn:E; [exact IH|].
  intros H. injection H as -> _. exact E.
Qed.

Lemma forallb_dropWhile (p : N -> bool) (s : jsstring) :
  forallb p (dropWhile p s) = true -> forallb p s = true.
Proof.
  intros H. apply dropWhile_nil.
  destruct (dropWhile p s) as [|c r] eqn:E; [reflexivity|].
  apply dropWhile_head in E. simpl in H. now rewrite E in H.
Qed.

Lemma forallb_rev (p : N -> bool) (s : jsstring) :
  forallb p (rev s) = true -> forallb p s = true.
Proof.
  rewrite !forallb_forall. intros H x Hx. apply H. now apply -> in_rev.
Qed.

(** A string that [trim] empties holds whitespace only. *)
Lemma trim_nil (s : jsstring) : trim s = [] -> forallb is_whitespace s = true.
Proof.
  unfold trim, dropWhileEnd. intros H.
  apply (f_equal (@rev N)) in H. rewrite rev_involutive in H. simpl in H.
  apply dropWhile_nil, forallb_rev in H. now apply forallb_dropWhile.
Qed.

Lemma replace_runs_from_all (p : N -> bool) (r s : jsstring) (in_run : bool) :
  forallb p s = true ->
  replace_runs_from p r in_run s
  = if in_run then [] else match s with [] => [] | _ => r end.
Proof.
  revert in_run. induction s as [|c s IH]; intros in_run; simpl.
  - now destruct in_run.
  - intros H. apply andb_true_iff in H as [Hc Hs]. rewrite Hc.
    rewrite (IH true Hs). apply app_nil_r.
Qed.

Lemma upper_range (c : N) : is_upper c = true -> (65 <= c <= 90)%N.
Proof.
  unfold is_upper, in_range. intros H.
  apply andb_true_iff in H as [H1 H2]. apply N.leb_le in H1, H2. lia.
Qed.

Lemma lower_char_not_upper (c : N) : is_upper (lower_char c) = false.
Proof.
  unfold lower_char. destruct (is_upper c) eqn:E.
  - apply upper_range in E. unfold is_upper, in_range.
    apply andb_false_iff. right. apply N.leb_gt. lia.
  - destruct (N.eqb c kelvin_sign); [reflexivity|exact E].
Qed.

Lemma whitespace_unchanged (c : N) :
  is_whitespace c = true -> is_upper c = false /\ N.eqb c kelvin_sign = false.
Proof.
  intros H. split.
  - destruct (is_upper c) eqn:E; [|reflexivity].
    apply upper_range in E. revert H. unfold is_whitespace, in_range.
    repeat match goal with
           | |- context [N.leb ?a ?b] => destruct (N.leb_spec a b); try lia
           | |- context [N.eqb ?a ?b] => destruct (N.eqb_spec a b); try lia
           end;
    simpl; congruence.
  - destruct (N.eqb_spec c kelvin_sign) as [->|]; [|reflexivity].
    vm_compute in H. discriminate.
Qed.

Lemma lower_char_whitespace (c : N) : is_whitespace c = true -> lower_char c = c.
Proof.
  intros H. apply whitespace_unchanged in H as [Hu Hk].
  unfold lower_char. now rewrite Hu, Hk.
Qed.

Lemma is_letter_lowered (c : N) : is_letter (lower_char c) = is_lower (lower_char c).
Proof. unfold is_letter. now rewrite lower_char_not_upper. Qed.

Lemma remove_chars_filter (p : N -> bool) (s : jsstring) :
  remove_chars (fun c => negb (p c)) s = filter p s.
Proof.
  unfold remove_chars. apply filter_ext. intros c. apply negb_involutive.
Qed.

Lemma filter_all (p q : N -> bool) (s : jsstring) :
  forallb p s = true -> (forall c, p c = true -> q c = true) -> filter q s = s.
Proof.
  intros H Hpq. induction s as [|c s IH]; simpl in *; [reflexivity|].
  apply andb_true_iff in H as [Hc Hs]. rewrite (Hpq _ Hc). now rewrite IH.
Qed.

(** A name of whitespace only gives the empty name in the worded
    algorithm too. *)
Lemma sanitize_whitespace_only (ascii : jsstring) :
  forallb is_whitespace ascii = true ->
  sanitize_in_words is_whitespace ascii = [].
Proof.
  intros H. unfold sanitize_in_words.
  destruct (filter is_ascii ascii) as [|c r] eqn:E; [reflexivity|]. simpl is_empty.
  cbv iota.
  assert (Hw : forallb is_whitespace (c :: r) = true).
  { rewrite <- E. rewrite forallb_forall in *. intros x Hx.
    apply filter_In in Hx. now apply H. }
  assert (Hl : toLowerCase (c :: r) = c :: r).
  { unfold toLowerCase. rewrite <- (map_id (c :: r)) at 2.
    apply map_ext_in. intros x Hx. apply lower_char_whitespace.
    rewrite forallb_forall in Hw. now apply Hw. }
  rewrite Hl.
  rewrite (@filter_all is_whitespace _ (c :: r) Hw)
    by (intros x Hx; rewrite Hx; now rewrite !orb_true_r).
  unfold replace_runs at 2. rewrite replace_runs_from_all by assumption.
  reflexivity.
Qed.

(** C6, amended. [sanitizeCommandName] drops the non-ASCII code units,
    gives no name when nothing is left, and otherwise lower-cases, keeps
    [a-z], [0-9], the hyphen and every whitespace character, turns each
    whitespace run into one hyphen, drops what precedes the first letter,
    collapses hyphens, trims hyphens and keeps 50 characters. *)
Theorem sanitize_refines_words (name : jsstring) :
  sanitizeCommandName name = amended_sanitizeCommandName name.
Proof.
  unfold sanitizeCommandName, amended_sanitizeCommandName.
  rewrite remove_chars_filter.
  destruct (Nat.eqb (length (trim (filter is_ascii name))) 0) eqn:E.
  - apply Nat.eqb_eq, length_zero_iff_nil, trim_nil in E.
    unfold sanitize_in_words.
    destruct (filter is_ascii name) as [|c r] eqn:Ef; [reflexivity|].
    simpl is_empty. cbv iota.
    pose proof (sanitize_whitespace_only (c :: r) E) as Hs.
    unfold sanitize_in_words in Hs.
    assert (Hf : filter is_ascii (c :: r) = c :: r).
    { rewrite <- Ef. clear. induction name as [|x s IH]; simpl; [reflexivity|].
      destruct (is_ascii x) eqn:Ex; simpl; [now rewrite Ex, IH|exact IH]. }
    rewrite Hf in Hs. simpl is_empty in Hs. cbv iota in Hs.
    symmetry. exact Hs.
  - unfold sanitize_in_words.
    destruct (filter is_ascii name) as [|c r] eqn:Ef; [discriminate|].
    simpl is_empty. cbv iota. cbv zeta. unfold substring_to.
    do 6 f_equal.
    unfold remove_chars, toLowerCase. apply filter_ext_in.
    intros x Hx. apply in_map_iff in Hx as (y & <- & _).
    rewrite negb_involutive. now rewrite is_letter_lowered.
Qed.

(** C6, counterexample. A tab is whitespace and no space: the code turns it
    into a hyphen, while the class [[a-z0-9 -]] of the specification drops
    it before the whitespace runs are replaced. *)
Lemma tab_becomes_hyphen :
  sanitizeCommandName (js "My" ++ [9%N] ++ js "Command") = js "my-command"
  /\ spec_sanitizeCommandName (js "My" ++ [9%N] ++ js "Command") = js "mycommand".
Proof. vm_compute. split; reflexivity. Qed.

(** ** C10: the description of a prose command file *)

Lemma startsWith_app_false (p q s : jsstring) :
  startsWith p s = false -> startsWith (p ++ q) s = false.
Proof.
  revert s. induction p as [|x p IH]; intros s; simpl; [discriminate|].
  destruct s as [|y s]; [reflexivity|].
  destruct (N.eqb x y); simpl; [apply IH|reflexivity].
Qed.

Lemma heading_is_no_fence (q t : jsstring) :
  startsWith (js "## ") t = true -> startsWith (fence ++ q) t = false.
Proof.
  intros H. destruct t as [|c t]; [vm_compute in H; discriminate|].
  change (js "## ") with [35; 35; 32]%N in H. unfold fence.
  cbn [startsWith app] in *.
  destruct (N.eqb_spec 35 c) as [<-|]; [reflexivity|discriminate].
Qed.

(** A line that offers a description opens no shell block. *)
Lemma candidate_opens_no_block (line d : jsstring) :
  description_candidate line = Some d -> opens_shell_block line = false.
Proof.
  unfold description_candidate, opens_shell_block.
  destruct (startsWith (js "## ") (trim line)) eqn:Eh.
  - intros _. now rewrite !(heading_is_no_fence _ _ Eh).
  - destruct (startsWith fence (trim line)) eqn:Ef.
    + rewrite andb_false_r. discriminate.
    + intros _. now rewrite !(startsWith_app_false _ _ _ Ef).
Qed.

(** One turn of the loop outside a block and without a description yet. *)
Lemma scanLines_step (line : jsstring) (rest : list jsstring) (code : jsstring) :
  opens_shell_block line = false ->
  scanLines (line :: rest) false code []
  = scanLines rest false code
      (match description_candidate line with Some d => d | None => [] end).
Proof.
  unfold opens_shell_block, description_candidate. intros Ho.
  cbn [scanLines]. cbv zeta. rewrite Ho. rewrite andb_false_r.
  cbn [is_empty andb].
  destruct (startsWith (js "## ") (trim line)); [reflexivity|].
  now destruct (Nat.ltb 0 (length (trim line)) && negb (startsWith (js "#") (trim line))
                && negb (startsWith fence (trim line))).
Qed.

(** Once a description is found, the loop keeps it. *)
Lemma scanLines_keeps (lines : list jsstring) (inCodeBlock : bool)
    (code d : jsstring) :
  d <> [] -> fst (scanLines lines inCodeBlock code d) = d.
Proof.
  intros Hd. revert inCodeBlock code.
  induction lines as [|line rest IH]; intros b code; [reflexivity|].
  cbn [scanLines]. cbv zeta.
  destruct (startsWith (fence ++ js "bash") (trim line)
            || startsWith (fence ++ js "sh") (trim line)
            || startsWith (fence ++ js "shell") (trim line)); [apply IH|].
  destruct (str_eqb (trim line) fence && b).
  - destruct (negb (is_empty (trim code))); [reflexivity|apply IH].
  - destruct d as [|c d]; [congruence|]. cbn [is_empty andb]. apply IH.
Qed.

Lemma scanLines_skip (pre rest : list jsstring) (code : jsstring) :
  (forall x, In x pre ->
     description_candidate x = None /\ opens_shell_block x = false) ->
  scanLines (pre ++ rest) false code [] = scanLines rest false code [].
Proof.
  induction pre as [|x pre IH]; intros H; [reflexivity|].
  destruct (H x (or_introl eq_refl)) as [Hc Ho].
  rewrite <- app_comm_cons, scanLines_step by exact Ho. rewrite Hc.
  apply IH. intros y Hy. apply H. now right.
Qed.

(** C10, amended. The description that [loadMarkdownCommand] extracts is
    what the first line offers that is a second-level heading or a plain
    line (a line with text that starts neither with [#] nor with a fence),
    whichever of the two kinds comes first, when no shell block opens
    before that line. *)
Theorem description_is_first_candidate (content : jsstring)
    (pre post : list jsstring) (l d : jsstring) :
  split_lines content = pre ++ l :: post ->
  (forall x, In x pre ->
     description_candidate x = None /\ opens_shell_block x = false) ->
  description_candidate l = Some d ->
  d <> [] ->
  extractDescription content = d.
Proof.
  intros Hs Hpre Hl Hd. unfold extractDescription. rewrite Hs.
  rewrite scanLines_skip by exact Hpre.
  rewrite scanLines_step by (eapply candidate_opens_no_block; exact Hl).
  rewrite Hl.
  now apply scanLines_keeps.
Qed.

(** C10, witness: the first paragraph of the sample file, after its title
    and an empty line. *)
Lemma description_is_first_candidate_witness :
  extractDescription database_reset_md
  = js "Reset the development database and run migrations.".
Proof.
  apply (@description_is_first_candidate database_reset_md
           [js "# Database Reset"; []]
           [[]; js "## Usage"; js "- /db-reset - Reset with sample data"]
           (js "Reset the development database and run migrations.")).
  - reflexivity.
  - intros x [<-|[<-|[]]]; split; reflexivity.
  - reflexivity.
  - discriminate.
Defined.

(** C10, counterexample. The sample file has a second-level heading,
    [Usage]; the description that the code extracts is the paragraph that
    stands before it. *)
Lemma paragraph_before_heading :
  extractDescription database_reset_md
  = js "Reset the development database and run migrations."
  /\ first_heading2 (split_lines database_reset_md) = Some (js "Usage")
  /\ spec_description database_reset_md = js "Usage".
Proof. vm_compute. repeat split. Qed.

(** A line inside a shell block is taken as the description as well. *)
Lemma fenced_line_taken_as_description :
  extractDescription build_md = js "npm run build"
  /\ extractShellCommand build_md = js "npm run build"
  /\ spec_description build_md = [].
Proof. vm_compute. repeat split. Qed.

(** ** C9: debounce of the reload *)

Section Debounce.
Context {api : NodeApi}.
Variable self : CustomCommandLoader.

Lemma clearTimeout_only (h : nat) (due : Z) : clearTimeout h [(h, due)] = [].
Proof. unfold clearTimeout. simpl. now rewrite Nat.eqb_refl. Qed.

Lemma scheduleReload_fields (rt : Runtime) :
  reloads (scheduleReload rt) = reloads rt
  /\ clock (scheduleReload rt) = clock rt
  /\ reloadTimer (scheduleReload rt) = Some (next_timer rt)
  /\ timers (scheduleReload rt)
     = match reloadTimer rt with
       | Some h => clearTimeout h (timers rt)
       | None => timers rt
       end ++ [(next_timer rt, clock rt + debounce_delay)%Z].
Proof. repeat split. Qed.

Lemma reloadCallback_fields (fs : FileSystem) (t : Z) (h : nat) (rt : Runtime) :
  reloads (reloadCallback self fs t h rt) = reloads rt ++ [t]
  /\ clock (reloadCallback self fs t h rt) = t
  /\ timers (reloadCallback self fs t h rt) = clearTimeout h (timers rt).
Proof.
  unfold reloadCallback.
  destruct (loadCustomCommands self fs (load rt)) as [r st1].
  repeat split.
Qed.

(** A notification that names a changed file arms the timer anew, whatever
    was pending. *)
Lemma notification_arms (rt : Runtime) (t : Z) (filename : JSValue) (last : option Z) :
  phase last rt ->
  (clock rt <= t)%Z ->
  truthy filename = true ->
  match last with Some t0 => (t - t0 < debounce_delay)%Z | None => True end ->
  armed t (onWatchEvent self ev_change filename (at_time t rt)).
Proof.
  intros Hp Hclock Hf Hw. unfold onWatchEvent, armed. rewrite Hf.
  unfold scheduleReload, with_load, at_time.
  cbn [reloads timers reloadTimer clock next_timer].
  exists (next_timer rt).
  destruct last as [t0|].
  - destruct Hp as [(h & Hrel & Htim & Hrt & _)|(r & Hrel & Hle & Htim & Hrc)].
    + rewrite Hrel, Htim, Hrt. cbv beta iota. rewrite clearTimeout_only.
      repeat split. lia.
    + lia.
  - destruct Hp as [Hrel Htim]. rewrite Hrel, Htim.
    repeat split; [|lia]. now destruct (reloadTimer rt).
Qed.

(** The timer runs only when armed and due, and then it reloads once. *)
Lemma timer_reloads_once (rt : Runtime) (t : Z) (h : nat) (due : Z)
    (fs : FileSystem) (last : option Z) :
  phase last rt ->
  In (h, due) (timers rt) ->
  (due <= t)%Z ->
  phase last (reloadCallback self fs t h rt).
Proof.
  intros Hp Hin Hdue.
  destruct (reloadCallback_fields fs t h rt) as (Hr & Hc & Hts).
  destruct last as [t0|].
  - destruct Hp as [(h0 & Hrel & Htim & Hrt & _)|(r & Hrel & Hle & Htim & Hrc)].
    + rewrite Htim in Hin. destruct Hin as [Hin|[]].
      injection Hin as Hh Hd. subst h due.
      right. exists t. rewrite Hr, Hc, Hts, Hrel, Htim, clearTimeout_only.
      repeat split; [assumption|lia].
    + rewrite Htim in Hin. destruct Hin.
  - destruct Hp as [_ Htim]. rewrite Htim in Hin. destruct Hin.
Qed.

Lemma run_phase (rt rt' : Runtime) (ls : list Label) (last : option Z) :
  run self rt ls rt' ->
  phase last rt ->
  burst last ls ->
  phase (last_notification last ls) rt'.
Proof.
  intros Hrun. revert last.
  induction Hrun as [rt|rt l rt1 ls rt2 Hstep Hrun IH]; intros last Hp Hb.
  - exact Hp.
  - destruct Hstep as [rt t w eventType filename Hclock Hw
                      |rt t h due fs Hclock Hin Hdue].
    + destruct Hb as (-> & Hf & Hwin & Hb). simpl. apply IH; [|exact Hb].
      left. now apply notification_arms with (last := last).
    + simpl in *. apply IH; [|exact Hb].
      now apply timer_reloads_once with (due := due).
Qed.

(** When the timer is armed, the event loop can run it at any time from
    its due time on, and this is the one reload. *)
Lemma armed_timer_fires (rt : Runtime) (tN t : Z) (fs : FileSystem) :
  armed tN rt ->
  (clock rt <= t)%Z ->
  (tN + debounce_delay <= t)%Z ->
  exists h rt', step self rt (Fire t h fs) rt' /\ reloads rt' = [t].
Proof.
  intros (h & Hrel & Htim & _ & _) Hclock Hdue.
  exists h, (reloadCallback self fs t h rt). split.
  - apply step_fire with (due := (tN + debounce_delay)%Z);
      [assumption|rewrite Htim; now left|assumption].
  - destruct (reloadCallback_fields fs t h rt) as (Hr & _). now rewrite Hr, Hrel.
Qed.

(** C9, amended. Every change notification that names a file cancels the
    pending debounce timer and arms a new one, due 500 later. So after a
    burst of such notifications, each less than 500 after the one before,
    started with no timer pending: either the one timer is pending, due 500
    after the last notification, and the event loop can run it from then
    on, which reloads once; or exactly one reload has run, no earlier than
    500 after the last notification. *)
Theorem debounce (rt0 rt : Runtime) (ls : list Label) (tN : Z) :
  timers rt0 = [] ->
  reloads rt0 = [] ->
  run self rt0 ls rt ->
  burst None ls ->
  last_notification None ls = Some tN ->
  (armed tN rt
   /\ forall t fs, (clock rt <= t)%Z -> (tN + debounce_delay <= t)%Z ->
        exists h rt', step self rt (Fire t h fs) rt' /\ reloads rt' = [t])
  \/ reloaded_once tN rt.
Proof.
  intros Ht Hr Hrun Hb Hlast.
  pose proof (@run_phase rt0 rt ls None Hrun (conj Hr Ht) Hb) as Hp.
  rewrite Hlast in Hp. destruct Hp as [Ha|Ho]; [left|now right].
  split; [exact Ha|]. intros t fs. now apply armed_timer_fires.
Qed.
End Debounce.

Lemma sample_burst_run :
  @run sample_api sample_loader watching_runtime sample_burst after_sample_burst.
Proof.
  unfold sample_burst, after_sample_burst.
  eapply run_cons;
    [apply step_notify; [vm_compute; discriminate|now left]|].
  eapply run_cons;
    [apply step_notify; [vm_compute; discriminate|now left]|].
  eapply run_cons;
    [apply step_fire with (due := 600%Z);
       [vm_compute; discriminate|now left|vm_compute; discriminate]|].
  apply run_nil.
Defined.

(** C9, witness: two changes of [build.json] at times 0 and 100, and the
    timer run at time 650. *)
Lemma debounce_witness : reloaded_once 100 after_sample_burst.
Proof.
  destruct (@debounce sample_api sample_loader watching_runtime after_sample_burst
              sample_burst 100 eq_refl eq_refl sample_burst_run)
    as [[(h & Hrel & _) _]|Honce].
  - simpl. repeat split; reflexivity.
  - reflexivity.
  - vm_compute in Hrel. discriminate Hrel.
  - exact Honce.
Defined.

(** C9, counterexample. A change notification at time 100 that carries no
    file name leaves the timer of the notification of time 0 untouched: the
    reload runs at time 500, less than 500 after the last change
    notification. *)
Lemma unnamed_change_does_not_restart :
  @run sample_api sample_loader watching_runtime unnamed_burst after_unnamed_burst
  /\ change_times unnamed_burst = [0; 100]%Z
  /\ reloads after_unnamed_burst = [500%Z]
  /\ (500 < 100 + debounce_delay)%Z.
Proof.
  split; [|vm_compute; repeat split].
  unfold unnamed_burst, after_unnamed_burst.
  eapply run_cons;
    [apply step_notify; [vm_compute; discriminate|now left]|].
  eapply run_cons;
    [apply step_notify; [vm_compute; discriminate|now left]|].
  eapply run_cons;
    [apply step_fire with (due := 500%Z);
       [vm_compute; discriminate|now left|vm_compute; discriminate]|].
  apply run_nil.
Qed.

(** ** Further properties of the loader *)

(** The name of a JSON command file that is accepted is a string that
    follows the naming rule, and the record carries it as it is. *)
Theorem accepted_name_is_echoed (self : CustomCommandLoader) (config : JSValue)
    (c : SlashCommand) :
  Eff.result (createSimpleCommand self config) = Ok (Some c) ->
  name c = field config "name"
  /\ exists s, name c = JStr s /\ name_pattern s = true.
Proof.
  unfold createSimpleCommand.
  destruct (validateSimpleCommand config) as [errors|e] eqn:Hv; [|discriminate].
  simpl. destruct errors as [|d errors]; [|discriminate].
  simpl. intros H. injection H as <-. simpl. split; [reflexivity|].
  unfold validateSimpleCommand in Hv.
  destruct (get_prop config (js "name")); [|discriminate].
  injection Hv as Hv. unfold simple_defects in Hv.
  apply app_eq_nil in Hv as [Hn _].
  destruct (is_string (field config "name")) eqn:Es;
    [|rewrite orb_true_r in Hn; discriminate Hn].
  destruct (field config "name") as [| | | |s| | |]; try discriminate Es.
  exists s. split; [reflexivity|].
  simpl in Hn. destruct (is_empty s); [discriminate|]. simpl in Hn.
  now destruct (name_pattern s).
Qed.

Lemma accepted_name_is_echoed_witness :
  name sample_build_record = JStr (js "build")
  /\ exists s, name sample_build_record = JStr s /\ name_pattern s = true.
Proof.
  destruct (@accepted_name_is_echoed sample_loader build_json_value
              {| name := JStr (js "build"); altName := JStr (js "b");
                 description := JUndefined;
                 action := Some (SimpleCommandAction false
                                   (JStr (js "npm run build")) (JStr []) JUndefined);
                 completion := JUndefined; subCommands := JUndefined;
                 metadata := JObj [ (js "scope", JStr (js "project"));
                                    (js "sourceFormat", JStr (js "json"));
                                    (js "category", JUndefined);
                                    (js "tags", JUndefined);
                                    (js "author", JUndefined);
                                    (js "version", JUndefined);
                                    (js "canExecuteShell", JBool true) ] |}
              eq_refl) as [He Hs].
  split; [exact He|exact Hs].
Defined.

(** A name that is a string and breaks the naming rule, or is missing, is
    reported and the candidate is rejected. *)
Theorem invalid_name_is_rejected (self : CustomCommandLoader) (config : JSValue)
    (errors : list Defect) :
  validateSimpleCommand config = Ok errors ->
  match field config "name" with
  | JStr s => name_pattern s = false
  | _ => True
  end ->
  (In MissingName errors \/ In BadNamePattern errors)
  /\ Eff.result (createSimpleCommand self config) = Ok None.
Proof.
  intros Hv Hn.
  assert (H : In MissingName errors \/ In BadNamePattern errors).
  { unfold validateSimpleCommand in Hv.
    destruct (get_prop config (js "name")); [|discriminate].
    injection Hv as <-. unfold simple_defects.
    destruct (is_string (field config "name")) eqn:Es;
      [|left; apply in_or_app; left; rewrite orb_true_r; now left].
    destruct (field config "name") as [| | | |s| | |]; try discriminate Es.
    simpl. destruct (is_empty s); simpl.
    - left. now left.
    - rewrite Hn. simpl. right. now left. }
  split; [exact H|].
  apply (createSimpleCommand_rejects self _ Hv).
  intros ->. destruct H as [[]|[]].
Qed.

Lemma invalid_name_is_rejected_witness :
  (In MissingName [BadNamePattern] \/ In BadNamePattern [BadNamePattern])
  /\ Eff.result
       (createSimpleCommand sample_loader (JObj [(js "name", JStr (js "123bad"))]))
     = Ok None.
Proof.
  exact (@invalid_name_is_rejected sample_loader
           (JObj [(js "name", JStr (js "123bad"))]) [BadNamePattern]
           eq_refl eq_refl).
Defined.

(** A name without any ASCII character sanitizes to the empty name. *)
Lemma sanitize_without_ascii (s : jsstring) :
  forallb (fun c => negb (is_ascii c)) s = true -> sanitizeCommandName s = [].
Proof.
  intros H. unfold sanitizeCommandName.
  assert (E : remove_chars (fun c => negb (is_ascii c)) s = []).
  { unfold remove_chars. induction s as [|c s IH]; [reflexivity|].
    simpl in *. apply andb_true_iff in H as [Hc Hs].
    rewrite Hc. simpl. now apply IH. }
  now rewrite E.
Qed.

(** The prose files of the specification: [# Build] with a [bash] block
    gives the command [build], whose action without arguments requests
    [npm run build]; a title without ASCII characters falls back to the base
    name of the file; when the base name has none either, there is no
    record and the loader says why. *)
Lemma prose_files_of_the_specification :
  let build := @file_record sample_api sample_loader prose_fs
                 (js "/work/.gemini/commands/build.md") project in
  option_map name build = Some (JStr (js "build"))
  /\ match build with
     | Some c => option_map (@Eff.result _)
                   (@run_action sample_api c sample_context [])
     | None => None
     end
     = Some (Ok (ToolActionReturn (js "run_shell_command") (js "npm run build")
                   (JStr (js "/work"))))
  /\ option_map name
       (@file_record sample_api sample_loader prose_fs
          (js "/work/.gemini/commands/deploy.md") project)
     = Some (JStr (js "deploy"))
  /\ @loadMarkdownCommand sample_api prose_fs
       (js "/work/.gemini/commands/" ++ cjk_word ++ js ".md")
     = ([Suspend;
         Console LWarn
           (MsgNoCommandName (js "/work/.gemini/commands/" ++ cjk_word ++ js ".md"))],
        Ok None).
Proof. vm_compute. repeat split. Qed.

(** ** The names that [sanitizeCommandName] gives *)

Lemma forallb_replace_runs_from (p q : N -> bool) (r s : jsstring) (in_run : bool) :
  forallb (fun c => p c || q c) s = true ->
  forallb q r = true ->
  forallb q (replace_runs_from p r in_run s) = true.
Proof.
  intros Hs Hr. revert in_run.
  induction s as [|c s IH]; intros in_run; simpl in *; [reflexivity|].
  apply andb_true_iff in Hs as [Hc Hs].
  destruct (p c) eqn:Ep.
  - rewrite forallb_app, (IH Hs). now destruct in_run; simpl; rewrite ?Hr.
  - simpl in Hc. simpl. now rewrite Hc, (IH Hs).
Qed.

Lemma forallb_dropWhile_suffix (p q : N -> bool) (s : jsstring) :
  forallb q s = true -> forallb q (dropWhile p s) = true.
Proof.
  induction s as [|c s IH]; simpl; [reflexivity|].
  intros H. destruct (p c); [|exact H].
  apply andb_true_iff in H as [_ H]. now apply IH.
Qed.

Lemma forallb_rev_iff (q : N -> bool) (s : jsstring) :
  forallb q (rev s) = forallb q s.
Proof.
  destruct (forallb q s) eqn:E.
  - rewrite forallb_forall in *. intros x Hx. apply E. now apply in_rev.
  - destruct (forallb q (rev s)) eqn:E'; [|reflexivity].
    apply forallb_rev in E'. congruence.
Qed.

Lemma forallb_dropWhileEnd (p q : N -> bool) (s : jsstring) :
  forallb q s = true -> forallb q (dropWhileEnd p s) = true.
Proof.
  intros H. unfold dropWhileEnd. rewrite forallb_rev_iff.
  apply forallb_dropWhile_suffix. now rewrite forallb_rev_iff.
Qed.

Lemma forallb_firstn (q : N -> bool) (n : nat) (s : jsstring) :
  forallb q s = true -> forallb q (firstn n s) = true.
Proof.
  revert s. induction n as [|n IH]; intros [|c s]; simpl; try reflexivity.
  intros H. apply andb_true_iff in H as [Hc Hs]. now rewrite Hc, IH.
Qed.

Lemma letter_is_no_hyphen (c : N) : is_letter c = true -> is_hyphen c = false.
Proof.
  unfold is_letter, is_upper, is_lower, is_hyphen, hyphen, in_range. intros H.
  apply N.eqb_neq. intros ->. vm_compute in H. discriminate.
Qed.

Lemma starts_with_letter_dropWhile (s : jsstring) :
  starts_with_letter (dropWhile (fun c => negb (is_letter c)) s).
Proof.
  destruct (dropWhile (fun c => negb (is_letter c)) s) as [|c r] eqn:E;
    [exact I|].
  apply dropWhile_head in E. simpl. now apply negb_false_iff.
Qed.

Lemma starts_with_letter_collapse (s : jsstring) :
  starts_with_letter s -> starts_with_letter (replace_runs is_hyphen [hyphen] s).
Proof.
  destruct s as [|c s]; [trivial|]. intros H.
  unfold replace_runs. simpl in *.
  rewrite (letter_is_no_hyphen _ H). exact H.
Qed.

Lemma dropWhile_hyphen_id (s : jsstring) :
  starts_with_letter s -> dropWhile is_hyphen s = s.
Proof.
  destruct s as [|c s]; [reflexivity|]. simpl. intros H.
  now rewrite (letter_is_no_hyphen _ H).
Qed.

Lemma dropWhile_snoc_kept (p : N -> bool) (s : jsstring) (c : N) :
  p c = false -> dropWhile p (s ++ [c]) = dropWhile p s ++ [c].
Proof.
  intros Hc. induction s as [|x s IH]; simpl; [now rewrite Hc|].
  destruct (p x); [exact IH|reflexivity].
Qed.

Lemma starts_with_letter_dropWhileEnd (s : jsstring) :
  starts_with_letter s -> starts_with_letter (dropWhileEnd is_hyphen s).
Proof.
  destruct s as [|c s]; [trivial|]. simpl. intros H.
  unfold dropWhileEnd. simpl.
  rewrite dropWhile_snoc_kept by now apply letter_is_no_hyphen.
  rewrite rev_app_distr. exact H.
Qed.

Lemma starts_with_letter_firstn (n : nat) (s : jsstring) :
  starts_with_letter s -> starts_with_letter (firstn n s).
Proof. destruct n, s; simpl; auto. Qed.

Lemma name_pattern_intro (s : jsstring) :
  s <> [] -> starts_with_letter s -> forallb name_char s = true ->
  name_pattern s = true.
Proof.
  destruct s as [|c s]; [congruence|]. simpl. intros _ Hl H.
  apply andb_true_iff in H as [_ H]. now rewrite Hl.
Qed.

(** Whatever the title or the file name, the name that
    [sanitizeCommandName] gives is empty, or it follows the naming rule of
    commands; it has at most 50 characters. *)
Theorem sanitized_name_is_valid (s : jsstring) :
  (sanitizeCommandName s = [] \/ name_pattern (sanitizeCommandName s) = true)
  /\ length (sanitizeCommandName s) <= 50.
Proof.
  unfold sanitizeCommandName.
  destruct (Nat.eqb (length (trim (remove_chars (fun c => negb (is_ascii c)) s))) 0);
    [split; [now left|simpl; lia]|].
  cbv zeta. unfold substring_to.
  set (s2 := remove_chars _ (toLowerCase _)).
  set (s3 := replace_runs is_whitespace [hyphen] s2).
  set (s4 := dropWhile (fun c => negb (is_letter c)) s3).
  set (s5 := replace_runs is_hyphen [hyphen] s4).
  set (s6 := dropWhileEnd is_hyphen (dropWhile is_hyphen s5)).
  split; [|apply firstn_le_length].
  assert (H3 : forallb name_char s3 = true).
  { apply forallb_replace_runs_from; [|reflexivity].
    unfold s2, remove_chars. apply forallb_forall. intros x Hx.
    apply filter_In in Hx as [_ Hx]. rewrite negb_involutive in Hx.
    unfold name_char.
    destruct (is_letter x), (is_digit x), (is_whitespace x), (is_hyphen x);
      simpl in *; congruence. }
  assert (H4 : forallb name_char s4 = true)
    by now apply forallb_dropWhile_suffix.
  assert (H5 : forallb name_char s5 = true).
  { apply forallb_replace_runs_from; [|reflexivity].
    apply forallb_forall. intros x Hx.
    rewrite forallb_forall in H4. rewrite (H4 x Hx). apply orb_true_r. }
  assert (L5 : starts_with_letter s5)
    by apply starts_with_letter_collapse, starts_with_letter_dropWhile.
  assert (H6 : forallb name_char s6 = true)
    by now apply forallb_dropWhileEnd, forallb_dropWhile_suffix.
  assert (L6 : starts_with_letter s6).
  { unfold s6. rewrite dropWhile_hyphen_id by exact L5.
    now apply starts_with_letter_dropWhileEnd. }
  destruct (firstn 50 s6) as [|c r] eqn:E; [now left|right].
  rewrite <- E. apply name_pattern_intro.
  - rewrite E. discriminate.
  - now apply starts_with_letter_firstn.
  - now apply forallb_firstn.
Qed.

(** ** Stopping the watcher *)

Section Stop.
Context {api : NodeApi}.
Variable self : CustomCommandLoader.

End Stop.


(** ** A name that collides across the scopes *)



(** ** Names that [sanitizeCommandName] keeps *)

Lemma filter_id (A : Type) (p : A -> bool) (s : list A) :
  forallb p s = true -> filter p s = s.
Proof.
  induction s as [|c s IH]; simpl; [reflexivity|].
  intros H. apply andb_true_iff in H as [Hc Hs]. now rewrite Hc, IH.
Qed.

Lemma forallb_impl (A : Type) (p q : A -> bool) (s : list A) :
  (forall x, p x = true -> q x = true) ->
  forallb p s = true -> forallb q s = true.
Proof.
  intros Hpq H. rewrite forallb_forall in *. auto.
Qed.

Lemma kebab_char_cases (c : N) :
  is_kebab_char c = true ->
  is_ascii c = true /\ is_upper c = false /\ is_whitespace c = false
  /\ N.eqb c kelvin_sign = false.
Proof.
  unfold is_kebab_char, is_lower, is_digit, is_hyphen, hyphen, is_ascii, is_upper,
    is_whitespace, in_range, kelvin_sign.
  intros H.
  assert (R : (97 <= c <= 122 \/ 48 <= c <= 57 \/ c = 45)%N).
  { apply orb_true_iff in H as [H|H]; [apply orb_true_iff in H as [H|H]|].
    - apply andb_true_iff in H as [H1 H2]. apply N.leb_le in H1, H2. lia.
    - apply andb_true_iff in H as [H1 H2]. apply N.leb_le in H1, H2. lia.
    - apply N.eqb_eq in H. lia. }
  repeat split.
  - apply N.leb_le. lia.
  - apply andb_false_iff.
    destruct (N.leb_spec 65 c); [right; apply N.leb_gt; lia|now left].
  - repeat (apply orb_false_iff; split);
      try (apply N.eqb_neq; lia);
      apply andb_false_iff;
      try (left; apply N.leb_gt; lia); right; apply N.leb_gt; lia.
  - apply N.eqb_neq. lia.
Qed.

Lemma lower_char_kebab (c : N) : is_kebab_char c = true -> lower_char c = c.
Proof.
  intros H. destruct (kebab_char_cases _ H) as (_ & Hu & _ & Hk).
  unfold lower_char. now rewrite Hu, Hk.
Qed.

Lemma toLowerCase_kebab (s : jsstring) :
  forallb is_kebab_char s = true -> toLowerCase s = s.
Proof.
  induction s as [|c s IH]; simpl; [reflexivity|].
  intros H. apply andb_true_iff in H as [Hc Hs].
  now rewrite (lower_char_kebab _ Hc), IH.
Qed.

Lemma replace_runs_from_none (p : N -> bool) (r s : jsstring) (in_run : bool) :
  forallb (fun c => negb (p c)) s = true -> replace_runs_from p r in_run s = s.
Proof.
  revert in_run. induction s as [|c s IH]; intros in_run; simpl; [reflexivity|].
  intros H. apply andb_true_iff in H as [Hc Hs]. apply negb_true_iff in Hc.
  now rewrite Hc, IH.
Qed.

(** Collapsing the runs of hyphens changes nothing where no hyphen follows
    a hyphen. *)
Lemma collapse_single_hyphens (s : jsstring) (in_run : bool) :
  no_double_hyphen s = true ->
  (in_run = true -> match s with c :: _ => is_hyphen c = false | [] => True end) ->
  replace_runs_from is_hyphen [hyphen] in_run s = s.
Proof.
  revert in_run. induction s as [|c s IH]; intros in_run; [reflexivity|].
  intros Hd Hr. simpl in Hd. apply andb_true_iff in Hd as [Hcb Hd].
  simpl. destruct (is_hyphen c) eqn:Hc.
  - destruct in_run; [specialize (Hr eq_refl); simpl in Hr; congruence|].
    simpl. apply N.eqb_eq in Hc. subst c. f_equal.
    apply IH; [exact Hd|]. intros _.
    destruct s as [|b s]; [exact I|].
    simpl in Hcb. now apply negb_true_iff in Hcb.
  - f_equal. apply IH; [exact Hd|discriminate].
Qed.

Lemma dropWhileEnd_kept (p : N -> bool) (s : jsstring) :
  match rev s with c :: _ => p c = false | [] => True end ->
  dropWhileEnd p s = s.
Proof.
  intros H. unfold dropWhileEnd.
  destruct (rev s) as [|c r] eqn:E; simpl.
  - apply (f_equal (@rev N)) in E. rewrite rev_involutive in E. now subst.
  - rewrite H. rewrite <- E. apply rev_involutive.
Qed.

Lemma trim_not_empty (c : N) (s : jsstring) :
  is_whitespace c = false -> trim (c :: s) <> [].
Proof.
  intros Hc. unfold trim. simpl. rewrite Hc. unfold dropWhileEnd. simpl.
  rewrite dropWhile_snoc_kept by exact Hc.
  rewrite rev_app_distr. discriminate.
Qed.

(** A name that is already in kebab case, does not end with a hyphen and
    has at most 50 characters goes through every stage unchanged. *)
Lemma sanitize_fixed_point (c : N) (r : jsstring) :
  is_lower c = true ->
  forallb is_kebab_char (c :: r) = true ->
  no_double_hyphen (c :: r) = true ->
  ends_with_hyphen (c :: r) = false ->
  length (c :: r) <= 50 ->
  sanitizeCommandName (c :: r) = c :: r.
Proof.
  intros Hl Hk Hd He Hlen. set (s := c :: r) in *.
  assert (Hcl : is_letter c = true) by (unfold is_letter; rewrite Hl; apply orb_true_r).
  assert (Hck : is_kebab_char c = true)
    by (unfold is_kebab_char; now rewrite Hl).
  unfold sanitizeCommandName.
  assert (E0 : remove_chars (fun x => negb (is_ascii x)) s = s).
  { unfold remove_chars. apply filter_id.
    apply forallb_impl with (p := is_kebab_char); [|exact Hk].
    intros x Hx. rewrite negb_involutive. now destruct (kebab_char_cases _ Hx). }
  rewrite E0.
  destruct (Nat.eqb_spec (length (trim s)) 0) as [E|_].
  { apply length_zero_iff_nil in E. unfold s in E.
    now apply trim_not_empty in E; [|destruct (kebab_char_cases _ Hck) as (_ & _ & Hw & _)]. }
  cbv zeta. rewrite (toLowerCase_kebab _ Hk).
  assert (E2 : remove_chars
                 (fun x => negb (is_letter x || is_digit x || is_whitespace x
                                 || is_hyphen x)) s = s).
  { unfold remove_chars. apply filter_id.
    apply forallb_impl with (p := is_kebab_char); [|exact Hk].
    intros x Hx. rewrite negb_involutive. unfold is_kebab_char in Hx.
    unfold is_letter.
    destruct (is_lower x), (is_digit x), (is_hyphen x), (is_upper x),
      (is_whitespace x); simpl in *; congruence. }
  rewrite E2.
  assert (E3 : replace_runs is_whitespace [hyphen] s = s).
  { apply replace_runs_from_none.
    apply forallb_impl with (p := is_kebab_char); [|exact Hk].
    intros x Hx. apply negb_true_iff. now destruct (kebab_char_cases _ Hx) as (_ & _ & Hw & _). }
  rewrite E3.
  assert (E4 : dropWhile (fun x => negb (is_letter x)) s = s)
    by (unfold s; simpl; now rewrite Hcl).
  rewrite E4.
  assert (E5 : replace_runs is_hyphen [hyphen] s = s)
    by (apply collapse_single_hyphens; [exact Hd|discriminate]).
  rewrite E5.
  rewrite dropWhile_hyphen_id by exact Hcl.
  rewrite dropWhileEnd_kept.
  - unfold substring_to. now apply firstn_all2.
  - unfold ends_with_hyphen in He. now destruct (rev s).
Qed.

(** A name in kebab case of at most 50 characters that does not end with a
    hyphen is kept as it is: a prose file named [my-command.md] without a
    title gives the command [my-command]. *)
Theorem kebab_name_is_kept (s : jsstring) :
  is_kebab s = true ->
  ends_with_hyphen s = false ->
  length s <= 50 ->
  sanitizeCommandName s = s.
Proof.
  unfold is_kebab. intros H He Hlen.
  apply andb_true_iff in H as [H Hd]. apply andb_true_iff in H as [Hl Hk].
  destruct s as [|c r]; [discriminate|]. now apply sanitize_fixed_point.
Qed.

Lemma kebab_name_is_kept_witness :
  sanitizeCommandName (js "my-command") = js "my-command".
Proof.
  apply kebab_name_is_kept; [reflexivity|reflexivity|simpl; lia].
Defined.

(** ** The shape of a sanitized name *)

Lemma no_double_hyphen_tail (c : N) (s : jsstring) :
  no_double_hyphen (c :: s) = true -> no_double_hyphen s = true.
Proof. simpl. intros H. now apply andb_true_iff in H as [_ H]. Qed.

Lemma no_double_hyphen_dropWhile (p : N -> bool) (s : jsstring) :
  no_double_hyphen s = true -> no_double_hyphen (dropWhile p s) = true.
Proof.
  induction s as [|c s IH]; [reflexivity|]. intros H.
  simpl dropWhile. destruct (p c); [|exact H].
  apply IH. now apply no_double_hyphen_tail in H.
Qed.

Lemma no_double_hyphen_app_l (a b : jsstring) :
  no_double_hyphen (a ++ b) = true -> no_double_hyphen a = true.
Proof.
  induction a as [|c a IH]; [reflexivity|]. intros H.
  change ((c :: a) ++ b) with (c :: (a ++ b)) in H.
  pose proof (no_double_hyphen_tail _ _ H) as Ht.
  simpl in H. apply andb_true_iff in H as [Hc _].
  simpl. rewrite (IH Ht), andb_true_r.
  destruct a as [|d a]; [reflexivity|exact Hc].
Qed.

Lemma dropWhileEnd_prefix (p : N -> bool) (s : jsstring) :
  exists t, s = dropWhileEnd p s ++ t.
Proof.
  unfold dropWhileEnd.
  assert (H : forall l : jsstring, exists t, l = t ++ dropWhile p l).
  { induction l as [|c l [t IH]]; [now exists []|]. simpl.
    destruct (p c); [|now exists []].
    exists (c :: t). simpl. now rewrite <- IH. }
  destruct (H (rev s)) as [t Ht]. exists (rev t).
  rewrite <- rev_app_distr, <- Ht. symmetry. apply rev_involutive.
Qed.

Lemma no_double_hyphen_collapse (s : jsstring) (in_run : bool) :
  no_double_hyphen (replace_runs_from is_hyphen [hyphen] in_run s) = true
  /\ (in_run = true ->
      match replace_runs_from is_hyphen [hyphen] in_run s with
      | c :: _ => is_hyphen c = false
      | [] => True
      end).
Proof.
  revert in_run. induction s as [|c s IH]; intros in_run; [now split|].
  simpl. destruct (is_hyphen c) eqn:Hc.
  - destruct (IH true) as [Hn Hh]. specialize (Hh eq_refl).
    destruct in_run; simpl; [now split|]. split; [|discriminate].
    rewrite Hn, andb_true_r.
    destruct (replace_runs_from is_hyphen [hyphen] true s) as [|d r];
      [reflexivity|].
    now rewrite Hh.
  - destruct (IH false) as [Hn _]. split; [|now intros _].
    simpl. rewrite Hn, Hc. simpl.
    now destruct (replace_runs_from is_hyphen [hyphen] false s).
Qed.

Lemma letter_kebab_is_lower (c : N) :
  is_letter c = true -> is_kebab_char c = true -> is_lower c = true.
Proof.
  intros Hl Hk. destruct (kebab_char_cases _ Hk) as (_ & Hu & _).
  unfold is_letter in Hl. now rewrite Hu in Hl.
Qed.

Lemma firstn_short (A : Type) (n : nat) (l : list A) :
  length (firstn n l) < n -> firstn n l = l.
Proof.
  intros H. apply firstn_all2. rewrite length_firstn in H. lia.
Qed.

(** What [sanitizeCommandName] cuts to 50 characters: nothing, or a name in
    kebab case that does not end with a hyphen. *)
Lemma sanitize_stages (s : jsstring) :
  exists s6,
    sanitizeCommandName s = firstn 50 s6
    /\ (s6 = [] \/ (is_kebab s6 = true /\ ends_with_hyphen s6 = false)).
Proof.
  unfold sanitizeCommandName.
  destruct (Nat.eqb (length (trim (remove_chars (fun c => negb (is_ascii c)) s))) 0);
    [exists []; split; [reflexivity|now left]|].
  cbv zeta. unfold substring_to.
  set (s2 := remove_chars _ (toLowerCase _)).
  set (s3 := replace_runs is_whitespace [hyphen] s2).
  set (s4 := dropWhile (fun c => negb (is_letter c)) s3).
  set (s5 := replace_runs is_hyphen [hyphen] s4).
  set (s6 := dropWhileEnd is_hyphen (dropWhile is_hyphen s5)).
  exists s6. split; [reflexivity|].
  assert (H3 : forallb is_kebab_char s3 = true).
  { apply forallb_replace_runs_from; [|reflexivity].
    unfold s2, remove_chars, toLowerCase. apply forallb_forall. intros x Hx.
    apply filter_In in Hx as [Hin Hx]. rewrite negb_involutive in Hx.
    apply in_map_iff in Hin as (y & <- & _).
    rewrite is_letter_lowered in Hx. unfold is_kebab_char.
    destruct (is_lower (lower_char y)), (is_digit (lower_char y)),
      (is_whitespace (lower_char y)), (is_hyphen (lower_char y));
      simpl in *; congruence. }
  assert (H4 : forallb is_kebab_char s4 = true)
    by now apply forallb_dropWhile_suffix.
  assert (H5 : forallb is_kebab_char s5 = true).
  { apply forallb_replace_runs_from; [|reflexivity].
    apply forallb_forall. intros x Hx.
    rewrite forallb_forall in H4. rewrite (H4 x Hx). apply orb_true_r. }
  assert (L5 : starts_with_letter s5)
    by apply starts_with_letter_collapse, starts_with_letter_dropWhile.
  assert (D5 : no_double_hyphen s5 = true)
    by apply no_double_hyphen_collapse.
  assert (H6 : forallb is_kebab_char s6 = true)
    by now apply forallb_dropWhileEnd, forallb_dropWhile_suffix.
  assert (L6 : starts_with_letter s6).
  { unfold s6. rewrite dropWhile_hyphen_id by exact L5.
    now apply starts_with_letter_dropWhileEnd. }
  assert (D6 : no_double_hyphen s6 = true).
  { unfold s6. destruct (dropWhileEnd_prefix is_hyphen (dropWhile is_hyphen s5))
      as [t Ht].
    apply no_double_hyphen_app_l with (b := t). rewrite <- Ht.
    now apply no_double_hyphen_dropWhile. }
  assert (E6 : ends_with_hyphen s6 = false).
  { unfold ends_with_hyphen, s6, dropWhileEnd. rewrite rev_involutive.
    destruct (dropWhile is_hyphen (rev (dropWhile is_hyphen s5))) as [|c r] eqn:E;
      [reflexivity|].
    now apply dropWhile_head in E. }
  destruct s6 as [|c r] eqn:E; [now left|right].
  split; [|exact E6]. unfold is_kebab. rewrite H6, D6, !andb_true_r.
  simpl in L6. apply letter_kebab_is_lower; [exact L6|].
  simpl in H6. now apply andb_true_iff in H6 as [H6 _].
Qed.

Lemma is_kebab_firstn (n : nat) (s : jsstring) :
  is_kebab s = true -> firstn n s = [] \/ is_kebab (firstn n s) = true.
Proof.
  unfold is_kebab. intros H.
  apply andb_true_iff in H as [H Hd]. apply andb_true_iff in H as [Hl Hk].
  destruct n as [|n]; [now left|]. destruct s as [|c r]; [discriminate|right].
  apply andb_true_iff. split; [apply andb_true_iff; split|].
  - exact Hl.
  - now apply forallb_firstn.
  - apply no_double_hyphen_app_l with (b := skipn (S n) (c :: r)).
    now rewrite firstn_skipn.
Qed.

(** The names that [sanitizeCommandName] gives are written in kebab case:
    lower-case letters, digits and single hyphens after a first letter. *)
Theorem sanitized_name_is_kebab (s : jsstring) :
  sanitizeCommandName s = [] \/ is_kebab (sanitizeCommandName s) = true.
Proof.
  destruct (sanitize_stages s) as (s6 & -> & [->|[Hk _]]).
  - left. apply firstn_nil.
  - now apply is_kebab_firstn.
Qed.

(** Sanitizing twice gives what sanitizing once gives, for every name
    whose sanitized form has fewer than 50 characters. *)
Theorem sanitize_is_idempotent (s : jsstring) :
  length (sanitizeCommandName s) < 50 ->
  sanitizeCommandName (sanitizeCommandName s) = sanitizeCommandName s.
Proof.
  destruct (sanitize_stages s) as (s6 & -> & H). intros Hlen.
  pose proof (@firstn_short _ _ _ Hlen) as E. rewrite E in Hlen |- *. clear E.
  destruct H as [->|[Hk He]]; [reflexivity|].
  unfold is_kebab in Hk.
  apply andb_true_iff in Hk as [Hk Hd]. apply andb_true_iff in Hk as [Hl Hk].
  destruct s6 as [|c r]; [discriminate|].
  apply sanitize_fixed_point; try assumption. lia.
Qed.

Lemma sanitize_is_idempotent_witness :
  sanitizeCommandName (sanitizeCommandName (js "Database Reset!"))
  = sanitizeCommandName (js "Database Reset!").
Proof.
  apply sanitize_is_idempotent. vm_compute. lia.
Defined.

(** ** Prose command files *)

Section Prose.
Context {api : NodeApi}.

(** The shell command that the scan finds does not depend on the
    description found so far. *)
Lemma scanLines_shell_any_description (lines : list jsstring) (inCodeBlock : bool)
    (code d d' : jsstring) :
  snd (scanLines lines inCodeBlock code d) = snd (scanLines lines inCodeBlock code d').
Proof.
  revert inCodeBlock code d d'.
  induction lines as [|line rest IH]; intros inCodeBlock code d d'; [reflexivity|].
  cbn [scanLines]. cbv zeta.
  destruct (startsWith (fence ++ js "bash") (trim line)
            || startsWith (fence ++ js "sh") (trim line)
            || startsWith (fence ++ js "shell") (trim line)); [apply IH|].
  destruct (str_eqb (trim line) fence && inCodeBlock).
  - destruct (negb (is_empty (trim code))); [reflexivity|apply IH].
  - apply IH.
Qed.

(** Outside a block, lines that open no shell block leave the scan where
    it was. *)
Lemma scanLines_outside (pre rest : list jsstring) (code d : jsstring) :
  Forall (fun l => opens_shell_block l = false) pre ->
  snd (scanLines (pre ++ rest) false code d) = snd (scanLines rest false code d).
Proof.
  intros H. revert d. induction H as [|line pre Ho _ IH]; intros d; [reflexivity|].
  rewrite <- app_comm_cons. cbn [scanLines]. cbv zeta.
  unfold opens_shell_block in Ho. rewrite Ho, andb_false_r.
  rewrite <- (IH d). apply scanLines_shell_any_description.
Qed.

(** Inside a block, lines that neither open a shell block nor close the
    block are added to its content, each with its line feed. *)
Lemma scanLines_inside (body rest : list jsstring) (code d : jsstring) :
  Forall (fun l => opens_shell_block l = false /\ str_eqb (trim l) fence = false)
    body ->
  snd (scanLines (body ++ rest) true code d)
  = snd (scanLines rest true
           (code ++ concat (map (fun l => l ++ [10%N]) body)) d).
Proof.
  intros H. revert code d.
  induction H as [|line body [Ho Hc] _ IH]; intros code d.
  - simpl. now rewrite app_nil_r.
  - rewrite <- app_comm_cons. cbn [scanLines]. cbv zeta.
    unfold opens_shell_block in Ho. rewrite Ho, Hc. cbn [andb].
    rewrite (scanLines_shell_any_description _ _ _ _ d), IH.
    cbn [map concat]. now rewrite <- !app_assoc.
Qed.

(** Without a line that closes a block, and without a line that opens a
    shell block, the scan finds no shell command. *)
Lemma scanLines_never_closed (lines : list jsstring) (inCodeBlock : bool)
    (code d : jsstring) :
  Forall (fun l => str_eqb (trim l) fence = false) lines ->
  snd (scanLines lines inCodeBlock code d) = [].
Proof.
  intros H. revert inCodeBlock code d.
  induction H as [|line rest Hc _ IH]; intros inCodeBlock code d; [reflexivity|].
  cbn [scanLines]. cbv zeta. rewrite Hc. cbn [andb].
  destruct (startsWith (fence ++ js "bash") (trim line)
            || startsWith (fence ++ js "sh") (trim line)
            || startsWith (fence ++ js "shell") (trim line)); apply IH.
Qed.

Lemma scanLines_never_opened (lines : list jsstring) (code d : jsstring) :
  Forall (fun l => opens_shell_block l = false) lines ->
  snd (scanLines lines false code d) = [].
Proof.
  intros H. rewrite <- (app_nil_r lines). now rewrite scanLines_outside.
Qed.

(** The shell command of a prose file is the content of its first shell
    block, trimmed, when that block has text: the lines between the first
    line that opens a block tagged [bash], [sh] or [shell] and the next
    line that is a bare fence. *)
Theorem first_shell_block (content : jsstring) (pre body rest : list jsstring)
    (opener closer : jsstring) :
  split_lines content = pre ++ opener :: body ++ closer :: rest ->
  Forall (fun l => opens_shell_block l = false) pre ->
  opens_shell_block opener = true ->
  Forall (fun l => opens_shell_block l = false /\ str_eqb (trim l) fence = false)
    body ->
  str_eqb (trim closer) fence = true ->
  trim (concat (map (fun l => l ++ [10%N]) body)) <> [] ->
  extractShellCommand content = trim (concat (map (fun l => l ++ [10%N]) body)).
Proof.
  intros Hs Hpre Hopen Hbody Hclose Htext.
  unfold extractShellCommand. rewrite Hs.
  rewrite scanLines_outside by exact Hpre.
  cbn [scanLines]. cbv zeta.
  unfold opens_shell_block in Hopen. rewrite Hopen.
  rewrite scanLines_inside by exact Hbody.
  cbn [scanLines app]. cbv zeta. rewrite Hclose. cbn [andb].
  apply str_eqb_eq in Hclose. rewrite Hclose.
  replace (startsWith (fence ++ js "bash") fence
           || startsWith (fence ++ js "sh") fence
           || startsWith (fence ++ js "shell") fence) with false by reflexivity.
  destruct (trim (concat (map (fun l => l ++ [10%N]) body))); [congruence|reflexivity].
Qed.

(** The command name of a prose file is the sanitized title when that is
    not empty, else the sanitized base name of the file; when both are
    empty the file gives no command. Reading the file being possible, the
    parser raises nothing. *)
Theorem markdown_name_choice (fs : FileSystem) (filePath content : jsstring) :
  fs_readFile fs filePath = Ok content ->
  let fromTitle := sanitizeCommandName (extractTitle (split_lines content)) in
  let fromFile :=
    sanitizeCommandName (path_basename filePath (path_extname filePath)) in
  match Eff.result (loadMarkdownCommand fs filePath) with
  | Ok (Some c) =>
      name c = JStr (if is_empty fromTitle then fromFile else fromTitle)
      /\ (fromTitle <> [] \/ fromFile <> [])
  | Ok None => fromTitle = [] /\ fromFile = []
  | Throw _ => False
  end.
Proof.
  intros Hr fromTitle fromFile.
  unfold loadMarkdownCommand, Eff.await. rewrite Hr. simpl.
  destruct (scanLines (split_lines content) false [] []) as [d sh].
  fold fromTitle fromFile. unfold str_or.
  destruct fromTitle as [|c r]; simpl.
  - destruct fromFile as [|c r]; simpl; [now split|].
    split; [reflexivity|right; discriminate].
  - split; [reflexivity|left; discriminate].
Qed.

(** The action of the record of a prose file. *)
Lemma markdown_action (fs : FileSystem) (filePath : jsstring) (c : SlashCommand) :
  Eff.result (loadMarkdownCommand fs filePath) = Ok (Some c) ->
  exists content,
    fs_readFile fs filePath = Ok content
    /\ ((extractShellCommand content <> []
         /\ action c = Some (MarkdownShellAction (extractShellCommand content))
         /\ field (metadata c) "canExecuteShell" = JBool true)
        \/ (extractShellCommand content = []
            /\ action c = Some (MarkdownPromptAction content)
            /\ field (metadata c) "canExecuteShell" = JUndefined)).
Proof.
  unfold loadMarkdownCommand, Eff.await, extractShellCommand.
  destruct (fs_readFile fs filePath) as [content|e]; [|discriminate].
  simpl.
  destruct (scanLines (split_lines content) false [] []) as [d sh] eqn:E.
  destruct (is_empty (str_or _ _)); [discriminate|].
  simpl. intros H. injection H as <-. simpl.
  exists content. split; [reflexivity|]. rewrite E.
  destruct sh as [|x sh]; simpl.
  - right. repeat split.
  - left. repeat split. discriminate.
Qed.

(** Every record of a prose file has a description that is not empty and
    an action: the shell request when the file has a shell block with text,
    marked as able to run the shell, else the prompt made of the text of the
    file. It has no alias. *)
Theorem markdown_record_shape (fs : FileSystem) (filePath : jsstring)
    (c : SlashCommand) :
  Eff.result (loadMarkdownCommand fs filePath) = Ok (Some c) ->
  (exists d, description c = JStr d /\ d <> [])
  /\ altName c = JUndefined
  /\ exists content,
       fs_readFile fs filePath = Ok content
       /\ ((extractShellCommand content <> []
            /\ action c = Some (MarkdownShellAction (extractShellCommand content))
            /\ field (metadata c) "canExecuteShell" = JBool true)
           \/ (extractShellCommand content = []
               /\ action c = Some (MarkdownPromptAction content)
               /\ field (metadata c) "canExecuteShell" = JUndefined)).
Proof.
  intros Hc. split; [|split; [|now apply markdown_action]];
    revert Hc; unfold loadMarkdownCommand, Eff.await;
    (destruct (fs_readFile fs filePath) as [content|e]; [|discriminate]);
    simpl;
    destruct (scanLines (split_lines content) false [] []) as [d sh];
    (destruct (is_empty (str_or _ _)); [discriminate|]);
    simpl; intros H; injection H as <-; simpl.
  - eexists. split; [reflexivity|].
    unfold str_or. destruct d; [|discriminate].
    simpl. destruct (extractTitle (split_lines content)); discriminate.
  - reflexivity.
Qed.

(** A prose file without a line that opens a shell block, or without a
    line that is a bare fence, has no shell command: its action is the
    prompt. *)
Theorem prose_without_block_is_prompt (fs : FileSystem)
    (filePath content : jsstring) (c : SlashCommand) :
  fs_readFile fs filePath = Ok content ->
  Forall (fun l => opens_shell_block l = false) (split_lines content)
  \/ Forall (fun l => str_eqb (trim l) fence = false) (split_lines content) ->
  Eff.result (loadMarkdownCommand fs filePath) = Ok (Some c) ->
  action c = Some (MarkdownPromptAction content)
  /\ forall context args,
       Eff.result (markdownPromptAction content context args)
       = Ok (AiPromptActionReturn
               (if is_empty (trim args) then trim content
                else trim content ++ [10%N; 10%N] ++ trim args)).
Proof.
  intros Hr Hlines Hc.
  assert (Hsh : extractShellCommand content = []).
  { unfold extractShellCommand. destruct Hlines as [H|H].
    - now apply scanLines_never_opened.
    - now apply scanLines_never_closed. }
  destruct (markdown_action _ _ Hc) as (content' & Hr' & H).
  rewrite Hr in Hr'. injection Hr' as <-.
  split.
  - destruct H as [[Hne _]|[_ [Ha _]]]; [congruence|exact Ha].
  - intros context args. unfold markdownPromptAction. simpl.
    destruct args as [|x args]; [reflexivity|].
    simpl negb. now destruct (is_empty (trim (x :: args))).
Qed.
End Prose.

Lemma first_shell_block_witness :
  extractShellCommand build_md
  = trim (concat (map (fun l => l ++ [10%N]) [js "npm run build"])).
Proof.
  apply (@first_shell_block build_md [js "# Build"] [js "npm run build"] []
           (fence ++ js "bash") fence).
  - reflexivity.
  - repeat constructor.
  - reflexivity.
  - repeat constructor.
  - reflexivity.
  - vm_compute. discriminate.
Defined.

Lemma markdown_name_choice_witness :
  let fromTitle := sanitizeCommandName (extractTitle (split_lines deploy_md)) in
  let fromFile :=
    sanitizeCommandName
      (@path_basename sample_api (js "/work/.gemini/commands/deploy.md")
         (@path_extname sample_api (js "/work/.gemini/commands/deploy.md"))) in
  match Eff.result (@loadMarkdownCommand sample_api prose_fs
                      (js "/work/.gemini/commands/deploy.md")) with
  | Ok (Some c) =>
      name c = JStr (if is_empty fromTitle then fromFile else fromTitle)
      /\ (fromTitle <> [] \/ fromFile <> [])
  | Ok None => fromTitle = [] /\ fromFile = []
  | Throw _ => False
  end.
Proof.
  exact (@markdown_name_choice sample_api prose_fs
           (js "/work/.gemini/commands/deploy.md") deploy_md eq_refl).
Defined.

Lemma markdown_record_shape_witness :
  (exists d, description build_md_record = JStr d /\ d <> [])
  /\ altName build_md_record = JUndefined
  /\ exists content,
       fs_readFile prose_fs (js "/work/.gemini/commands/build.md") = Ok content
       /\ ((extractShellCommand content <> []
            /\ action build_md_record
               = Some (MarkdownShellAction (extractShellCommand content))
            /\ field (metadata build_md_record) "canExecuteShell" = JBool true)
           \/ (extractShellCommand content = []
               /\ action build_md_record = Some (MarkdownPromptAction content)
               /\ field (metadata build_md_record) "canExecuteShell" = JUndefined)).
Proof.
  exact (@markdown_record_shape sample_api prose_fs
           (js "/work/.gemini/commands/build.md") build_md_record eq_refl).
Defined.

Lemma prose_without_block_is_prompt_witness :
  action deploy_md_record = Some (MarkdownPromptAction deploy_md).
Proof.
  refine (proj1 (@prose_without_block_is_prompt sample_api prose_fs
                   (js "/work/.gemini/commands/deploy.md") deploy_md
                   deploy_md_record eq_refl _ eq_refl)).
  left. repeat constructor.
Defined.

(** ** What a loaded record is made of *)

Lemma bind_result_inv (A B : Type) (m : Eff.t A) (k : A -> Eff.t B) (b : B) :
  Eff.result (Eff.bind m k) = Ok b ->
  exists a, Eff.result m = Ok a /\ Eff.result (k a) = Ok b.
Proof.
  destruct m as [ev [a|e]]; simpl; [|discriminate].
  intros H. exists a. split; [reflexivity|]. now destruct (k a).
Qed.

Lemma try_catch_result_inv (A : Type) (body : Eff.t A)
    (handler : Exception -> Eff.t A) (a : A) :
  Eff.result (Eff.try_catch body handler) = Ok a ->
  Eff.result body = Ok a
  \/ exists e, Eff.result body = Throw e /\ Eff.result (handler e) = Ok a.
Proof.
  destruct body as [ev [x|e]]; simpl; [now left|].
  intros H. right. exists e. split; [reflexivity|]. now destruct (handler e).
Qed.

Lemma when_result (b : bool) (m : Eff.t unit) :
  Eff.result m = Ok tt -> Eff.result (Eff.when b m) = Ok tt.
Proof. now destruct b. Qed.

(** The validations of the elements of [command.subCommands]. *)
Lemma validateCommand_unfold (command : JSValue) :
  validateCommand command
  = validateCommand_body command
      (match field command "subCommands" with
       | JArr l => map validateCommand l
       | _ => []
       end).
Proof.
  destruct command as [| | | | | |props|]; try reflexivity.
  unfold field, prop. cbn [validateCommand]. f_equal.
  induction props as [|[k v] props IH]; [reflexivity|].
  cbn [lookup_prop]. destruct (str_eqb (js "subCommands") k); [|exact IH].
  now destruct v.
Qed.

Lemma subCommand_defects_none (i : nat) (subs : list (Eff.t (option JSValue))) :
  Eff.result (subCommand_defects i subs) = Ok [] ->
  Forall (fun sub => exists v, Eff.result sub = Ok (Some v)) subs.
Proof.
  revert i. induction subs as [|sub rest IH]; intros i H; [constructor|].
  cbn [subCommand_defects] in H.
  apply bind_result_inv in H as (r & Hr & H).
  apply bind_result_inv in H as (ds & Hds & H).
  simpl in H. injection H as H.
  destruct r as [v|]; [|discriminate]. subst ds.
  constructor; [now exists v|]. now apply (IH (S i)).
Qed.

(** What [validateCommand] has checked of a value that it accepts. *)
Lemma validateCommand_accepts (command v : JSValue) :
  Eff.result (validateCommand command) = Ok (Some v) ->
  v = command
  /\ (exists s, field command "name" = JStr s /\ name_pattern s = true)
  /\ string_defect (js "description") (field command "description") = []
  /\ (truthy (field command "altName") = true ->
      exists a, field command "altName" = JStr a /\ name_pattern a = true)
  /\ (truthy (field command "action") = true ->
      is_function (field command "action") = true)
  /\ (truthy (field command "completion") = true ->
      is_function (field command "completion") = true)
  /\ (truthy (field command "subCommands") = true ->
      exists l, field command "subCommands" = JArr l
                /\ Forall (fun x => exists v', Eff.result (validateCommand x)
                                               = Ok (Some v')) l)
  /\ (truthy (field command "metadata") = true ->
      is_object (field command "metadata") = true
      /\ metadata_defects (field command "metadata") = []).
Proof.
  rewrite validateCommand_unfold. unfold validateCommand_body.
  destruct (get_prop command (js "name")) as [x|e]; [|discriminate].
  intros H. apply bind_result_inv in H as (sd & Hsd & H).
  apply bind_result_inv in H as (u & _ & H).
  match type of H with
  | Eff.result (if Nat.ltb 0 (length ?errs) then _ else _) = _ =>
      destruct errs as [|d0 errs0] eqn:E; [|discriminate]
  end.
  simpl in H. injection H as <-.
  apply app_eq_nil in E as [En E]. apply app_eq_nil in E as [Ed E].
  apply app_eq_nil in E as [Ea E]. apply app_eq_nil in E as [Ef E].
  apply app_eq_nil in E as [Ec E]. apply app_eq_nil in E as [Es Em].
  subst sd.
  split; [reflexivity|]. split; [|split; [exact Ed|]].
  { destruct (is_string (field command "name")) eqn:Hs;
      [|rewrite orb_true_r in En; discriminate En].
    destruct (field command "name") as [| | | |s| | |]; try discriminate Hs.
    exists s. split; [reflexivity|]. simpl in En.
    destruct (is_empty s); [discriminate|]. simpl in En.
    now destruct (name_pattern s). }
  split; [|split; [|split; [|split]]].
  - intros Ht. rewrite Ht in Ea.
    destruct (is_string (field command "altName")) eqn:Hs; [|discriminate].
    destruct (field command "altName") as [| | | |a| | |]; try discriminate Hs.
    exists a. split; [reflexivity|]. simpl in Ea.
    now destruct (name_pattern a).
  - intros Ht. rewrite Ht in Ef.
    now destruct (is_function (field command "action")).
  - intros Ht. rewrite Ht in Ec.
    now destruct (is_function (field command "completion")).
  - intros Ht. rewrite Ht in Hsd.
    destruct (field command "subCommands") as [| | | | |l| |];
      try discriminate Hsd.
    exists l. split; [reflexivity|].
    apply subCommand_defects_none in Hsd.
    rewrite Forall_map in Hsd. exact Hsd.
  - intros Ht. rewrite Ht in Em.
    destruct (is_object (field command "metadata")); [|discriminate].
    now split.
Qed.

(** A module's export that [validateCommand] accepts is returned as it is:
    its name is a string that follows the naming rule; its description, if
    any, is a string; its alias, if any, follows the naming rule; its action
    and its completion, if any, are functions; and its sub-commands, if
    any, form an array of values that [validateCommand] accepts in turn. *)
Theorem validated_export (command v : JSValue) :
  Eff.result (validateCommand command) = Ok (Some v) ->
  v = command
  /\ (exists s, field command "name" = JStr s /\ name_pattern s = true)
  /\ (truthy (field command "description") = true ->
      is_string (field command "description") = true)
  /\ (truthy (field command "altName") = true ->
      exists a, field command "altName" = JStr a /\ name_pattern a = true)
  /\ (truthy (field command "action") = true ->
      is_function (field command "action") = true)
  /\ (truthy (field command "completion") = true ->
      is_function (field command "completion") = true)
  /\ (truthy (field command "subCommands") = true ->
      exists l, field command "subCommands" = JArr l
                /\ Forall (fun x => Eff.result (validateCommand x) = Ok (Some x)) l).
Proof.
  intros H.
  destruct (validateCommand_accepts _ H) as (Hv & Hn & Hd & Ha & Hf & Hc & Hs & _).
  repeat split; try assumption.
  - intros Ht. unfold string_defect in Hd. rewrite Ht in Hd.
    now destruct (is_string (field command "description")).
  - intros Ht. destruct (Hs Ht) as (l & Hl & Hall). exists l. split; [exact Hl|].
    apply Forall_forall. intros x Hx. rewrite Forall_forall in Hall.
    destruct (Hall x Hx) as [v' Hv'].
    destruct (validateCommand_accepts _ Hv') as [-> _]. exact Hv'.
Qed.

Lemma validated_export_witness :
  deploy_export = deploy_export
  /\ (exists s, field deploy_export "name" = JStr s /\ name_pattern s = true)
  /\ (truthy (field deploy_export "description") = true ->
      is_string (field deploy_export "description") = true)
  /\ (truthy (field deploy_export "altName") = true ->
      exists a, field deploy_export "altName" = JStr a /\ name_pattern a = true)
  /\ (truthy (field deploy_export "action") = true ->
      is_function (field deploy_export "action") = true)
  /\ (truthy (field deploy_export "completion") = true ->
      is_function (field deploy_export "completion") = true)
  /\ (truthy (field deploy_export "subCommands") = true ->
      exists l, field deploy_export "subCommands" = JArr l
                /\ Forall (fun x => Eff.result (validateCommand x) = Ok (Some x)) l).
Proof. exact (@validated_export deploy_export deploy_export eq_refl). Defined.

Section Files.
Context {api : NodeApi}.
Variable self : CustomCommandLoader.
Variable fs : FileSystem.

(** A record is what the parser of its format gives, with the metadata of
    the parser written over the stamp of the loader. *)
Lemma file_record_inv (filePath : jsstring) (scope : CommandScope)
    (c : SlashCommand) :
  file_record self fs filePath scope = Some c ->
  exists f c0,
    getSourceFormat (toLowerCase (path_extname filePath)) = Some f
    /\ Eff.result (match f with
                   | typescript => loadTypeScriptCommand fs filePath
                   | json => loadJsonCommand self fs filePath
                   | yaml => loadYamlCommand filePath
                   | markdown => loadMarkdownCommand fs filePath
                   end) = Ok (Some c0)
    /\ c = set_metadata c0
             (JObj (spread_over
                      [ (js "scope", JStr (scope_name scope));
                        (js "sourceFormat", JStr (format_name f));
                        (js "sourcePath", JStr filePath) ]
                      (metadata c0))).
Proof.
  unfold file_record, loadCommandFromFile.
  destruct (getSourceFormat (toLowerCase (path_extname filePath))) as [f|];
    [|now destruct (debugMode self)].
  match goal with
  | |- match Eff.result ?m with _ => _ end = _ -> _ =>
      destruct (Eff.result m) as [r|e] eqn:E; [|discriminate]
  end.
  intros ->. exists f.
  apply try_catch_result_inv in E as [E|(e & _ & E)]; [|discriminate].
  apply bind_result_inv in E as (r & Hr & E).
  destruct r as [c0|]; [|discriminate].
  exists c0. split; [reflexivity|]. split; [exact Hr|].
  apply bind_result_inv in E as (u & _ & E). simpl in E. now injection E.
Qed.

(** A record comes from a file whose extension, in lower case, is one of
    [.ts], [.js], [.json], [.md] and [.markdown]: files of another type,
    YAML files included, give no command. *)
Theorem record_needs_supported_extension (filePath : jsstring)
    (scope : CommandScope) (c : SlashCommand) :
  file_record self fs filePath scope = Some c ->
  In (toLowerCase (path_extname filePath))
     [js ".ts"; js ".js"; js ".json"; js ".md"; js ".markdown"].
Proof.
  intros H. apply file_record_inv in H as (f & c0 & Hf & Hr & _).
  unfold getSourceFormat in Hf.
  set (ext := toLowerCase (path_extname filePath)) in *.
  destruct (str_eqb ext (js ".ts")) eqn:E1;
    [apply str_eqb_eq in E1; rewrite E1; now left|].
  destruct (str_eqb ext (js ".js")) eqn:E2;
    [apply str_eqb_eq in E2; rewrite E2; right; now left|].
  destruct (str_eqb ext (js ".json")) eqn:E3;
    [apply str_eqb_eq in E3; rewrite E3; right; right; now left|].
  simpl in Hf.
  destruct (str_eqb ext (js ".yaml") || str_eqb ext (js ".yml"));
    [injection Hf as <-; discriminate Hr|].
  destruct (str_eqb ext (js ".md")) eqn:E4;
    [apply str_eqb_eq in E4; rewrite E4; right; right; right; now left|].
  destruct (str_eqb ext (js ".markdown")) eqn:E5;
    [apply str_eqb_eq in E5; rewrite E5; do 4 right; now left|].
  discriminate Hf.
Qed.

Lemma createSimpleCommand_name (config : JSValue) (c : SlashCommand) :
  Eff.result (createSimpleCommand self config) = Ok (Some c) ->
  exists s, name c = JStr s /\ name_pattern s = true.
Proof.
  unfold createSimpleCommand.
  destruct (validateSimpleCommand config) as [errors|e] eqn:Hv; [|discriminate].
  simpl. destruct errors as [|d errors]; [|discriminate].
  simpl. intros H. injection H as <-. simpl.
  unfold validateSimpleCommand in Hv.
  destruct (get_prop config (js "name")); [|discriminate].
  injection Hv as Hv. unfold simple_defects in Hv.
  apply app_eq_nil in Hv as [Hn _].
  destruct (is_string (field config "name")) eqn:Es;
    [|rewrite orb_true_r in Hn; discriminate Hn].
  destruct (field config "name") as [| | | |s| | |]; try discriminate Es.
  exists s. split; [reflexivity|].
  simpl in Hn. destruct (is_empty s); [discriminate|]. simpl in Hn.
  now destruct (name_pattern s).
Qed.

Lemma loadJsonCommand_inv (filePath : jsstring) (c : SlashCommand) :
  Eff.result (loadJsonCommand self fs filePath) = Ok (Some c) ->
  exists content config,
    fs_readFile fs filePath = Ok content
    /\ JSON_parse content = Some config
    /\ Eff.result (createSimpleCommand self config) = Ok (Some c).
Proof.
  unfold loadJsonCommand. intros H.
  apply try_catch_result_inv in H as [H|(e & _ & H)];
    [|destruct e; discriminate].
  apply bind_result_inv in H as (content & Hc & H).
  apply bind_result_inv in H as (config & Hp & H).
  apply bind_result_inv in H as (r & Hr & H).
  exists content, config. split; [exact Hc|]. split.
  - simpl in Hp. now destruct (JSON_parse content); [injection Hp as ->|].
  - destruct r as [c'|]; simpl in H; [|discriminate]. now injection H as ->.
Qed.

Lemma loadTypeScriptCommand_inv (filePath : jsstring) (c : SlashCommand) :
  Eff.result (loadTypeScriptCommand fs filePath) = Ok (Some c) ->
  exists exports,
    import_module fs filePath = Ok exports
    /\ Eff.result (validateCommand (js_or (fst exports) (snd exports)))
       = Ok (Some (js_or (fst exports) (snd exports)))
    /\ c = as_SlashCommand (js_or (fst exports) (snd exports)).
Proof.
  unfold loadTypeScriptCommand. intros H.
  apply try_catch_result_inv in H as [H|(e & _ & H)]; [|discriminate].
  apply bind_result_inv in H as (exports & He & H).
  exists exports. split; [exact He|].
  destruct (negb (truthy (js_or (fst exports) (snd exports)))
            || negb (is_object (js_or (fst exports) (snd exports))));
    [discriminate|].
  apply bind_result_inv in H as (r & Hr & H).
  destruct r as [v|]; [|discriminate]. simpl in H. injection H as <-.
  destruct (validateCommand_accepts _ Hr) as [-> _]. now split.
Qed.

Lemma is_kebab_name_pattern (s : jsstring) :
  is_kebab s = true -> name_pattern s = true.
Proof.
  unfold is_kebab. intros H.
  apply andb_true_iff in H as [H _]. apply andb_true_iff in H as [Hl Hk].
  destruct s as [|c r]; [discriminate|]. simpl in *.
  apply andb_true_iff in Hk as [_ Hk].
  unfold is_letter. rewrite Hl, orb_true_r. simpl.
  apply forallb_impl with (p := is_kebab_char); [|exact Hk].
  intros x Hx. unfold is_kebab_char in Hx. unfold is_letter.
  destruct (is_lower x), (is_digit x), (is_hyphen x), (is_upper x);
    simpl in *; congruence.
Qed.

Lemma sanitized_name_pattern (s : jsstring) :
  sanitizeCommandName s <> [] -> name_pattern (sanitizeCommandName s) = true.
Proof.
  destruct (sanitize_stages s) as (s6 & -> & [->|[Hk _]]).
  - now rewrite firstn_nil.
  - intros Hne. apply is_kebab_name_pattern.
    now destruct (is_kebab_firstn 50 _ Hk).
Qed.

Lemma loadMarkdownCommand_name (filePath : jsstring) (c : SlashCommand) :
  Eff.result (loadMarkdownCommand fs filePath) = Ok (Some c) ->
  exists s, name c = JStr s /\ name_pattern s = true.
Proof.
  unfold loadMarkdownCommand, Eff.await.
  destruct (fs_readFile fs filePath) as [content|e]; [|discriminate].
  simpl. destruct (scanLines (split_lines content) false [] []) as [d sh].
  unfold str_or.
  destruct (sanitizeCommandName (extractTitle (split_lines content)))
    as [|x t] eqn:Et; simpl.
  - destruct (sanitizeCommandName (path_basename filePath (path_extname filePath)))
      as [|y b] eqn:Eb; simpl; [discriminate|].
    intros H. injection H as <-. simpl. eexists. split; [reflexivity|].
    rewrite <- Eb. apply sanitized_name_pattern. now rewrite Eb.
  - intros H. injection H as <-. simpl. eexists. split; [reflexivity|].
    rewrite <- Et. apply sanitized_name_pattern. now rewrite Et.
Qed.

(** Whatever its format, a loaded record has a name that is a string and
    follows the naming rule of commands. *)
Theorem loaded_name_is_valid (filePath : jsstring) (scope : CommandScope)
    (c : SlashCommand) :
  file_record self fs filePath scope = Some c ->
  exists s, name c = JStr s /\ name_pattern s = true.
Proof.
  intros H. apply file_record_inv in H as (f & c0 & _ & Hr & ->).
  change (exists s, name c0 = JStr s /\ name_pattern s = true).
  destruct f.
  - apply loadTypeScriptCommand_inv in Hr as (exports & _ & Hv & ->).
    destruct (validateCommand_accepts _ Hv) as (_ & Hn & _). exact Hn.
  - apply loadJsonCommand_inv in Hr as (content & config & _ & _ & Hc).
    now apply createSimpleCommand_name in Hc.
  - discriminate Hr.
  - now apply loadMarkdownCommand_name in Hr.
Qed.

(** A module that exports no metadata, or a falsy one, gets the stamp of
    the loader as it is: the scope of the directory, the format and the path
    of the file. *)
Theorem module_without_metadata_is_stamped (filePath : jsstring)
    (scope : CommandScope) (exports : JSValue * JSValue) (c : SlashCommand) :
  getSourceFormat (toLowerCase (path_extname filePath)) = Some typescript ->
  import_module fs filePath = Ok exports ->
  truthy (field (js_or (fst exports) (snd exports)) "metadata") = false ->
  file_record self fs filePath scope = Some c ->
  metadata c = JObj [ (js "scope", JStr (scope_name scope));
                      (js "sourceFormat", JStr (js "typescript"));
                      (js "sourcePath", JStr filePath) ].
Proof.
  intros Hf Hi Hm H. apply file_record_inv in H as (f & c0 & Hf' & Hr & ->).
  rewrite Hf in Hf'. injection Hf' as <-.
  apply loadTypeScriptCommand_inv in Hr as (exports' & Hi' & _ & ->).
  rewrite Hi in Hi'. injection Hi' as <-.
  simpl.
  destruct (field (js_or (fst exports) (snd exports)) "metadata")
    as [| |b|n|s| | |]; try discriminate Hm; try reflexivity.
  - simpl in Hm. apply negb_false_iff in Hm.
    destruct s; [reflexivity|discriminate Hm].
Qed.

(** A record loaded from a JSON file or from a prose file carries the path
    of its file as [sourcePath] and the format of the file as
    [sourceFormat]. *)
Theorem file_stamp (filePath : jsstring) (scope : CommandScope)
    (f : CommandSourceFormat) (c : SlashCommand) :
  getSourceFormat (toLowerCase (path_extname filePath)) = Some f ->
  f = json \/ f = markdown ->
  file_record self fs filePath scope = Some c ->
  field (metadata c) "sourcePath" = JStr filePath
  /\ field (metadata c) "sourceFormat" = JStr (format_name f).
Proof.
  intros Hf Hjm H. apply file_record_inv in H as (f' & c0 & Hf' & Hr & ->).
  rewrite Hf in Hf'. injection Hf' as <-.
  destruct Hjm as [->| ->].
  - apply loadJsonCommand_inv in Hr as (content & config & _ & _ & Hc).
    unfold createSimpleCommand in Hc.
    destruct (validateSimpleCommand config) as [errors|e]; [|discriminate].
    simpl in Hc. destruct errors; [|discriminate].
    simpl in Hc. injection Hc as <-. now split.
  - destruct (markdown_action _ _ Hr) as (content & Hc & _).
    revert Hr. unfold loadMarkdownCommand, Eff.await. rewrite Hc. simpl.
    destruct (scanLines (split_lines content) false [] []) as [d sh].
    destruct (is_empty (str_or _ _)); [discriminate|].
    simpl. intros H. injection H as <-.
    now destruct sh; split.
Qed.
End Files.

Lemma record_needs_supported_extension_witness :
  In (toLowerCase (@path_extname sample_api (js "/work/.gemini/commands/build.json")))
     [js ".ts"; js ".js"; js ".json"; js ".md"; js ".markdown"].
Proof.
  exact (@record_needs_supported_extension sample_api sample_loader sample_fs
           (js "/work/.gemini/commands/build.json") project sample_build_record
           eq_refl).
Defined.

Lemma loaded_name_is_valid_witness :
  exists s, name deploy_record = JStr s /\ name_pattern s = true.
Proof.
  exact (@loaded_name_is_valid sample_api sample_loader module_fs
           (js "/home/u/.gemini/commands/deploy.ts") personal deploy_record
           eq_refl).
Defined.

Lemma module_without_metadata_is_stamped_witness :
  metadata deploy_record
  = JObj [ (js "scope", JStr (scope_name personal));
           (js "sourceFormat", JStr (js "typescript"));
           (js "sourcePath", JStr (js "/home/u/.gemini/commands/deploy.ts")) ].
Proof.
  exact (@module_without_metadata_is_stamped sample_api sample_loader module_fs
           (js "/home/u/.gemini/commands/deploy.ts") personal
           (deploy_export, JUndefined) deploy_record
           eq_refl eq_refl eq_refl eq_refl).
Defined.

Lemma file_stamp_witness :
  field (metadata sample_b_record) "sourcePath"
  = JStr (js "/home/u/.gemini/commands/b.json")
  /\ field (metadata sample_b_record) "sourceFormat" = JStr (format_name json).
Proof.
  exact (@file_stamp sample_api sample_loader sample_fs
           (js "/home/u/.gemini/commands/b.json") personal json sample_b_record
           eq_refl (or_introl eq_refl) eq_refl).
Defined.

(** ** The actions that the loader builds *)

Section Actions.
Context {api : NodeApi}.

(** A JSON command has an action exactly when its file gives a command
    line, which is then a string that is not empty; [canExecuteShell] says
    which of the two holds. *)
Theorem json_action_presence (self : CustomCommandLoader) (config : JSValue)
    (c : SlashCommand) :
  Eff.result (createSimpleCommand self config) = Ok (Some c) ->
  field (metadata c) "canExecuteShell" = JBool (truthy (field config "command"))
  /\ (truthy (field config "command") = false -> action c = None)
  /\ (truthy (field config "command") = true ->
      exists sh,
        field config "command" = JStr sh /\ sh <> []
        /\ action c
           = Some (SimpleCommandAction (debugMode self) (JStr sh)
                     (match field config "args" with
                      | JUndefined => JStr []
                      | a => a
                      end)
                     (field config "cwd"))).
Proof.
  unfold createSimpleCommand.
  destruct (validateSimpleCommand config) as [errors|e] eqn:Hv; [|discriminate].
  simpl. destruct errors as [|d errors]; [|discriminate].
  simpl. intros H. injection H as <-. simpl.
  split; [reflexivity|]. split; [now intros ->|].
  intros Ht. rewrite Ht.
  unfold validateSimpleCommand in Hv.
  destruct (get_prop config (js "name")); [|discriminate].
  injection Hv as Hv. unfold simple_defects in Hv.
  apply app_eq_nil in Hv as [_ Hv]. apply app_eq_nil in Hv as [_ Hv].
  apply app_eq_nil in Hv as [Hc _].
  unfold string_defect in Hc. rewrite Ht in Hc.
  destruct (field config "command") as [| | | |sh| | |]; try discriminate Hc.
  exists sh. split; [reflexivity|]. split; [|reflexivity].
  intros ->. discriminate Ht.
Qed.

(** Running the action of a JSON command never raises: it gives a shell
    request when the file gives no argument template or a string, and the
    error message, for every user argument, when the template of the file
    is [null], [false] or [0], which the validator lets pass. *)
Theorem json_action_never_throws (self : CustomCommandLoader) (config : JSValue)
    (c : SlashCommand) (context : CommandContext) (userArgs : jsstring) :
  Eff.result (createSimpleCommand self config) = Ok (Some c) ->
  truthy (field config "command") = true ->
  exists run,
    run_action c context userArgs = Some run
    /\ match field config "args" with
       | JUndefined | JStr _ =>
           exists cmd dir,
             Eff.result run = Ok (ToolActionReturn (js "run_shell_command") cmd dir)
       | _ =>
           Eff.result run = Ok (MessageActionReturn msg_error (FailedToExecute TypeError))
       end.
Proof.
  unfold createSimpleCommand.
  destruct (validateSimpleCommand config) as [errors|e]; [|discriminate].
  simpl. destruct errors as [|d errors]; [|discriminate].
  simpl. intros H Ht. injection H as <-.
  unfold run_action. simpl. rewrite Ht. eexists. split; [reflexivity|].
  unfold simpleCommandAction.
  destruct (field config "args") as [| | | |a| | |]; simpl;
    try reflexivity;
    destruct (debugMode self); simpl; eauto.
Qed.

Lemma replace_all_from_absent (pat repl : jsstring) (s before_rev before_rev' : jsstring) :
  find_first pat before_rev s = None ->
  replace_all_from pat repl before_rev' 0 s = s.
Proof.
  revert before_rev before_rev'.
  induction s as [|c s IH]; intros b b' H; [reflexivity|].
  cbn [find_first] in H. cbn [replace_all_from].
  destruct (startsWith pat (c :: s)); [discriminate|].
  f_equal. now apply IH with (before_rev := c :: b).
Qed.

End Actions.

Lemma json_action_presence_witness :
  field (metadata null_args_record) "canExecuteShell"
  = JBool (truthy (field null_args_config "command"))
  /\ (truthy (field null_args_config "command") = false ->
      action null_args_record = None)
  /\ (truthy (field null_args_config "command") = true ->
      exists sh,
        field null_args_config "command" = JStr sh /\ sh <> []
        /\ action null_args_record
           = Some (SimpleCommandAction (debugMode sample_loader) (JStr sh)
                     (match field null_args_config "args" with
                      | JUndefined => JStr []
                      | a => a
                      end)
                     (field null_args_config "cwd"))).
Proof.
  exact (@json_action_presence sample_loader null_args_config null_args_record
           eq_refl).
Defined.

Lemma json_action_never_throws_witness :
  exists run,
    @run_action sample_api null_args_record sample_context (js "hello") = Some run
    /\ Eff.result run = Ok (MessageActionReturn msg_error (FailedToExecute TypeError)).
Proof.
  exact (@json_action_never_throws sample_api sample_loader null_args_config
           null_args_record sample_context (js "hello") eq_refl eq_refl).
Defined.

(** ** The load cycle, the registry and its views *)

Section Cycle.
Context {api : NodeApi}.
Variable self : CustomCommandLoader.
Variable fs : FileSystem.

Lemma loadCustomCommands_registry (st : LoadState) :
  exists st',
    loadCustomCommands self fs st = (Ok (cycle_records self fs), st')
    /\ commands st' = registry_of (cycle_records self fs).
Proof.
  destruct (loadCustomCommands_spec self fs st) as (st' & E & Hc & _).
  exists st'. split; [exact E|exact Hc].
Qed.

(** Reloading while the files stay as they are changes nothing: the second
    cycle returns the same records and leaves the same registry. *)
Theorem reload_is_idempotent (st : LoadState) :
  let first := loadCustomCommands self fs st in
  let second := loadCustomCommands self fs (snd first) in
  fst second = fst first
  /\ commands (snd second) = commands (snd first)
  /\ getAllCommands (snd second) = getAllCommands (snd first).
Proof.
  intros first second. subst first second.
  destruct (loadCustomCommands_registry st) as (st1 & -> & H1). simpl.
  destruct (loadCustomCommands_registry st1) as (st2 & -> & H2). simpl.
  unfold getAllCommands. now rewrite H1, H2.
Qed.

Lemma unavailable_directory_records (d : CommandDirectoryConfig) :
  fs_stat_isDirectory fs (dir_path d) <> Ok true
  \/ (exists e, fs_readdir fs (dir_path d) = Throw e) ->
  directory_records self fs d = [].
Proof.
  unfold directory_records, directoryExists, Eff.await. intros [H|[e H]].
  - destruct (fs_stat_isDirectory fs (dir_path d)) as [[|]|e]; simpl;
      congruence.
  - rewrite H.
    now destruct (fs_stat_isDirectory fs (dir_path d)) as [[|]|e'].
Qed.

(** A scope directory that does not exist, is no directory or cannot be
    listed is passed over: the cycle returns the records of the other
    directories and builds the registry from them. *)
Theorem unavailable_directory_is_skipped (st : LoadState)
    (before after : list CommandDirectoryConfig) (d : CommandDirectoryConfig) :
  directories self = before ++ d :: after ->
  fs_stat_isDirectory fs (dir_path d) <> Ok true
  \/ (exists e, fs_readdir fs (dir_path d) = Throw e) ->
  let others :=
    flat_map (directory_records self fs) (filter dir_enabled (before ++ after)) in
  exists st',
    loadCustomCommands self fs st = (Ok others, st')
    /\ commands st' = registry_of others.
Proof.
  intros Hd Hu others.
  assert (E : cycle_records self fs = others).
  { unfold cycle_records, others. rewrite Hd, !filter_app, !flat_map_app.
    f_equal. simpl. destruct (dir_enabled d); [|reflexivity].
    simpl. now rewrite (unavailable_directory_records d Hu). }
  rewrite <- E. apply loadCustomCommands_registry.
Qed.

(** In the views of the loader, a record of a JSON file is listed under
    the scope [project] and a record of a prose file under the scope
    [personal] and the category [markdown], whichever directory the file
    was loaded from. *)
Theorem scope_view_follows_format (filePath : jsstring) (scope : CommandScope)
    (f : CommandSourceFormat) (c : SlashCommand) (st : LoadState) :
  getSourceFormat (toLowerCase (path_extname filePath)) = Some f ->
  file_record self fs filePath scope = Some c ->
  In c (getAllCommands st) ->
  match f with
  | json => In c (getCommandsByScope st project)
  | markdown =>
      In c (getCommandsByScope st personal)
      /\ In c (getCommandsByCategory st (js "markdown"))
  | _ => True
  end.
Proof.
  intros Hf Hc Hin.
  destruct f; try exact I.
  - apply filter_In. split; [exact Hin|].
    pose proof (json_scope_is_project _ _ _ _ Hf Hc) as Hs.
    unfold field in Hs.
    destruct (metadata c) as [| | | | | | |]; simpl in *;
      try discriminate Hs; try (now rewrite Hs);
      repeat match type of Hs with
             | (if ?b then _ else _) = _ => destruct b; try discriminate Hs
             end.
  - apply file_record_inv in Hc as (f' & c0 & Hf' & Hr & ->).
    rewrite Hf in Hf'. injection Hf' as <-.
    destruct (markdown_action _ _ Hr) as (content & Hc & _).
    revert Hr. unfold loadMarkdownCommand, Eff.await. rewrite Hc. simpl.
    destruct (scanLines (split_lines content) false [] []) as [d sh].
    destruct (is_empty (str_or _ _)); [discriminate|].
    simpl. intros H. injection H as <-.
    split; apply filter_In; (split; [exact Hin|]); now destruct sh.
Qed.
End Cycle.

(** A value stored under two keys occurs twice among the values. *)
Lemma two_keys_two_values (V : Type) (k1 k2 : JSValue) (v : V) (m : JSMap.t V) :
  JSMap.get k1 m = Some v ->
  JSMap.get k2 m = Some v ->
  same_value_zero k1 k2 = false ->
  exists l1 l2 l3, JSMap.values m = l1 ++ v :: l2 ++ v :: l3.
Proof.
  assert (In_values : forall k (m : JSMap.t V),
             JSMap.get k m = Some v -> In v (JSMap.values m)).
  { intros k m0. induction m0 as [|[k' v'] m0 IH]; simpl; [discriminate|].
    destruct (same_value_zero k k'); [intros H; injection H as ->; now left|].
    intros H. right. now apply IH. }
  induction m as [|[k v0] m IH]; simpl; [discriminate|].
  intros H1 H2 Hne.
  destruct (same_value_zero k1 k) eqn:E1.
  - injection H1 as ->.
    destruct (same_value_zero k2 k) eqn:E2.
    + apply same_value_zero_eq in E2. subst k2. congruence.
    + apply In_values in H2. apply in_split in H2 as (l2 & l3 & ->).
      now exists [], l2, l3.
  - destruct (same_value_zero k2 k) eqn:E2.
    + injection H2 as ->.
      apply In_values in H1. apply in_split in H1 as (l2 & l3 & ->).
      now exists [], l2, l3.
    + destruct (IH H1 H2 Hne) as (l1 & l2 & l3 & ->).
      now exists (v0 :: l1), l2, l3.
Qed.

(** A record that has an alias different from its name, and that no later
    record overrides under either key, occurs twice in the list that
    [Array.from(commandMap.values())] gives, once for each of its keys:
    [getCommands] and [getAllCommands] list it twice. *)
Theorem aliased_command_is_listed_twice (builtIn before after : list SlashCommand)
    (c : SlashCommand) :
  is_primitive (name c) = true ->
  is_primitive (altName c) = true ->
  truthy (altName c) = true ->
  same_value_zero (name c) (altName c) = false ->
  (forall c', In c' after ->
     has_key (name c) c' = false /\ has_key (altName c) c' = false) ->
  exists l1 l2 l3,
    JSMap.values (buildCommandMap builtIn (before ++ c :: after))
    = l1 ++ c :: l2 ++ c :: l3.
Proof.
  intros Hn Ha Ht Hne Hafter.
  apply two_keys_two_values with (k1 := name c) (k2 := altName c);
    [| |exact Hne];
    rewrite buildCommandMap_registry_of, get_registry_of, app_assoc;
    apply last_with_key_unshadowed.
  - unfold has_key. now rewrite (same_value_zero_refl _ Hn).
  - intros c' Hc'. now apply Hafter.
  - unfold has_key. rewrite (same_value_zero_refl _ Ha), Ht. apply orb_true_r.
  - intros c' Hc'. now apply Hafter.
Qed.

Lemma aliased_command_is_listed_twice_witness :
  exists l1 l2 l3,
    JSMap.values (buildCommandMap [plain_command "help"]
                    ([plain_command "x"] ++ sample_build_record :: [plain_command "y"]))
    = l1 ++ sample_build_record :: l2 ++ sample_build_record :: l3.
Proof.
  apply (@aliased_command_is_listed_twice [plain_command "help"] [plain_command "x"]
           [plain_command "y"] sample_build_record eq_refl eq_refl eq_refl eq_refl).
  intros c' [<-|[]]. split; reflexivity.
Defined.

(** ** The scope views of the command service *)

Lemma scope_name_matches (s s' : CommandScope) :
  strict_equals_string (JStr (scope_name s)) (scope_name s') = true <-> s = s'.
Proof. destruct s, s'; simpl; split; try reflexivity; discriminate. Qed.

(** The three scope views of the service divide its commands among them,
    a command without a scope counting as built-in, provided that each scope
    that a command carries is one of [builtin], [project] and
    [personal]. *)
Theorem scope_views_partition (service : CommandService) :
  Forall (fun cmd =>
            exists s,
              js_or (optional_prop (metadata cmd) (js "scope")) (JStr (js "builtin"))
              = JStr (scope_name s))
    (getCommands service) ->
  Permutation (getCommands service)
    (service_getCommandsByScope service builtin
     ++ service_getCommandsByScope service project
     ++ service_getCommandsByScope service personal).
Proof.
  unfold getCommands, service_getCommandsByScope.
  induction (service_commands service) as [|cmd l IH]; intros H; [constructor|].
  inversion H as [|? ? [s Hs] Hl]; subst. specialize (IH Hl).
  cbn [filter]. cbv zeta. rewrite Hs.
  destruct s;
    repeat match goal with
           | |- context [strict_equals_string (JStr (scope_name ?a)) (scope_name ?b)] =>
               change (strict_equals_string (JStr (scope_name a)) (scope_name b))
                 with true
               || change (strict_equals_string (JStr (scope_name a)) (scope_name b))
                    with false
           end.
  - now apply perm_skip.
  - now apply Permutation_cons_app.
  - rewrite app_assoc. apply Permutation_cons_app. now rewrite <- app_assoc.
Qed.

Lemma scope_views_partition_witness :
  Permutation (getCommands listing_service)
    (service_getCommandsByScope listing_service builtin
     ++ service_getCommandsByScope listing_service project
     ++ service_getCommandsByScope listing_service personal).
Proof.
  apply scope_views_partition.
  repeat constructor;
    [exists builtin|exists project|exists personal]; reflexivity.
Defined.

Lemma unavailable_directory_is_skipped_witness :
  let others :=
    flat_map (@directory_records sample_api sample_loader project_only_fs)
      (filter dir_enabled ([@project_directory sample_api (js "/work")] ++ [])) in
  exists st',
    @loadCustomCommands sample_api sample_loader project_only_fs old_state
    = (Ok others, st')
    /\ commands st' = registry_of others.
Proof.
  apply (@unavailable_directory_is_skipped sample_api sample_loader project_only_fs
           old_state [@project_directory sample_api (js "/work")] []
           (@personal_directory sample_api) eq_refl).
  left. discriminate.
Defined.

Lemma scope_view_follows_format_witness :
  In sample_b_record
    (getCommandsByScope
       (snd (@loadCustomCommands sample_api sample_loader sample_fs old_state))
       project).
Proof.
  apply (@scope_view_follows_format sample_api sample_loader sample_fs
           (js "/home/u/.gemini/commands/b.json") personal json sample_b_record
           (snd (@loadCustomCommands sample_api sample_loader sample_fs old_state))
           eq_refl eq_refl).
  vm_compute. right. now left.
Defined.

(** ** Watching the directories *)

Section Watch.
Context {api : NodeApi}.
Variable self : CustomCommandLoader.

Lemma watchDirectories_watchers (fs : FileSystem)
    (dirs : list CommandDirectoryConfig) (ws : list nat) (st : LoadState) :
  fst (watchDirectories fs dirs ws st)
  = ws ++ flat_map (watch_handles fs) (filter dir_enabled dirs).
Proof.
  revert ws st. induction dirs as [|d rest IH]; intros ws st; simpl.
  - now rewrite app_nil_r.
  - destruct (dir_enabled d); simpl; [|apply IH].
    unfold watch_handles at 1.
    destruct (Eff.result (directoryExists fs (dir_path d))) as [[|]|e];
      try apply IH.
    destruct (fs_watch fs (dir_path d)) as [w|e]; rewrite IH; simpl;
      [now rewrite <- app_assoc|reflexivity].
Qed.

(** [startWatching] opens one watcher for each configured directory that
    exists and can be watched, and marks the loader as watching whether or
    not it opened any; from then on a further call does nothing, also when
    directories have appeared since. After [stopWatching] a call watches
    afresh. *)
Theorem startWatching_is_once (fs : FileSystem) (rt : Runtime) :
  isWatching (startWatching self fs rt) = true
  /\ (forall fs', startWatching self fs' (startWatching self fs rt)
                  = startWatching self fs rt)
  /\ (isWatching rt = false ->
      watchers (startWatching self fs rt)
      = watchers rt
        ++ flat_map (watch_handles fs) (filter dir_enabled (directories self)))
  /\ watchers (startWatching self fs (stopWatching rt))
     = flat_map (watch_handles fs) (filter dir_enabled (directories self)).
Proof.
  assert (Hw : isWatching (startWatching self fs rt) = true).
  { unfold startWatching. destruct (isWatching rt) eqn:E; [exact E|].
    now destruct (watchDirectories fs (directories self) (watchers rt) (load rt)). }
  assert (Hs : forall rt0, isWatching rt0 = false ->
             watchers (startWatching self fs rt0)
             = watchers rt0
               ++ flat_map (watch_handles fs) (filter dir_enabled (directories self))).
  { intros rt0 E. unfold startWatching. rewrite E.
    pose proof (watchDirectories_watchers fs (directories self) (watchers rt0)
                  (load rt0)) as H.
    now destruct (watchDirectories fs (directories self) (watchers rt0) (load rt0)). }
  split; [exact Hw|]. split; [|split; [apply Hs|now rewrite Hs]].
  intros fs'. unfold startWatching at 1. now rewrite Hw.
Qed.

(** Notifications of kind [rename], which are what the creation and the
    removal of a file give, and notifications without a file name schedule
    nothing: however many of them come, no timer is armed, no reload runs
    and the registry stays as it is. *)
Theorem ignored_notifications_never_reload (rt rt' : Runtime) (ls : list Label) :
  run self rt ls rt' ->
  forallb is_ignored ls = true ->
  load rt' = load rt
  /\ timers rt' = timers rt
  /\ reloadTimer rt' = reloadTimer rt
  /\ reloads rt' = reloads rt.
Proof.
  induction 1 as [rt|rt l rt1 ls rt2 Hstep _ IH]; intros Hi; [now repeat split|].
  simpl in Hi. apply andb_true_iff in Hi as [Hl Hls].
  destruct (IH Hls) as (H1 & H2 & H3 & H4).
  rewrite H1, H2, H3, H4. clear IH H1 H2 H3 H4.
  inversion Hstep as [? t w eventType filename _ _|]; subst; [|discriminate Hl].
  destruct eventType; simpl in *; [now repeat split|].
  apply negb_true_iff in Hl. rewrite Hl. now repeat split.
Qed.


End Watch.

Lemma creations_run :
  @run sample_api sample_loader watching_runtime creations
    (onWatchEvent sample_loader ev_rename (JStr (js "other.md"))
       (at_time 10
          (onWatchEvent sample_loader ev_rename (JStr (js "new.json"))
             (at_time 0 watching_runtime)))).
Proof.
  unfold creations.
  eapply run_cons;
    [apply step_notify; [vm_compute; discriminate|now left]|].
  eapply run_cons;
    [apply step_notify; [vm_compute; discriminate|now left]|].
  apply run_nil.
Defined.

Lemma ignored_notifications_never_reload_witness :
  let rt' :=
    onWatchEvent sample_loader ev_rename (JStr (js "other.md"))
      (at_time 10
         (onWatchEvent sample_loader ev_rename (JStr (js "new.json"))
            (at_time 0 watching_runtime))) in
  load rt' = load watching_runtime
  /\ timers rt' = timers watching_runtime
  /\ reloadTimer rt' = reloadTimer watching_runtime
  /\ reloads rt' = reloads watching_runtime.
Proof.
  exact (@ignored_notifications_never_reload sample_api sample_loader
           watching_runtime _ creations creations_run eq_refl).
Defined.


(** ** A sub-command that is [null] *)

Lemma subCommand_defects_throws (i : nat) (subs : list (Eff.t (option JSValue))) :
  Exists (fun sub => exists e, Eff.result sub = Throw e) subs ->
  exists e, Eff.result (subCommand_defects i subs) = Throw e.
Proof.
  intros H. revert i. induction H as [sub rest [e He]|sub rest _ IH]; intros i.
  - exists e. cbn [subCommand_defects]. now apply bind_result_throw.
  - cbn [subCommand_defects].
    destruct (Eff.result sub) as [r|e] eqn:Er.
    + destruct (IH (S i)) as [e He]. exists e.
      rewrite (bind_result_ok _ _ Er). now apply bind_result_throw.
    + exists e. now apply bind_result_throw.
Qed.

(** A list of sub-commands that holds [null] or [undefined] is not
    reported as a defect: reading the name of that element raises, and the
    exception leaves [validateCommand]. *)
Theorem null_subcommand_raises (command : JSValue) (l : list JSValue) :
  field command "subCommands" = JArr l ->
  In JNull l \/ In JUndefined l ->
  exists e, Eff.result (validateCommand command) = Throw e.
Proof.
  intros Hs Hin. rewrite validateCommand_unfold, Hs. unfold validateCommand_body.
  destruct command as [| | | | | |props|]; try discriminate Hs;
    try (unfold field, prop in Hs; simpl in Hs;
         repeat match type of Hs with
                | (if ?b then _ else _) = _ => destruct b
                end; discriminate Hs).
  cbn [get_prop]. rewrite Hs. cbn [truthy isArray negb].
  destruct (@subCommand_defects_throws 0 (map validateCommand l)) as [e He].
  { apply Exists_exists.
    destruct Hin as [H|H]; eexists; (split; [apply in_map, H|]);
      now exists TypeError. }
  exists e. now apply bind_result_throw.
Qed.

Lemma null_subcommand_raises_witness :
  exists e,
    Eff.result
      (validateCommand
         (JObj [ (js "name", JStr (js "deploy"));
                 (js "subCommands", JArr [JNull]) ]))
    = Throw e.
Proof.
  apply (@null_subcommand_raises
           (JObj [ (js "name", JStr (js "deploy"));
                   (js "subCommands", JArr [JNull]) ])
           [JNull] eq_refl).
  left. now left.
Defined.

(** ** A reload waits for the directories to be quiet *)

Section Quiet.
Context {api : NodeApi}.
Variable self : CustomCommandLoader.

Lemma run_app_inv (rt rt' : Runtime) (a b : list Label) :
  run self rt (a ++ b) rt' ->
  exists rt1, run self rt a rt1 /\ run self rt1 b rt'.
Proof.
  revert rt. induction a as [|l a IH]; intros rt H.
  - exists rt. split; [constructor|exact H].
  - inversion H as [|? ? rt1 ? ? Hstep Hrun]; subst.
    destruct (IH _ Hrun) as (rt2 & Ha & Hb).
    exists rt2. split; [|exact Hb]. now apply run_cons with (rt1 := rt1).
Qed.

Lemma step_pending (rt rt' : Runtime) (l : Label) (last : option Z) :
  pending last rt ->
  step self rt l rt' ->
  pending (last_named_change last [l]) rt'.
Proof.
  intros Hp Hstep.
  destruct Hstep as [rt t w eventType filename _ _|rt t h due fs _ Hin _].
  - destruct eventType; simpl; [exact Hp|].
    destruct (truthy filename); [|exact Hp].
    right. exists (next_timer rt), t. split; [reflexivity|].
    unfold scheduleReload, with_load, at_time. simpl. split; [|reflexivity].
    destruct Hp as [Ht|(h & t0 & _ & Ht & Hr)].
    + rewrite Ht. now destruct (reloadTimer rt).
    + rewrite Hr, Ht. now rewrite clearTimeout_only.
  - simpl. left.
    destruct (reloadCallback_fields self fs t h rt) as (_ & _ & ->).
    destruct Hp as [Ht|(h0 & t0 & _ & Ht & _)].
    + now rewrite Ht.
    + rewrite Ht in Hin |- *. destruct Hin as [Hin|[]].
      injection Hin as -> _. apply clearTimeout_only.
Qed.

Lemma last_named_change_app (last : option Z) (a b : list Label) :
  last_named_change last (a ++ b)
  = last_named_change (last_named_change last a) b.
Proof.
  revert last. induction a as [|l a IH]; intros last; [reflexivity|].
  destruct l as [t w [|] f|t h fs]; simpl; try apply IH.
  destruct (truthy f); apply IH.
Qed.

Lemma run_pending (rt rt' : Runtime) (ls : list Label) (last : option Z) :
  pending last rt ->
  run self rt ls rt' ->
  pending (last_named_change last ls) rt'.
Proof.
  intros Hp Hrun. revert last Hp.
  induction Hrun as [rt|rt l rt1 ls rt2 Hstep _ IH]; intros last Hp; [exact Hp|].
  change (l :: ls) with ([l] ++ ls). rewrite last_named_change_app.
  apply IH. now apply step_pending with (rt := rt).
Qed.

(** The debounce as a safety property, for every course of events that
    starts with no timer pending: whenever the reload callback runs, the
    last change notification that named a file came at least 500 before,
    and nothing was pending without such a notification. *)
Theorem reload_waits_for_quiet (rt0 rt : Runtime) (pre post : list Label)
    (r : Z) (h : nat) (fs : FileSystem) :
  timers rt0 = [] ->
  run self rt0 (pre ++ Fire r h fs :: post) rt ->
  exists t,
    last_named_change None pre = Some t /\ (t + debounce_delay <= r)%Z.
Proof.
  intros Ht0 Hrun.
  apply run_app_inv in Hrun as (rt1 & Hpre & Hrest).
  assert (Hp : pending (last_named_change None pre) rt1)
    by (apply run_pending with (rt := rt0); [now left|exact Hpre]).
  inversion Hrest as [|? ? rt2 ? ? Hstep _]; subst.
  inversion Hstep as [|? ? ? due ? _ Hin Hdue]; subst.
  destruct Hp as [Ht|(h0 & t & Hl & Ht & _)]; rewrite Ht in Hin.
  - destruct Hin.
  - destruct Hin as [Hin|[]]. injection Hin as _ <-.
    exists t. now split.
Qed.
End Quiet.

Lemma reload_waits_for_quiet_witness :
  exists t,
    last_named_change None
      [ Notify 0 0 ev_change (JStr (js "build.json"));
        Notify 100 0 ev_change (JStr (js "build.json")) ] = Some t
    /\ (t + debounce_delay <= 650)%Z.
Proof.
  exact (@reload_waits_for_quiet sample_api sample_loader watching_runtime
           after_sample_burst
           [ Notify 0 0 ev_change (JStr (js "build.json"));
             Notify 100 0 ev_change (JStr (js "build.json")) ]
           [] 650 1 sample_fs eq_refl sample_burst_run).
Defined.

(** ** Failures are reported *)

Section Reports.
Context {api : NodeApi}.
Variable self : CustomCommandLoader.
Variable fs : FileSystem.

Lemma reported_app_l (a b : list Event) : reported a -> reported (a ++ b).
Proof. intros [msg [H|H]]; exists msg; [left|right]; apply in_or_app; now left. Qed.

Lemma reported_app_r (a b : list Event) : reported b -> reported (a ++ b).
Proof. intros [msg [H|H]]; exists msg; [left|right]; apply in_or_app; now right. Qed.

Lemma bind_events_ok (A B : Type) (m : Eff.t A) (k : A -> Eff.t B) (a : A) :
  Eff.result m = Ok a ->
  Eff.events (Eff.bind m k) = Eff.events m ++ Eff.events (k a).
Proof.
  destruct m as [ev [x|e]]; simpl; [|discriminate].
  intros H. injection H as ->. now destruct (k a).
Qed.

Lemma bind_events_throw (A B : Type) (m : Eff.t A) (k : A -> Eff.t B) (e : Exception) :
  Eff.result m = Throw e -> Eff.events (Eff.bind m k) = Eff.events m.
Proof. destruct m as [ev [x|e']]; simpl; [discriminate|reflexivity]. Qed.

Lemma try_catch_events_ok (A : Type) (body : Eff.t A)
    (handler : Exception -> Eff.t A) (a : A) :
  Eff.result body = Ok a ->
  Eff.events (Eff.try_catch body handler) = Eff.events body.
Proof. destruct body as [ev [x|e]]; simpl; [reflexivity|discriminate]. Qed.

Lemma try_catch_events_throw (A : Type) (body : Eff.t A)
    (handler : Exception -> Eff.t A) (e : Exception) :
  Eff.result body = Throw e ->
  Eff.events (Eff.try_catch body handler)
  = Eff.events body ++ Eff.events (handler e).
Proof.
  destruct body as [ev [x|e']]; simpl; [discriminate|].
  intros H. injection H as ->. now destruct (handler e).
Qed.

(** A rejection by [validateCommand] is printed. *)
Lemma validateCommand_rejection_reported (command : JSValue) :
  Eff.result (validateCommand command) = Ok None ->
  reported (Eff.events (validateCommand command)).
Proof.
  rewrite validateCommand_unfold. unfold validateCommand_body.
  destruct (get_prop command (js "name")) as [x|e]; [|discriminate].
  set (subs := if truthy (field command "subCommands") then _ else _).
  destruct (Eff.result subs) as [sd|e] eqn:Es;
    [|now rewrite (bind_result_throw _ _ Es)].
  rewrite (bind_result_ok _ _ Es), (bind_events_ok _ _ Es).
  intros H. apply reported_app_r.
  match type of H with
  | Eff.result (Eff.bind ?w _) = _ =>
      assert (Hw : Eff.result w = Ok tt) by (unfold Eff.when; now destruct (_ && _));
      rewrite (bind_result_ok _ _ Hw) in H; rewrite (bind_events_ok _ _ Hw)
  end.
  apply reported_app_r.
  match type of H with
  | Eff.result (if ?b then _ else _) = _ => destruct b; [|discriminate H]
  end.
  eexists. left. now left.
Qed.

(** What the parser of a file prints when the file fails to load. *)
Lemma load_failure_parser_reported (filePath : jsstring) :
  load_failure fs filePath ->
  match getSourceFormat (toLowerCase (path_extname filePath)) with
  | Some typescript => reported (Eff.events (loadTypeScriptCommand fs filePath))
  | Some json => reported (Eff.events (loadJsonCommand self fs filePath))
  | Some yaml => True
  | Some markdown => reported (Eff.events (loadMarkdownCommand fs filePath))
  | None => True
  end.
Proof.
  intros F.
  destruct F as [e Hf Hr|content Hf Hr Hp|content config e Hf Hr Hp Hv
                |content config errors Hf Hr Hp Hv Hne
                |e Hf Hr|content Hf Hr Ht Hb
                |e Hf Hi|exports Hf Hi He|exports Hf Hi Hv]; rewrite Hf.
  - unfold loadJsonCommand, Eff.await. rewrite Hr.
    destruct e; eexists; left; simpl; right; now left.
  - unfold loadJsonCommand, Eff.await. rewrite Hr. simpl. rewrite Hp.
    eexists. left. simpl. right. now left.
  - unfold loadJsonCommand, Eff.await, createSimpleCommand. rewrite Hr. simpl.
    rewrite Hp. simpl. rewrite Hv.
    destruct e; eexists; left; simpl; right; now left.
  - unfold loadJsonCommand, Eff.await, createSimpleCommand. rewrite Hr. simpl.
    rewrite Hp. simpl. rewrite Hv. simpl.
    destruct errors as [|d errors]; [congruence|].
    eexists. left. simpl. right. now left.
  - unfold loadMarkdownCommand, Eff.await. rewrite Hr.
    eexists. left. simpl. right. now left.
  - unfold loadMarkdownCommand, Eff.await. rewrite Hr. simpl.
    destruct (scanLines (split_lines content) false [] []) as [d sh].
    rewrite Ht, Hb. eexists. right. simpl. right. now left.
  - unfold loadTypeScriptCommand, Eff.await. rewrite Hi.
    eexists. left. simpl. right. now left.
  - unfold loadTypeScriptCommand, Eff.await. rewrite Hi. simpl.
    destruct (truthy (js_or (fst exports) (snd exports))); simpl in *;
      [rewrite He|]; eexists; right; simpl; right; now left.
  - unfold loadTypeScriptCommand.
    set (command := js_or (fst exports) (snd exports)) in *.
    match goal with
    | |- reported (Eff.events (Eff.try_catch ?b ?hd)) =>
        set (body := b); set (handler := hd)
    end.
    assert (Hbody : (exists r, Eff.result body = Ok r /\ reported (Eff.events body))
                    \/ exists e, Eff.result body = Throw e).
    { unfold body.
      assert (Ha : Eff.result (Eff.await (import_module fs filePath)) = Ok exports)
        by (now rewrite Hi).
      rewrite (bind_result_ok _ _ Ha), (bind_events_ok _ _ Ha). fold command.
      destruct (negb (truthy command) || negb (is_object command)).
      - left. exists None. split; [reflexivity|].
        apply reported_app_r. eexists. right. now left.
      - destruct (Eff.result (validateCommand command)) as [[v|]|e] eqn:Ev.
        + now destruct (Hv v).
        + left. exists None. rewrite (bind_result_ok _ _ Ev). split; [reflexivity|].
          apply reported_app_r. rewrite (bind_events_ok _ _ Ev).
          apply reported_app_l. now apply validateCommand_rejection_reported.
        + right. exists e. now apply bind_result_throw. }
    destruct Hbody as [(r & Hr & Hrep)|[e He]].
    + now rewrite (try_catch_events_ok _ _ Hr).
    + rewrite (try_catch_events_throw _ _ He). apply reported_app_r.
      eexists. left. now left.
Qed.

(** No failure is silent: when a file fails to load, by any of the
    failures that the loader meets, a warning or an error about it is
    printed on the console, whether or not the debug mode is on. *)
Theorem load_failure_is_reported (filePath : jsstring) (scope : CommandScope) :
  load_failure fs filePath ->
  exists msg,
    In (Console LError msg) (Eff.events (loadCommandFromFile self fs filePath scope))
    \/ In (Console LWarn msg) (Eff.events (loadCommandFromFile self fs filePath scope)).
Proof.
  intros F.
  pose proof (load_failure_parser_reported F) as Hrep.
  pose proof (load_failure_parser_null self F) as Hnull.
  assert (Hfmt : exists f, getSourceFormat (toLowerCase (path_extname filePath))
                           = Some f) by (destruct F; eauto).
  destruct Hfmt as [f Hf]. unfold loadCommandFromFile. rewrite Hf in *.
  destruct f.
  - rewrite (@try_catch_events_ok _ _ _ None)
      by (now rewrite (bind_result_ok _ _ Hnull)).
    rewrite (bind_events_ok _ _ Hnull). now apply reported_app_l.
  - rewrite (@try_catch_events_ok _ _ _ None)
      by (now rewrite (bind_result_ok _ _ Hnull)).
    rewrite (bind_events_ok _ _ Hnull). now apply reported_app_l.
  - eexists. right. simpl. now left.
  - rewrite (@try_catch_events_ok _ _ _ None)
      by (now rewrite (bind_result_ok _ _ Hnull)).
    rewrite (bind_events_ok _ _ Hnull). now apply reported_app_l.
Qed.
End Reports.

Lemma load_failure_is_reported_witness :
  exists msg,
    In (Console LError msg)
       (Eff.events (@loadCommandFromFile sample_api sample_loader sample_fs
                      (js "/work/.gemini/commands/broken.json") project))
    \/ In (Console LWarn msg)
         (Eff.events (@loadCommandFromFile sample_api sample_loader sample_fs
                        (js "/work/.gemini/commands/broken.json") project)).
Proof.
  exact (@load_failure_is_reported sample_api sample_loader sample_fs
           (js "/work/.gemini/commands/broken.json") project
           (@json_syntax_error sample_api sample_fs
              (js "/work/.gemini/commands/broken.json") broken_json_text
              eq_refl eq_refl eq_refl)).
Defined.

(** ** Arguments and the placeholder *)

Section Placeholder.
Context {api : NodeApi}.

(** Without the placeholder, what the user types after the command is
    dropped. A JSON command whose argument template does not hold it, and so
    a JSON command without a template, requests its command line followed
    by the template; a prose command whose shell command does not hold it
    requests the shell command as it is. *)
Theorem arguments_need_placeholder (template shell : jsstring) (debug : bool)
    (shellCommand : jsstring) (cwd : JSValue) (context : CommandContext)
    (userArgs : jsstring) :
  find_first (js "{{args}}") [] template = None ->
  find_first (js "{{args}}") [] shell = None ->
  let root := match services_config context with
              | Some c => getProjectRoot c
              | None => JUndefined
              end in
  Eff.result
    (simpleCommandAction debug (JStr shellCommand) (JStr template) cwd context
       userArgs)
  = Ok (ToolActionReturn (js "run_shell_command")
          (trim (shellCommand ++ [32%N] ++ template))
          (js_or cwd (js_or root (JStr process_cwd))))
  /\ Eff.result (markdownShellAction shell context userArgs)
     = Ok (ToolActionReturn (js "run_shell_command") shell
             (js_or root (JStr process_cwd))).
Proof.
  intros Ht Hs root. split.
  - unfold simpleCommandAction, replace_first. rewrite Ht. now destruct debug.
  - unfold markdownShellAction, replace_all.
    now rewrite (@replace_all_from_absent _ _ _ _ _ Hs).
Qed.
End Placeholder.

Lemma arguments_need_placeholder_witness :
  let root := getProjectRoot sample_config in
  Eff.result
    (@simpleCommandAction sample_api false (JStr (js "npm run build")) (JStr [])
       JUndefined sample_context (js "--prod"))
  = Ok (ToolActionReturn (js "run_shell_command")
          (trim (js "npm run build" ++ [32%N] ++ []))
          (js_or JUndefined (js_or root (JStr (@process_cwd sample_api)))))
  /\ Eff.result
       (@markdownShellAction sample_api (js "npm test") sample_context (js "--prod"))
     = Ok (ToolActionReturn (js "run_shell_command") (js "npm test")
             (js_or root (JStr (@process_cwd sample_api)))).
Proof.
  exact (@arguments_need_placeholder sample_api [] (js "npm test") false
           (js "npm run build") JUndefined sample_context (js "--prod")
           eq_refl eq_refl).
Defined.
